(** * Shell / flexible-constraint relaxation engine (mdlib/shellfc.cpp)

    A shallow embedding of the shell-particle code of GROMACS' mdlib:
    the topology scan that builds the global shell table, the per-step
    local table, the position predictor, the steepest-descent update with
    its adaptive step, the RMS-force metric, the relaxation loop and the
    Drude hard-wall correction.

    Conventions of the embedding:
    - C [int] is [Z]; array indices are converted at the access, and an
      access outside the array is the outcome [Undefined].
    - C [real]/[double] is the exact rational field [Q]; rounding, NaN and
      infinities are outside the model.  Equalities between reals are
      stated with [==].  The square root is taken as a parameter
      ([real_sqrt]) wherever the code calls [sqrt].
    - [gmx_fatal] ends a computation with the outcome [Fatal e].
    - Writes to log files are dropped, except the lines that the
      properties below talk about, which are collected in an event list. *)

From Stdlib Require Import ZArith QArith Qabs Lia Lqa List Bool.
From stdpp Require Import base list.
Import ListNotations.

Open Scope Z_scope.

(** ** Outcomes: normal return, fatal error, undefined behaviour *)

Inductive fatal_error : Type :=
| FatalNstcalcenergy (nstcalcenergy : Z)
| FatalDeathHorror
| FatalNsiRange (nsi nshell aS : Z)
| FatalWeirdStuff
| FatalTooManyBonds
| FatalPolarizeCharge (aS mb : Z)
| FatalWaterPolCharge (aS mb : Z)
| FatalShellsNotBonded
| FatalShellNuclei (i nnucl : Z)
| FatalDrudeTooFar (ib ia : Z)
| FatalUnknownDrudeMode.

Inductive outcome (A : Type) : Type :=
| Done (a : A)
| Fatal (e : fatal_error)
| Undefined.

Arguments Done {A} a.
Arguments Fatal {A} e.
Arguments Undefined {A}.

Definition obind {A B : Type} (m : outcome A) (k : A -> outcome B) : outcome B :=
  match m with
  | Done a => k a
  | Fatal e => Fatal e
  | Undefined => Undefined
  end.

Declare Scope outcome_scope.
Delimit Scope outcome_scope with outcome.
Notation "'let*' x ':=' m 'in' k" := (obind m (fun x => k))
  (at level 10, x pattern, m at level 100, k at level 200) : outcome_scope.
Open Scope outcome_scope.

(** Array read and write with the bounds made explicit. *)
Definition aget {A : Type} (l : list A) (i : Z) : outcome A :=
  if i <? 0 then Undefined
  else match l !! Z.to_nat i with
       | Some a => Done a
       | None => Undefined
       end.

Definition aset {A : Type} (l : list A) (i : Z) (a : A) : outcome (list A) :=
  if (0 <=? i) && (i <? Z.of_nat (length l))
  then Done (<[Z.to_nat i := a]> l)
  else Undefined.

(** Monadic left fold: a C loop over the elements of [xs] whose body may
    abort. *)
Fixpoint ofold {A S : Type} (body : S -> A -> outcome S) (xs : list A) (s : S)
    : outcome S :=
  match xs with
  | [] => Done s
  | x :: xs' => let* s' := body s x in ofold body xs' s'
  end.

(** A counted loop [for (n = 0; n < count; n++)] whose body does not look
    at the counter. *)
Fixpoint orepeat {S : Type} (count : nat) (body : S -> outcome S) (s : S)
    : outcome S :=
  match count with
  | O => Done s
  | S count' => let* s' := body s in orepeat count' body s'
  end.

(** ** Reals and three-vectors (math/vec.h) *)

Definition real : Type := Q.
Bind Scope Q_scope with real.

Record rvec : Type := mk_rvec { XX : real; YY : real; ZZ : real }.

Definition rvec_zero : rvec := mk_rvec 0%Q 0%Q 0%Q.
Definition clear_rvec (a : rvec) : rvec := rvec_zero.
Definition copy_rvec (a : rvec) : rvec := a.

Definition rvec_map2 (op : real -> real -> real) (a b : rvec) : rvec :=
  mk_rvec (op (XX a) (XX b)) (op (YY a) (YY b)) (op (ZZ a) (ZZ b)).

Definition rvec_add (a b : rvec) : rvec := rvec_map2 Qplus a b.
Definition rvec_sub (a b : rvec) : rvec := rvec_map2 Qminus a b.
Definition rvec_inc (a b : rvec) : rvec := rvec_add a b.
Definition svmul (s : real) (a : rvec) : rvec :=
  mk_rvec (s * XX a)%Q (s * YY a)%Q (s * ZZ a)%Q.
Definition iprod (a b : rvec) : real :=
  (XX a * XX b + YY a * YY b + ZZ a * ZZ b)%Q.
Definition norm2 (a : rvec) : real := iprod a a.

(** Component [d] of a vector, [d] ranging over [0 .. DIM-1]. *)
Inductive dim : Type := dXX | dYY | dZZ.

Definition rcomp (a : rvec) (d : dim) : real :=
  match d with dXX => XX a | dYY => YY a | dZZ => ZZ a end.

Definition Qltb (a b : real) : bool := negb (Qle_bool b a).
(** [std::min] and [std::max] with their tie-breaking. *)
Definition std_min (a b : real) : real := if Qltb b a then b else a.
Definition std_max (a b : real) : real := if Qltb a b then b else a.
Definition fabs (a : real) : real := Qabs a.

(** ** Declarations taken from headers that are not part of this file

    [shellfc.cpp] uses constants, tables and small inline helpers that
    are declared in other headers (math/units.h, math/functions.h,
    utility/real.h, topology/ifunc.h).  They are parameters of the
    embedding. *)

Inductive ptype_t : Type := eptAtom | eptNucleus | eptShell | eptBond | eptVSite.

Definition ptype_eqb (a b : ptype_t) : bool :=
  match a, b with
  | eptAtom, eptAtom | eptNucleus, eptNucleus | eptShell, eptShell
  | eptBond, eptBond | eptVSite, eptVSite => true
  | _, _ => false
  end.

Inductive ftype_t : Type :=
| F_BONDS | F_HARMONIC | F_CUBICBONDS | F_POLARIZATION | F_HYPER_POL
| F_ANHARM_POL | F_ANISO_POL | F_WATER_POL
| F_OTHER (n : nat).

Class Headers : Type := {
  (** [interaction_function[ftype].nratoms] *)
  nratoms : ftype_t -> nat;
  (** [gmx_within_tol(f1, f2, tol)] *)
  gmx_within_tol : real -> real -> real -> bool;
  (** [gmx_numzero(a)] *)
  gmx_numzero : real -> bool;
  (** [sqrt] *)
  real_sqrt : real -> real;
  GMX_REAL_EPS : real;
  ONE_4PI_EPS0 : real;
  BOLTZ : real
}.

(** ** The shell record and the relaxation engine state (shellfc.h) *)

Record t_shell : Type := mk_shell {
  nnucl : Z;
  shell : Z;
  nucl1 : Z;
  nucl2 : Z;
  nucl3 : Z;
  k : real;
  k_1 : real;
  k11 : real;
  k22 : real;
  k33 : real;
  xold : rvec;
  fold : rvec;
  step : rvec
}.

(** [shfc->shell] is a pointer: after [make_local_shells] on a single node
    it points to the global array itself, with domain decomposition it
    points to an array of its own. *)
Inductive shell_ptr : Type :=
| PtrGlobal
| PtrLocal (cells : list t_shell).

Record gmx_shellfc : Type := mk_shellfc {
  nshell_gl : Z;
  shell_gl : list t_shell;
  shell_index_gl : list Z;
  bInterCG : bool;
  nshell : Z;
  shell_p : shell_ptr;
  bPredict : bool;
  bRequireInit : bool;
  nflexcon : Z;
  shfc_x : list rvec * list rvec;
  shfc_f : list rvec * list rvec;
  shfc_acc_dir : list rvec;
  shfc_x_old : list rvec;
  numForceEvaluations : Z;
  numConvergedIterations : Z
}.

(** The array [shfc->shell] points to, and a store through that pointer. *)
Definition shell_cells (shfc : gmx_shellfc) : list t_shell :=
  match shell_p shfc with
  | PtrGlobal => shell_gl shfc
  | PtrLocal cells => cells
  end.

Definition store_shell_cells (shfc : gmx_shellfc) (cells : list t_shell)
    : gmx_shellfc :=
  match shell_p shfc with
  | PtrGlobal =>
      mk_shellfc (nshell_gl shfc) cells (shell_index_gl shfc) (bInterCG shfc)
        (nshell shfc) PtrGlobal (bPredict shfc) (bRequireInit shfc)
        (nflexcon shfc) (shfc_x shfc) (shfc_f shfc) (shfc_acc_dir shfc)
        (shfc_x_old shfc) (numForceEvaluations shfc)
        (numConvergedIterations shfc)
  | PtrLocal _ =>
      mk_shellfc (nshell_gl shfc) (shell_gl shfc) (shell_index_gl shfc)
        (bInterCG shfc) (nshell shfc) (PtrLocal cells) (bPredict shfc)
        (bRequireInit shfc) (nflexcon shfc) (shfc_x shfc) (shfc_f shfc)
        (shfc_acc_dir shfc) (shfc_x_old shfc) (numForceEvaluations shfc)
        (numConvergedIterations shfc)
  end.

(** ** Topology (topology/topology.h, idef.h), as far as the scan reads it *)

Record t_atom : Type := mk_atom {
  atom_m : real;
  atom_q : real;
  atom_qB : real;
  atom_ptype : ptype_t
}.

(** [t_iparams] is a union; the members the scan reads are kept apart. *)
Record t_iparams : Type := mk_iparams {
  harmonic_krA : real;
  cubic_kb : real;
  hyperpol_k : real;
  polarize_alpha : real;
  daniso_a11 : real;
  daniso_a22 : real;
  daniso_a33 : real;
  wpol_al_x : real;
  wpol_al_y : real;
  wpol_al_z : real
}.

Record gmx_ffparams_t : Type := mk_ffparams {
  functype : list ftype_t;
  iparams : list t_iparams
}.

Record t_ilist : Type := mk_ilist { il_nr : Z; il_iatoms : list Z }.

Record t_block : Type := mk_block { blk_nr : Z; blk_index : list Z }.

Record gmx_moltype_t : Type := mk_moltype {
  mt_atoms : list t_atom;
  mt_cgs : t_block;
  mt_ilist : ftype_t -> t_ilist
}.

Record gmx_molblock_t : Type := mk_molblock { mb_type : Z; mb_nmol : Z }.

Record gmx_mtop_t : Type := mk_mtop {
  mtop_natoms : Z;
  moltype : list gmx_moltype_t;
  molblock : list gmx_molblock_t;
  ffparams : gmx_ffparams_t
}.

Definition atoms_nr (molt : gmx_moltype_t) : Z := Z.of_nat (length (mt_atoms molt)).

Inductive drudemode_t : Type := edrudeSCF | edrudeLagrangian | edrudeOther.

(** The fields of [t_inputrec] the engine reads.  [eI_is_EM] is
    [EI_ENERGY_MINIMIZATION(ir->eI)], [ePBC_none] is
    [ir->ePBC == epbcNONE], [cutoff_verlet] is
    [ir->cutoff_scheme == ecutsVERLET]. *)
Record t_inputrec : Type := mk_inputrec {
  ir_bDrude : bool;
  ir_drudemode : drudemode_t;
  ir_drude_t : real;
  ir_drude_r : real;
  ir_delta_t : real;
  ir_em_tol : real;
  ir_niter : Z;
  ir_init_step : Z;
  ir_bContinuation : bool;
  ir_eI_is_EM : bool;
  ir_ePBC_none : bool;
  ir_cutoff_verlet : bool
}.

(** The two environment variables read at set-up. *)
Record environment : Type := mk_environment {
  GMX_NOPREDICT : bool;
  GMX_REQUIRE_SHELL_INIT : bool
}.

(** [lo, lo+1, .., hi-1], the values of a [for (i = lo; i < hi; i++)]. *)
Definition zrange (lo hi : Z) : list Z :=
  map (fun n => lo + Z.of_nat n) (seq 0 (Z.to_nat (hi - lo))).

(** ** [countPtypes] *)

Definition nptype_t : Type := ptype_t -> Z.

Definition nptype_add (n : nptype_t) (p : ptype_t) (d : Z) : nptype_t :=
  fun p' => if ptype_eqb p p' then n p' + d else n p'.

Definition countPtypes (mtop : gmx_mtop_t) : outcome nptype_t :=
  ofold
    (fun n molb =>
       let* molt := aget (moltype mtop) (mb_type molb) in
       Done (fold_left
               (fun n atom =>
                  match atom_ptype atom with
                  | eptAtom | eptVSite | eptShell =>
                      nptype_add n (atom_ptype atom) (mb_nmol molb)
                  | _ => n
                  end)
               (mt_atoms molt) n))
    (molblock mtop) (fun _ => 0).

(** ** [init_shell_flexcon] *)

Definition bondtypes : list ftype_t :=
  [F_BONDS; F_HARMONIC; F_CUBICBONDS; F_POLARIZATION; F_HYPER_POL;
   F_ANHARM_POL; F_ANISO_POL; F_WATER_POL].

(** The record written by the "Initiate the shell structures" loop; the
    fields the loop does not write are zero, as [snew] leaves them. *)
Definition shell_init : t_shell :=
  mk_shell 0 (-1) (-1) (-1) (-1) 0%Q 0%Q 0%Q 0%Q 0%Q rvec_zero rvec_zero rvec_zero.

Definition set_shell (s : t_shell) (v : Z) : t_shell :=
  mk_shell (nnucl s) v (nucl1 s) (nucl2 s) (nucl3 s) (k s) (k_1 s) (k11 s)
    (k22 s) (k33 s) (xold s) (fold s) (step s).
Definition set_nucl1 (s : t_shell) (v : Z) : t_shell :=
  mk_shell (nnucl s) (shell s) v (nucl2 s) (nucl3 s) (k s) (k_1 s) (k11 s)
    (k22 s) (k33 s) (xold s) (fold s) (step s).
Definition set_nucl2 (s : t_shell) (v : Z) : t_shell :=
  mk_shell (nnucl s) (shell s) (nucl1 s) v (nucl3 s) (k s) (k_1 s) (k11 s)
    (k22 s) (k33 s) (xold s) (fold s) (step s).
Definition set_nucl3 (s : t_shell) (v : Z) : t_shell :=
  mk_shell (nnucl s) (shell s) (nucl1 s) (nucl2 s) v (k s) (k_1 s) (k11 s)
    (k22 s) (k33 s) (xold s) (fold s) (step s).
Definition set_nnucl (s : t_shell) (v : Z) : t_shell :=
  mk_shell v (shell s) (nucl1 s) (nucl2 s) (nucl3 s) (k s) (k_1 s) (k11 s)
    (k22 s) (k33 s) (xold s) (fold s) (step s).
Definition set_k (s : t_shell) (v : real) : t_shell :=
  mk_shell (nnucl s) (shell s) (nucl1 s) (nucl2 s) (nucl3 s) v (k_1 s) (k11 s)
    (k22 s) (k33 s) (xold s) (fold s) (step s).
Definition set_k_1 (s : t_shell) (v : real) : t_shell :=
  mk_shell (nnucl s) (shell s) (nucl1 s) (nucl2 s) (nucl3 s) (k s) v (k11 s)
    (k22 s) (k33 s) (xold s) (fold s) (step s).
Definition set_kaniso (s : t_shell) (v11 v22 v33 : real) : t_shell :=
  mk_shell (nnucl s) (shell s) (nucl1 s) (nucl2 s) (nucl3 s) (k s) (k_1 s) v11
    v22 v33 (xold s) (fold s) (step s).
Definition set_step (s : t_shell) (v : rvec) : t_shell :=
  mk_shell (nnucl s) (shell s) (nucl1 s) (nucl2 s) (nucl3 s) (k s) (k_1 s)
    (k11 s) (k22 s) (k33 s) (xold s) (fold s) v.
Definition set_xold_fold (s : t_shell) (x f : rvec) : t_shell :=
  mk_shell (nnucl s) (shell s) (nucl1 s) (nucl2 s) (nucl3 s) (k s) (k_1 s)
    (k11 s) (k22 s) (k33 s) x f (step s).

(** The variables of [init_shell_flexcon] that the scan of the bonded
    interactions updates. *)
Record scan_state : Type := mk_scan {
  sc_shell : list t_shell;
  sc_ns : Z;
  sc_aN : Z;
  sc_bInterCG : bool
}.

Definition is_shell_ptype (p : ptype_t) : bool := ptype_eqb p eptShell.

(** Second pass over all atoms: [shell_index[i] = nshell++] for every
    shell-typed atom, in the order of [gmx_mtop_atomloop_all_next]. *)
Definition make_shell_index (mtop : gmx_mtop_t) : outcome (list Z * Z) :=
  let* r :=
    ofold
      (fun st molb =>
         let* molt := aget (moltype mtop) (mb_type molb) in
         orepeat (Z.to_nat (mb_nmol molb))
           (ofold
              (fun '(idx, i, n) atom =>
                 if is_shell_ptype (atom_ptype atom)
                 then let* idx' := aset idx i n in Done (idx', i + 1, n + 1)
                 else Done (idx, i + 1, n))
              (mt_atoms molt))
           st)
      (molblock mtop)
      (replicate (Z.to_nat (mtop_natoms mtop)) 0, 0, 0) in
  Done (fst (fst r), snd r).

(** [at2cg]: the charge group of every atom of a molecule type. *)
Definition make_at2cg (molt : gmx_moltype_t) : outcome (list Z) :=
  let cgs := mt_cgs molt in
  ofold
    (fun at2cg cg =>
       let* lo := aget (blk_index cgs) cg in
       let* hi := aget (blk_index cgs) (cg + 1) in
       ofold (fun a i => aset a i cg) (zrange lo hi) at2cg)
    (zrange 0 (blk_nr cgs))
    (replicate (length (mt_atoms molt)) 0).

Section TopologyScan.
Context {hdr : Headers}.

Variable ffp : gmx_ffparams_t.
Variable shell_index : list Z.
Variable nshell_found : Z.

(** "Check whether we have a bond with a shell": the first [switch]. *)
Definition find_shell (bt : ftype_t) (atom : list t_atom) (ia : list Z)
    (i : Z) (aN : Z) : outcome (Z * Z) :=
  match bt with
  | F_BONDS | F_HARMONIC | F_CUBICBONDS | F_POLARIZATION | F_HYPER_POL
  | F_ANHARM_POL =>
      let* a1 := aget ia (i + 1) in
      let* at1 := aget atom a1 in
      if is_shell_ptype (atom_ptype at1)
      then let* a2 := aget ia (i + 2) in Done (a1, a2)
      else
        let* a2 := aget ia (i + 2) in
        let* at2 := aget atom a2 in
        if is_shell_ptype (atom_ptype at2) then Done (a2, a1)
        else Done (-1, aN)
  | F_WATER_POL =>
      let* a4 := aget ia (i + 4) in
      let* a5 := aget ia (i + 5) in
      Done (a5, a4)
  | F_ANISO_POL => Done (-1, aN)
  | F_OTHER _ => Fatal FatalDeathHorror
  end.

(** Attach the heavy particle to the first unused slot. *)
Definition attach_nucleus (s : t_shell) (a : Z) : outcome t_shell :=
  if nucl1 s =? -1 then Done (set_nucl1 s a)
  else if nucl2 s =? -1 then Done (set_nucl2 s a)
  else if nucl3 s =? -1 then Done (set_nucl3 s a)
  else Fatal FatalTooManyBonds.

(** The second [switch]: accumulate the force constant. *)
Definition add_force_constant (bt : ftype_t) (qS qB : real) (aS mb : Z)
    (ip : t_iparams) (s : t_shell) : outcome t_shell :=
  match bt with
  | F_BONDS | F_HARMONIC => Done (set_k s (k s + harmonic_krA ip)%Q)
  | F_CUBICBONDS => Done (set_k s (k s + cubic_kb ip)%Q)
  | F_POLARIZATION | F_HYPER_POL => Done (set_k s (k s + hyperpol_k ip)%Q)
  | F_ANHARM_POL =>
      if negb (gmx_within_tol qS qB (GMX_REAL_EPS * 10)%Q)
      then Fatal (FatalPolarizeCharge (aS + 1) (mb + 1))
      else Done (set_k s (k s + (qS * qS) * ONE_4PI_EPS0 / polarize_alpha ip)%Q)
  | F_ANISO_POL =>
      if negb (gmx_within_tol qS qB (GMX_REAL_EPS * 10)%Q)
      then Fatal (FatalPolarizeCharge (aS + 1) (mb + 1))
      else
        let s1 := set_k s (k s + harmonic_krA ip)%Q in
        Done (set_kaniso s1
                (k11 s1 + k s1 / daniso_a11 ip)%Q
                (k22 s1 + k s1 / daniso_a22 ip)%Q
                (k33 s1 + k s1 / daniso_a33 ip)%Q)
  | F_WATER_POL =>
      if negb (gmx_within_tol qS qB (GMX_REAL_EPS * 10)%Q)
      then Fatal (FatalWaterPolCharge (aS + 1) (mb + 1))
      else
        let alpha := ((wpol_al_x ip + wpol_al_y ip + wpol_al_z ip) / 3)%Q in
        Done (set_k s (k s + (qS * qS) * ONE_4PI_EPS0 / alpha)%Q)
  | F_OTHER _ => Fatal FatalDeathHorror
  end.

(** The body of [if (aS != -1) { ... }]. *)
Definition attach_shell (bt : ftype_t) (atom : list t_atom) (at2cg : list Z)
    (a_offset mb type aS aN : Z) (st : scan_state) : outcome scan_state :=
  let* atS := aget atom aS in
  let qS := atom_q atS in
  let* nsi := aget shell_index (a_offset + aS) in
  if (nsi <? 0) || (nsi >=? nshell_found)
  then Fatal (FatalNsiRange nsi nshell_found aS)
  else
    let* s0 := aget (sc_shell st) nsi in
    let* (s1, ns) :=
      if shell s0 =? -1 then Done (set_shell s0 (a_offset + aS), sc_ns st + 1)
      else if negb (shell s0 =? a_offset + aS) then Fatal FatalWeirdStuff
      else Done (s0, sc_ns st) in
    let* s2 := attach_nucleus s1 (a_offset + aN) in
    let* cgS := aget at2cg aS in
    let* cgN := aget at2cg aN in
    let inter := if negb (cgS =? cgN) then true else sc_bInterCG st in
    let* ip := aget (iparams ffp) type in
    let* s3 := add_force_constant bt qS (atom_qB atS) aS mb ip s2 in
    let s4 := set_nnucl s3 (nnucl s3 + 1) in
    let* cells := aset (sc_shell st) nsi s4 in
    Done (mk_scan cells ns aN inter).

(** One interaction entry at offset [i] of the [iatoms] array; returns
    [nra], the number of atoms of the entry, with the new state. *)
Definition scan_entry (bt : ftype_t) (atom : list t_atom) (at2cg : list Z)
    (a_offset mb : Z) (ia : list Z) (i : Z) (st : scan_state)
    : outcome (nat * scan_state) :=
  let* type := aget ia i in
  let* ftype := aget (functype ffp) type in
  let nra := nratoms ftype in
  let* (aS, aN) := find_shell bt atom ia i (sc_aN st) in
  let st1 := mk_scan (sc_shell st) (sc_ns st) aN (sc_bInterCG st) in
  let* st2 :=
    if negb (aS =? -1)
    then attach_shell bt atom at2cg a_offset mb type aS aN st1
    else Done st1 in
  Done (nra, st2).

(** [for (i = 0; i < nr; ) { ...; i += nra+1; }].  Every entry advances
    [i] by at least one, so [nr] rounds of fuel are enough. *)
Fixpoint scan_ilist (fuel : nat) (bt : ftype_t) (atom : list t_atom)
    (at2cg : list Z) (a_offset mb : Z) (il : t_ilist) (i : Z)
    (st : scan_state) : outcome scan_state :=
  if i <? il_nr il then
    match fuel with
    | O => Undefined
    | S fuel' =>
        let* (nra, st') :=
          scan_entry bt atom at2cg a_offset mb (il_iatoms il) i st in
        scan_ilist fuel' bt atom at2cg a_offset mb il
          (i + (Z.of_nat nra + 1)) st'
    end
  else Done st.

(** One molecule: the loop over [bondtypes]. *)
Definition scan_molecule (molt : gmx_moltype_t) (at2cg : list Z)
    (a_offset mb : Z) (st : scan_state) : outcome scan_state :=
  ofold
    (fun st bt =>
       let il := mt_ilist molt bt in
       scan_ilist (Z.to_nat (il_nr il)) bt (mt_atoms molt) at2cg a_offset mb
         il 0 st)
    bondtypes st.

(** One molecule block: [nmol] copies, [a_offset] advancing by the
    number of atoms of the molecule type. *)
Definition scan_molblock (molt : gmx_moltype_t) (nmol mb : Z)
    (acc : Z * scan_state) : outcome (Z * scan_state) :=
  let* at2cg := make_at2cg molt in
  orepeat (Z.to_nat nmol)
    (fun '(a_offset, st) =>
       let* st' := scan_molecule molt at2cg a_offset mb st in
       Done (a_offset + atoms_nr molt, st'))
    acc.

Definition scan_topology (mtop : gmx_mtop_t) (st : scan_state)
    : outcome scan_state :=
  let* r :=
    ofold
      (fun '(mb, acc) molb =>
         let* molt := aget (moltype mtop) (mb_type molb) in
         let* acc' := scan_molblock molt (mb_nmol molb) mb acc in
         Done (mb + 1, acc'))
      (molblock mtop) (0, (0, st)) in
  Done (snd (snd r)).

End TopologyScan.

Definition set_nflexcon (shfc : gmx_shellfc) (n : Z) : gmx_shellfc :=
  mk_shellfc (nshell_gl shfc) (shell_gl shfc) (shell_index_gl shfc)
    (bInterCG shfc) (nshell shfc) (shell_p shfc) (bPredict shfc)
    (bRequireInit shfc) n (shfc_x shfc) (shfc_f shfc) (shfc_acc_dir shfc)
    (shfc_x_old shfc) (numForceEvaluations shfc) (numConvergedIterations shfc).

(** The assignments at the end of [init_shell_flexcon]. *)
Definition finish_init (shfc : gmx_shellfc) (ir : t_inputrec)
    (env : environment) (ns : Z) (cells : list t_shell) (shell_index : list Z)
    (inter : bool) : gmx_shellfc :=
  let bPredict0 := negb (GMX_NOPREDICT env) in
  let bPredict1 :=
    if ir_bDrude ir
    then match ir_drudemode ir with edrudeLagrangian => false | _ => bPredict0 end
    else bPredict0 in
  let bRequireInit1 :=
    if negb bPredict1 then false else GMX_REQUIRE_SHELL_INIT env in
  let bPredict2 := if bPredict1 then (if inter then false else true) else false in
  mk_shellfc ns cells shell_index inter (nshell shfc) (shell_p shfc)
    bPredict2 bRequireInit1 (nflexcon shfc) (shfc_x shfc) (shfc_f shfc)
    (shfc_acc_dir shfc) (shfc_x_old shfc) (numForceEvaluations shfc)
    (numConvergedIterations shfc).

Definition init_shell_flexcon {hdr : Headers} (shfc : gmx_shellfc)
    (ir : t_inputrec) (env : environment) (mtop : gmx_mtop_t)
    (nflexcon_arg nstcalcenergy : Z) : outcome gmx_shellfc :=
  let* n := countPtypes mtop in
  let nshell0 := n eptShell in
  if (nshell0 =? 0) && (nflexcon_arg =? 0) then Done shfc
  else
    let shfc1 := set_nflexcon shfc nflexcon_arg in
    if negb (nstcalcenergy =? 1) then Fatal (FatalNstcalcenergy nstcalcenergy)
    else if nshell0 =? 0 then Done shfc1
    else
      let* (shell_index, nshell1) := make_shell_index mtop in
      let cells0 := replicate (Z.to_nat nshell1) shell_init in
      let* st :=
        scan_topology (ffparams mtop) shell_index nshell1 mtop
          (mk_scan cells0 0 0 false) in
      if negb (sc_ns st =? nshell1) then Fatal FatalShellsNotBonded
      else
        let cells1 := map (fun s => set_k_1 s (1 / k s)%Q) (sc_shell st) in
        Done (finish_init shfc1 ir env (sc_ns st) cells1 shell_index
                (sc_bInterCG st)).

(** ** Per-step data: communication record, atoms, state *)

Record gmx_domdec_t : Type := mk_domdec {
  nat_home : Z;
  gatindex : list Z;
  (** [dd_natoms_shell(dd)] *)
  dd_natoms_shell : Z;
  (** the upper end of [dd_get_constraint_range] *)
  dd_constraint_ac1 : Z
}.

(** [DOMAINDECOMP(cr)] is [cr_dd cr <> None]; [PAR(cr)] and [MASTER(cr)]
    are the two flags. *)
Record t_commrec : Type := mk_commrec {
  cr_dd : option gmx_domdec_t;
  cr_PAR : bool;
  cr_MASTER : bool
}.

Record t_mdatoms : Type := mk_mdatoms {
  md_ptype : list ptype_t;
  md_massT : list real;
  md_invmass : list real;
  md_homenr : Z
}.

Record t_state : Type := mk_state {
  st_natoms : Z;
  st_x : list rvec;
  st_v : list rvec
}.

(** ** [make_local_shells] *)

Definition set_local (shfc : gmx_shellfc) (n : Z) (p : shell_ptr) : gmx_shellfc :=
  mk_shellfc (nshell_gl shfc) (shell_gl shfc) (shell_index_gl shfc)
    (bInterCG shfc) n p (bPredict shfc) (bRequireInit shfc) (nflexcon shfc)
    (shfc_x shfc) (shfc_f shfc) (shfc_acc_dir shfc) (shfc_x_old shfc)
    (numForceEvaluations shfc) (numConvergedIterations shfc).

(** [shell[nshell] = rec] after the [srenew] that makes room for it.  The
    list holds the cells in use; the spare capacity of [over_alloc_dd] is
    not represented.  Growing the array [shfc->shell] points to while it
    is the global array would leave [shfc->shell_gl] dangling. *)
Definition store_local (p : shell_ptr) (n : Z) (rec : t_shell) : outcome shell_ptr :=
  match p with
  | PtrGlobal => Undefined
  | PtrLocal cells =>
      if n <? Z.of_nat (length cells)
      then let* cells' := aset cells n rec in Done (PtrLocal cells')
      else if n =? Z.of_nat (length cells) then Done (PtrLocal (cells ++ [rec]))
      else Undefined
  end.

(** The index translation applied to the copy of a global record for the
    home atom [i]. *)
Definition localize_shell (rec : t_shell) (i : Z) : t_shell :=
  let r1 := set_nucl1 rec (i + nucl1 rec - shell rec) in
  let r2 := if 1 <? nnucl r1 then set_nucl2 r1 (i + nucl2 r1 - shell r1) else r1 in
  let r3 := if 2 <? nnucl r2 then set_nucl3 r2 (i + nucl3 r2 - shell r2) else r2 in
  set_shell r3 i.

Definition make_local_shells (cr : t_commrec) (md : t_mdatoms)
    (shfc : gmx_shellfc) : outcome gmx_shellfc :=
  match cr_dd cr with
  | None =>
      (* Single node: we need all shells, just copy the pointer *)
      Done (set_local shfc (nshell_gl shfc) PtrGlobal)
  | Some dd =>
      let ind := shell_index_gl shfc in
      let* r :=
        ofold
          (fun '(p, n) i =>
             let* pt := aget (md_ptype md) i in
             if is_shell_ptype pt then
               let* g := aget (gatindex dd) i in
               let* gi := aget ind g in
               let* rec := aget (shell_gl shfc) gi in
               let* p' := store_local p n (localize_shell rec i) in
               Done (p', n + 1)
             else Done (p, n))
          (zrange 0 (nat_home dd)) (shell_p shfc, 0) in
      Done (set_local shfc (snd r) (fst r))
  end.

(** ** [predict_shells] *)

Definition rvec_of (g : dim -> real) : rvec := mk_rvec (g dXX) (g dYY) (g dZZ).

(** The mass of atom [n]: from [mass] when it is given, else from the
    topology lookup ([gmx_mtop_atomnr_to_atom]), whose answers are the
    list [mtop_m]. *)
Definition nucleus_mass (mass : option (list real)) (mtop_m : list real) (n : Z)
    : outcome real :=
  match mass with
  | Some m => aget m n
  | None => aget mtop_m n
  end.

(** The body of the loop over the shells, for shell record [si] at
    index [i] of the table.  [tm] is an exact quotient; where the masses
    of the nuclei sum to zero the code divides by zero and goes on with
    an infinity, which is outside the model: the properties about the
    position that is written assume a sum that is not zero. *)
Definition predict_shell_1 (v : list rvec) (dt_1 : real)
    (mass : option (list real)) (mtop_m : list real) (bInit : bool)
    (i : Z) (si : t_shell) (x : list rvec) : outcome (list rvec) :=
  let s1 := shell si in
  let* x := if bInit then aset x s1 (clear_rvec rvec_zero) else Done x in
  let ptr := if bInit then x else v in
  match nnucl si with
  | 1 =>
      let* p1 := aget ptr (nucl1 si) in
      let* xs := aget x s1 in
      aset x s1 (rvec_of (fun m => rcomp xs m + rcomp p1 m * dt_1)%Q)
  | 2 =>
      let* m1 := nucleus_mass mass mtop_m (nucl1 si) in
      let* m2 := nucleus_mass mass mtop_m (nucl2 si) in
      let tm := (dt_1 / (m1 + m2))%Q in
      let* p1 := aget ptr (nucl1 si) in
      let* p2 := aget ptr (nucl2 si) in
      let* xs := aget x s1 in
      aset x s1
        (rvec_of (fun m =>
           rcomp xs m + (m1 * rcomp p1 m + m2 * rcomp p2 m) * tm)%Q)
  | 3 =>
      let* m1 := nucleus_mass mass mtop_m (nucl1 si) in
      let* m2 := nucleus_mass mass mtop_m (nucl2 si) in
      let* m3 := nucleus_mass mass mtop_m (nucl3 si) in
      let tm := (dt_1 / (m1 + m2 + m3))%Q in
      let* p1 := aget ptr (nucl1 si) in
      let* p2 := aget ptr (nucl2 si) in
      let* p3 := aget ptr (nucl3 si) in
      let* xs := aget x s1 in
      aset x s1
        (rvec_of (fun m =>
           rcomp xs m
           + (m1 * rcomp p1 m + m2 * rcomp p2 m + m3 * rcomp p3 m) * tm)%Q)
  | _ => Fatal (FatalShellNuclei i (nnucl si))
  end.

(** The time the nuclear positions or velocities are multiplied with:
    [dt_1 = 1] at initialisation, [dt_1 = fudge*dt] with [fudge = 1.0]
    otherwise. *)
Definition fudge : real := 1.

Definition predict_dt_1 (dt : real) (bInit : bool) : real :=
  if bInit then 1%Q else (fudge * dt)%Q.

Definition predict_shells (x v : list rvec) (dt : real) (ns : Z)
    (s : list t_shell) (mass : option (list real)) (mtop_m : list real)
    (bInit : bool) : outcome (list rvec) :=
  let dt_1 := predict_dt_1 dt bInit in
  ofold
    (fun x i =>
       let* si := aget s i in
       predict_shell_1 v dt_1 mass mtop_m bInit i si x)
    (zrange 0 ns) x.

(** ** Steepest descent: [do_1pos], [do_1pos3], [directional_sd],
       [shell_pos_sd], [decrease_step_size] *)

Definition do_1pos (xold_ f : rvec) (step_ : real) : rvec :=
  mk_rvec (XX xold_ + XX f * step_)%Q (YY xold_ + YY f * step_)%Q
    (ZZ xold_ + ZZ f * step_)%Q.

Definition do_1pos3 (xold_ f step_ : rvec) : rvec :=
  mk_rvec (XX xold_ + XX f * XX step_)%Q (YY xold_ + YY f * YY step_)%Q
    (ZZ xold_ + ZZ f * ZZ step_)%Q.

Definition directional_sd (xold_ xnew acc_dir : list rvec) (start homenr : Z)
    (step_ : real) : outcome (list rvec) :=
  ofold
    (fun xnew i =>
       let* xo := aget xold_ i in
       let* a := aget acc_dir i in
       aset xnew i (do_1pos xo a step_))
    (zrange start homenr) xnew.

Definition step_scale_min : real := 8 # 10.
Definition step_scale_increment : real := 2 # 10.
Definition step_scale_max : real := 12 # 10.
Definition step_scale_multiple : real :=
  (step_scale_max - step_scale_min) / step_scale_increment.

(** The update of [s[i].step[d]] on an iteration with [count != 1], from
    the old step and the differences [dx], [df]. *)
Definition adapt_step {hdr : Headers} (step_d dx df : real) : real :=
  if negb (Qeq_bool 0 df) then
    let k_est := (- dx / df)%Q in
    (step_scale_min * step_d
     + step_scale_increment
       * std_min (step_scale_multiple * step_d) (std_max k_est 0))%Q
  else if gmx_numzero dx then step_d
  else (step_d * step_scale_max)%Q.

(** The body of the loop over the shells. *)
Definition shell_pos_sd_1 {hdr : Headers} (xcur f : list rvec) (count : Z)
    (si : t_shell) : outcome (t_shell * rvec) :=
  let sh := shell si in
  let* xc := aget xcur sh in
  let* fc := aget f sh in
  let step' :=
    if count =? 1
    then rvec_of (fun _ => k_1 si)
    else rvec_of (fun d =>
           adapt_step (rcomp (step si) d)
             (rcomp xc d - rcomp (xold si) d)%Q
             (rcomp fc d - rcomp (fold si) d)%Q) in
  let si' := set_xold_fold (set_step si step') (copy_rvec xc) (copy_rvec fc) in
  Done (si', do_1pos3 xc fc (step si')).

Definition shell_pos_sd {hdr : Headers} (xcur xnew f : list rvec) (ns : Z)
    (s : list t_shell) (count : Z) : outcome (list rvec * list t_shell) :=
  ofold
    (fun '(xnew, s) i =>
       let* si := aget s i in
       let* (si', xn) := shell_pos_sd_1 xcur f count si in
       let* s' := aset s i si' in
       let* xnew' := aset xnew (shell si) xn in
       Done (xnew', s'))
    (zrange 0 ns) (xnew, s).

Definition decrease_step_size (nshell_ : Z) (s : list t_shell)
    : outcome (list t_shell) :=
  ofold
    (fun s i =>
       let* si := aget s i in
       aset s i (set_step si (svmul (8 # 10) (step si))))
    (zrange 0 nshell_) s.

(** ** Collaborators of the engine

    The force evaluator, the constraint solver, the virtual-site
    construction, the periodic-boundary helpers and the global sum are
    implemented elsewhere; the engine only calls them. *)

Class Collaborators : Type := {
  (** [pbc_dx(pbc, x1, x2, dx)]: the displacement from [x2] to [x1]. *)
  pbc_dx : rvec -> rvec -> rvec;
  (** [do_force]: from the neighbour-search flag and the positions to
      the forces and the potential energy [enerd->term[F_EPOT]]. *)
  do_force : bool -> list rvec -> list rvec * real;
  (** [construct_vsites(vsite, x, dt, v, ...)]: the callee gets both
      arrays through pointers, so it returns the positions and the
      velocities it leaves behind. *)
  construct_vsites : list rvec -> real -> list rvec -> list rvec * list rvec;
  (** [constrain(..., x, xprime, NULL, ..., econqCoord)] *)
  constrain_coord : list rvec -> list rvec -> list rvec;
  (** [constrain(..., x, xprime, min_proj, ..., econqDeriv_FlexCon)] *)
  constrain_flexcon : list rvec -> list rvec -> list rvec -> list rvec;
  (** [put_atoms_in_box_omp] / [put_charge_groups_in_box], by cut-off scheme *)
  put_in_box : bool -> list rvec -> list rvec;
  shift_self : list rvec -> list rvec;
  unshift_self : list rvec -> list rvec;
  (** [gmx_sumd(n, buf, cr)]: the sums of the entries of [buf] over all
      ranks *)
  gmx_sumd : list real -> list real;
  (** [ddglatnr(dd, i)]: the global number, counted from 1, of local
      atom [i] *)
  ddglatnr : gmx_domdec_t -> Z -> Z
}.

(** [DOMAINDECOMP(cr) ? ddglatnr(cr->dd, i) : (i+1)]: the number that
    messages give to local atom [i]. *)
Definition atom_number {col : Collaborators} (cr : t_commrec) (i : Z) : Z :=
  match cr_dd cr with
  | Some dd => ddglatnr dd i
  | None => i + 1
  end.

(** ** [rms_force] *)

(** [(int) a] for a real [a]: truncation towards zero. *)
Definition real_to_int (a : real) : Z := Z.quot (Qnum a) (Zpos (Qden a)).

Definition rms_force {hdr : Headers} {col : Collaborators} (cr : t_commrec)
    (f : list rvec) (ns : Z) (s : list t_shell) (ndir : Z)
    (sf_dir Epot : real) : outcome (real * real * real) :=
  let* buf0 :=
    ofold
      (fun b i =>
         let* si := aget s i in
         let* fs := aget f (shell si) in
         Done (b + norm2 fs)%Q)
      (zrange 0 ns) sf_dir in
  let ntot := ns in
  let* (buf0', ntot', sf_dir', Epot') :=
    if cr_PAR cr then
      match gmx_sumd [buf0; inject_Z ntot; sf_dir; Epot] with
      | [b0; b1; b2; b3] => Done (b0, real_to_int (b1 + (1 # 2))%Q, b2, b3)
      | _ => Undefined
      end
    else Done (buf0, ntot, sf_dir, Epot) in
  let ntot'' := ntot' + ndir in
  Done (if negb (ntot'' =? 0) then real_sqrt (buf0' / inject_Z ntot'')%Q else 0%Q,
        sf_dir', Epot').

(** ** [apply_drude_hardwall] *)

Record tensor : Type := mk_tensor { tXX : rvec; tYY : rvec; tZZ : rvec }.

(** [force_vir[m][n] += x[m]*df[n]] for all [m], [n]. *)
Definition vir_add_outer (vir : tensor) (x df : rvec) : tensor :=
  mk_tensor (rvec_add (tXX vir) (svmul (XX x) df))
    (rvec_add (tYY vir) (svmul (YY x) df))
    (rvec_add (tZZ vir) (svmul (ZZ x) df)).

(** The values of [j] in [for (j = 0; j < nr; j += stride)]. *)
Definition stride_range (nr stride : Z) : list Z :=
  map (fun n => Z.of_nat n * stride)
    (seq 0 (Z.to_nat ((nr + stride - 1) / stride))).

(** "find Drudes and connected heavy atoms": [Some (ia, ib)] with [ia] the
    heavy atom and [ib] the Drude, or [None] for a normal bond. *)
Definition find_drude (md : t_mdatoms) (a1 a2 : Z) : outcome (option (Z * Z)) :=
  let* p1 := aget (md_ptype md) a1 in
  let* p2 := aget (md_ptype md) a2 in
  if ptype_eqb p1 eptShell && ptype_eqb p2 eptAtom then Done (Some (a2, a1))
  else if ptype_eqb p1 eptAtom && ptype_eqb p2 eptShell then Done (Some (a1, a2))
  else Done None.

(** What the correction computes for one violating bond: new positions
    and velocities of both particles and the time [dt] it used. *)
Record hardwall_fix : Type := mk_fix {
  fix_xa : rvec; fix_xb : rvec;
  fix_va : rvec; fix_vb : rvec;
  fix_dt : real
}.

(** The body of [if (rab2 > rwall2) { ... }] after the sanity check, up
    to "copy new positions back". *)
Definition hardwall_correct {hdr : Headers} (ir : t_inputrec) (ma mb : real)
    (xa xb va vb vecab0 : rvec) (rab : real) : hardwall_fix :=
  let kbt := (BOLTZ * ir_drude_t ir)%Q in
  let max_t := (2 * ir_delta_t ir)%Q in
  let rwall := ir_drude_r ir in
  (* scale distance between drude and heavy atom *)
  let vecab := svmul (1 / rab)%Q vecab0 in
  let mtot := (ma + mb)%Q in
  (* scale velocity of heavy atom *)
  let dprod_vr1 := iprod va vecab in
  let vb1 := svmul dprod_vr1 vecab in
  let vp1 := rvec_sub va vb1 in
  (* scale velocity of drude *)
  let dprod_vr2 := iprod vb vecab in
  let vb2 := svmul dprod_vr2 vecab in
  let vp2 := rvec_sub vb vb2 in
  (* scale velocity of COM *)
  let vbcom := ((ma * dprod_vr1 + mb * dprod_vr2) / mtot)%Q in
  let dprod_vr1 := (dprod_vr1 - vbcom)%Q in
  let dprod_vr2 := (dprod_vr2 - vbcom)%Q in
  let dr := (rab - rwall)%Q in
  let dt :=
    if Qeq_bool dprod_vr1 dprod_vr2 then max_t
    else
      let dt := (dr / fabs (dprod_vr1 - dprod_vr2))%Q in
      if Qltb max_t dt then max_t else dt in
  (* relative velocity between ia and ib *)
  let vbond := real_sqrt (kbt / mb)%Q in
  (* reflect the velocity along the bond vector, scale down *)
  let tmp_dprod_vr1 :=
    ((-1 * dprod_vr1 * vbond * mb) / (fabs dprod_vr1 * mtot))%Q in
  let tmp_dprod_vr2 :=
    ((-1 * dprod_vr2 * vbond * ma) / (fabs dprod_vr2 * mtot))%Q in
  let dr_a := ((dr * mb) / mtot + dt * tmp_dprod_vr1)%Q in
  let dr_b := ((-1 * dr * ma) / mtot + dt * tmp_dprod_vr2)%Q in
  (* correct the positions *)
  let xa := rvec_inc xa (svmul dr_a vecab) in
  let xb := rvec_inc xb (svmul dr_b vecab) in
  (* correct the velocities *)
  let tmp_dprod_vr1 := (tmp_dprod_vr1 + vbcom)%Q in
  let tmp_dprod_vr2 := (tmp_dprod_vr2 + vbcom)%Q in
  let vb1 := svmul tmp_dprod_vr1 vecab in
  let vb2 := svmul tmp_dprod_vr2 vecab in
  let va := rvec_inc va vb1 in
  let vb := rvec_inc vb vb2 in
  mk_fix xa xb va vb dt.

(** One entry of the interaction list, at offset [j]. *)
Definition hardwall_entry {hdr : Headers} {col : Collaborators}
    (cr : t_commrec) (ir : t_inputrec) (md : t_mdatoms) (iatoms : list Z)
    (j : Z) (acc : t_state * tensor) : outcome (t_state * tensor) :=
  let '(state, force_vir) := acc in
  let rwall := ir_drude_r ir in
  let rwall2 := (rwall * rwall)%Q in
  let* a1 := aget iatoms (j + 1) in
  let* a2 := aget iatoms (j + 2) in
  let* found := find_drude md a1 a2 in
  match found with
  | None => Done acc
  | Some (ia, ib) =>
      (* copy current positions and velocities for manipulation *)
      let* xa := aget (st_x state) ia in
      let* xb := aget (st_x state) ib in
      let* va := aget (st_v state) ia in
      let* vb := aget (st_v state) ib in
      (* save original velocities for later use *)
      let vinita := va in
      let vinitb := vb in
      (* get vector between atom b (Drude) and a (heavy atom) *)
      let vecab := pbc_dx xb xa in
      let rab2 := norm2 vecab in
      (* impose hardwall if the Drude has strayed too far *)
      if Qltb rwall2 rab2 then
        let rab := real_sqrt rab2 in
        (* Make sure nothing catastrophic is going on *)
        if Qltb (2 * rwall)%Q rab
        then Fatal (FatalDrudeTooFar (atom_number cr ib) (atom_number cr ia))
        else
          let* ma := aget (md_massT md) ia in
          let* mb := aget (md_massT md) ib in
          let fx := hardwall_correct ir ma mb xa xb va vb vecab rab in
          (* copy new positions back *)
          let* x1 := aset (st_x state) ia (fix_xa fx) in
          let* x2 := aset x1 ib (fix_xa fx) in
          (* copy new velocities back *)
          let vnewa := fix_va fx in
          let vnewb := fix_vb fx in
          let* v1 := aset (st_v state) ia (fix_va fx) in
          let* v2 := aset v1 ib (fix_vb fx) in
          let state' := mk_state (st_natoms state) x2 v2 in
          (* Update virial for corrections made to heavy atom *)
          let dva := rvec_sub vnewa vinita in
          let fac := (ma * (1 / (fix_dt fx * (1 # 2))))%Q in
          let dfa := svmul fac dva in
          let* xia := aget x2 ia in
          let vir1 := vir_add_outer force_vir xia dfa in
          (* Update virial for corrections made to Drude *)
          let dvb := rvec_sub vnewb vinitb in
          let fac := (mb * (1 / (fix_dt fx * (1 # 2))))%Q in
          let dfb := svmul fac dvb in
          let* xib := aget x2 ib in
          let vir2 := vir_add_outer vir1 xib dfb in
          Done (state', vir2)
      else Done acc
  end.

(** [flocal]: the local interactions subject to the hard wall. *)
Definition flocal : list ftype_t := [F_BONDS; F_POLARIZATION].

Definition apply_drude_hardwall {hdr : Headers} {col : Collaborators}
    (cr : t_commrec) (il : ftype_t -> t_ilist) (ir : t_inputrec)
    (md : t_mdatoms) (state : t_state) (force_vir : tensor)
    : outcome (t_state * tensor) :=
  ofold
    (fun acc ft =>
       let nral := Z.of_nat (nratoms ft) in
       let ilist := il ft in
       ofold (fun acc j => hardwall_entry cr ir md (il_iatoms ilist) j acc)
         (stride_range (il_nr ilist) (1 + nral)) acc)
    flocal (state, force_vir).

(** ** [init_adir] *)

Definition init_adir {col : Collaborators} (ir : t_inputrec) (md : t_mdatoms)
    (start end_ : Z) (x_old x_init x f acc_dir : list rvec)
    : outcome (list rvec) :=
  let dt := ir_delta_t ir in
  (* Does NOT work with freeze or acceleration groups (yet) *)
  let* (xnold, xnew) :=
    ofold
      (fun '(xnold, xnew) n =>
         let* im := aget (md_invmass md) n in
         let w_dt := (im * dt)%Q in
         let* pt := aget (md_ptype md) n in
         let* xn := aget x n in
         if negb (ptype_eqb pt eptVSite) && negb (ptype_eqb pt eptShell) then
           let* xi := aget x_init n in
           let* xo := aget x_old n in
           let* fn := aget f n in
           Done (xnold ++ [rvec_of (fun d =>
                             rcomp xn d - (rcomp xi d - rcomp xo d))%Q],
                 xnew ++ [rvec_of (fun d =>
                            2 * rcomp xn d - rcomp xo d
                            + rcomp fn d * w_dt * dt)%Q])
         else Done (xnold ++ [xn], xnew ++ [xn]))
      (zrange start end_) ([], []) in
  let xnold := constrain_coord x xnold in
  let xnew := constrain_coord x xnew in
  let* (xnew, acc_dir) :=
    ofold
      (fun '(xnew, acc_dir) n =>
         let* xn := aget x n in
         let* xno := aget xnold (n - start) in
         let* xnn := aget xnew (n - start) in
         let* fn := aget f n in
         let* im := aget (md_invmass md) n in
         let* xnew' :=
           aset xnew (n - start)
             (rvec_of (fun d =>
                - (2 * rcomp xn d - rcomp xno d - rcomp xnn d) / (dt * dt)
                - rcomp fn d * im)%Q) in
         let* acc_dir' := aset acc_dir n (clear_rvec rvec_zero) in
         Done (xnew', acc_dir'))
      (zrange start end_) (xnew, acc_dir) in
  (* Project the acceleration on the old bond directions *)
  Done (constrain_flexcon x_old xnew acc_dir).

(** ** [relax_shell_flexcon] *)

(** The index [Min] of the accepted buffer; [Try] is the other one. *)
Inductive slot : Type := Slot0 | Slot1.

Definition Try (Min : slot) : slot :=
  match Min with Slot0 => Slot1 | Slot1 => Slot0 end.

Definition sel {A : Type} (i : slot) (p : A * A) : A :=
  match i with Slot0 => fst p | Slot1 => snd p end.

Definition upd {A : Type} (i : slot) (p : A * A) (a : A) : A * A :=
  match i with Slot0 => (a, snd p) | Slot1 => (fst p, a) end.

(** What the properties observe of a step: every call of [do_force], the
    value every call of [rms_force] returns, the lines of [print_epot],
    and the non-convergence message on the log file and on stderr. *)
Inductive event : Type :=
| EvDoForce
| EvRmsForce (df : real)
| EvPrintEpot (mdstep count : Z) (epot df : real)
| EvNoConvergeLog (mdstep number_steps : Z) (df : real)
| EvNoConvergeStderr (mdstep number_steps : Z) (df : real).

Definition is_do_force (e : event) : bool :=
  match e with EvDoForce => true | _ => false end.

Definition count_do_force (evs : list event) : Z :=
  Z.of_nat (length (List.filter is_do_force evs)).

(** The RMS forces computed in a step, in the order of computation. *)
Fixpoint rms_forces (evs : list event) : list real :=
  match evs with
  | [] => []
  | EvRmsForce df :: evs' => df :: rms_forces evs'
  | _ :: evs' => rms_forces evs'
  end.

(** [memcpy(dst, src, n*sizeof(rvec))] *)
Definition memcpy (dst src : list rvec) (n : Z) : outcome (list rvec) :=
  if (n <=? Z.of_nat (length dst)) && (n <=? Z.of_nat (length src))
  then Done (take (Z.to_nat n) src ++ drop (Z.to_nat n) dst)
  else Undefined.

(** [srenew] to at least [n] cells; the new cells hold no defined value
    and are never read before they are written. *)
Definition grow (l : list rvec) (n : Z) : list rvec :=
  l ++ replicate (Z.to_nat n - length l) rvec_zero.

Definition set_buffers (shfc : gmx_shellfc) (x f : list rvec * list rvec)
    (acc_dir x_old : list rvec) : gmx_shellfc :=
  mk_shellfc (nshell_gl shfc) (shell_gl shfc) (shell_index_gl shfc)
    (bInterCG shfc) (nshell shfc) (shell_p shfc) (bPredict shfc)
    (bRequireInit shfc) (nflexcon shfc) x f acc_dir x_old
    (numForceEvaluations shfc) (numConvergedIterations shfc).

Definition set_counters (shfc : gmx_shellfc) (nfe nci : Z) : gmx_shellfc :=
  mk_shellfc (nshell_gl shfc) (shell_gl shfc) (shell_index_gl shfc)
    (bInterCG shfc) (nshell shfc) (shell_p shfc) (bPredict shfc)
    (bRequireInit shfc) (nflexcon shfc) (shfc_x shfc) (shfc_f shfc)
    (shfc_acc_dir shfc) (shfc_x_old shfc) nfe nci.

(** [sf_dir += md->massT[i]*norm2(acc_dir[i-start])] for [i] in
    [start .. end-1]. *)
Definition sum_sf_dir (md : t_mdatoms) (acc_dir : list rvec) (start end_ : Z)
    : outcome real :=
  ofold
    (fun sf i =>
       let* m := aget (md_massT md) i in
       let* a := aget acc_dir (i - start) in
       Done (sf + m * norm2 a)%Q)
    (zrange start end_) 0%Q.

(** The local variables of [relax_shell_flexcon] that live across the
    minimisation loop, with the engine and the velocities it writes. *)
Record loop_state : Type := mk_loop {
  ls_shfc : gmx_shellfc;
  ls_v : list rvec;
  ls_Min : slot;
  ls_Epot : real * real;
  ls_df : real * real;
  ls_sf_dir : real;
  ls_bConverged : bool;
  ls_count : Z;
  ls_events : list event
}.

Section Relax.
Context {hdr : Headers} {col : Collaborators}.

Variable cr : t_commrec.
Variable bVerbose : bool.
Variable mdstep : Z.
Variable inputrec : t_inputrec.
Variable md : t_mdatoms.
Variable graph : bool.
Variable vsite : bool.
Variable fc_stepsize : real.
(** [state->x] as it is when the loop runs *)
Variable state_x : list rvec.

Let start : Z := 0.
Let end_ : Z := start + md_homenr md.
Let ftol : real := ir_em_tol inputrec.
Let number_steps : Z := ir_niter inputrec.

(** [sf_dir] of one force evaluation: zero, or with flexible
    constraints the mass-weighted norm of the projected acceleration. *)
Definition directional_force (shfc : gmx_shellfc) (x f : list rvec)
    : outcome (real * gmx_shellfc) :=
  if negb (nflexcon shfc =? 0) then
    let* acc_dir :=
      init_adir inputrec md start end_ (shfc_x_old shfc) state_x x f
        (shfc_acc_dir shfc) in
    let* sf := sum_sf_dir md acc_dir start end_ in
    Done (sf, set_buffers shfc (shfc_x shfc) (shfc_f shfc) acc_dir
                (shfc_x_old shfc))
  else Done (0%Q, shfc).

(** The body of the [for] loop. *)
Definition relax_iteration (ls : loop_state) : outcome loop_state :=
  let Min := ls_Min ls in
  let shfc := ls_shfc ls in
  let count := ls_count ls in
  let nshell_ := nshell shfc in
  let pos := shfc_x shfc in
  let force := shfc_f shfc in
  let xv :=
    if vsite
    then construct_vsites (sel Min pos) (ir_delta_t inputrec) (ls_v ls)
    else (sel Min pos, ls_v ls) in
  let pos := if vsite then upd Min pos (fst xv) else pos in
  let v := snd xv in
  let* (pos, acc_dir) :=
    if negb (nflexcon shfc =? 0) then
      let* acc_dir :=
        init_adir inputrec md start end_ (shfc_x_old shfc) state_x
          (sel Min pos) (sel Min force) (shfc_acc_dir shfc) in
      let* xtry :=
        directional_sd (sel Min pos) (sel (Try Min) pos) acc_dir start end_
          fc_stepsize in
      Done (upd (Try Min) pos xtry, acc_dir)
    else Done (pos, shfc_acc_dir shfc) in
  (* New positions, Steepest descent *)
  let* (xtry, cells) :=
    shell_pos_sd (sel Min pos) (sel (Try Min) pos) (sel Min force) nshell_
      (shell_cells shfc) count in
  let shfc := store_shell_cells shfc cells in
  let pos := upd (Try Min) pos xtry in
  let pos :=
    if graph then upd (Try Min) pos (unshift_self (sel (Try Min) pos))
    else pos in
  (* Try the new positions *)
  let (ftry, epot) := do_force false (sel (Try Min) pos) in
  let force := upd (Try Min) force ftry in
  let shfc := set_buffers shfc pos force acc_dir (shfc_x_old shfc) in
  let* (sf_dir, shfc) :=
    directional_force shfc (sel (Try Min) pos) (sel (Try Min) force) in
  let* (dftry, sf_dir, epot) :=
    rms_force cr (sel (Try Min) force) nshell_
      (shell_cells shfc) (nflexcon shfc) sf_dir epot in
  let Epot := upd (Try Min) (ls_Epot ls) epot in
  let df := upd (Try Min) (ls_df ls) dftry in
  let events :=
    ls_events ls ++ [EvDoForce; EvRmsForce dftry]
    ++ (if bVerbose && cr_MASTER cr
        then [EvPrintEpot mdstep count (sel (Try Min) Epot) (sel (Try Min) df)]
        else []) in
  let bConverged := Qltb (sel (Try Min) df) ftol in
  if Qltb (sel (Try Min) df) (sel Min df) then
    let* v :=
      if negb (nflexcon shfc =? 0) then
        (* Correct the velocities for the flexible constraints *)
        let invdt := (1 / ir_delta_t inputrec)%Q in
        ofold
          (fun v i =>
             let* vi := aget v i in
             let* pt := aget (sel (Try Min) pos) i in
             let* pm := aget (sel Min pos) i in
             aset v i
               (rvec_of (fun d =>
                  rcomp vi d + (rcomp pt d - rcomp pm d) * invdt)%Q))
          (zrange start end_) v
      else Done v in
    Done (mk_loop shfc v (Try Min) Epot df sf_dir bConverged (count + 1)
            events)
  else
    let* cells := decrease_step_size nshell_ (shell_cells shfc) in
    Done (mk_loop (store_shell_cells shfc cells) v Min Epot df sf_dir
            bConverged (count + 1) events).

(** [for (count = 1; !bConverged && count < number_steps; count++)],
    entered with [count = 1].  The counter grows by one per round, so
    [number_steps] rounds of fuel are never used up. *)
Fixpoint relax_loop (fuel : nat) (ls : loop_state) : outcome loop_state :=
  if negb (ls_bConverged ls) && (ls_count ls <? number_steps) then
    match fuel with
    | O => Undefined
    | S fuel' =>
        let* ls' := relax_iteration ls in
        relax_loop fuel' ls'
    end
  else Done ls.

End Relax.

(** What a call of [relax_shell_flexcon] leaves behind: the engine, the
    state, the forces [f], and for the properties the final values of
    the locals [count], [bConverged], [df[Min]] and the events. *)
Record relax_result : Type := mk_result {
  rr_shfc : gmx_shellfc;
  rr_state : t_state;
  rr_f : list rvec;
  rr_count : Z;
  rr_bConverged : bool;
  rr_df_Min : real;
  rr_events : list event
}.

(** The part of [relax_shell_flexcon] after the loop. *)
Definition relax_finish (fplog : bool) (cr : t_commrec) (mdstep : Z)
    (inputrec : t_inputrec) (nat_ : Z) (state : t_state) (f : list rvec)
    (ls : loop_state) : outcome relax_result :=
  let shfc := ls_shfc ls in
  let number_steps := ir_niter inputrec in
  let shfc :=
    set_counters shfc (numForceEvaluations shfc + ls_count ls)
      (if ls_bConverged ls then numConvergedIterations shfc + 1
       else numConvergedIterations shfc) in
  let df_Min := sel (ls_Min ls) (ls_df ls) in
  let events :=
    ls_events ls
    ++ (if cr_MASTER cr && negb (ls_bConverged ls) then
          (* Note that the energies and virial are incorrect when not converged *)
          (if fplog then [EvNoConvergeLog mdstep number_steps df_Min] else [])
          ++ [EvNoConvergeStderr mdstep number_steps df_Min]
        else []) in
  (* Copy back the coordinates and the forces *)
  let* x := memcpy (st_x state) (sel (ls_Min ls) (shfc_x shfc)) nat_ in
  let* f' := memcpy f (sel (ls_Min ls) (shfc_f shfc)) nat_ in
  Done (mk_result shfc (mk_state (st_natoms state) x (ls_v ls)) f'
          (ls_count ls) (ls_bConverged ls) df_Min events).

(** The part of [relax_shell_flexcon] before the loop: the number of
    local atoms [nat], the positions [state->x] as the first force
    evaluation saw them, and the locals at the [for] statement, after its
    initialisation [count = 1]. *)
Definition relax_prepare {hdr : Headers} {col : Collaborators}
    (cr : t_commrec) (bVerbose : bool) (mdstep : Z)
    (inputrec : t_inputrec) (bDoNS : bool) (state : t_state)
    (md : t_mdatoms) (graph : bool) (shfc : gmx_shellfc)
    : outcome (Z * list rvec * loop_state) :=
  let Min := Slot0 in
  let count := 0 in
  let start := 0 in
  let homenr := md_homenr md in
  let end_ := start + homenr in
  let bCont := (mdstep =? ir_init_step inputrec) && ir_bContinuation inputrec in
  let bInit := (mdstep =? ir_init_step inputrec) || bRequireInit shfc in
  let ftol := ir_em_tol inputrec in
  let number_steps := ir_niter inputrec in
  let nshell_ := nshell shfc in
  let nflexcon_ := nflexcon shfc in
  let nat_ :=
    match cr_dd cr with
    | Some dd =>
        if 0 <? nflexcon_
        then Z.max (dd_natoms_shell dd) (dd_constraint_ac1 dd)
        else dd_natoms_shell dd
    | None => st_natoms state
    end in
  (* Allocate local arrays *)
  let pos := (grow (fst (shfc_x shfc)) nat_, grow (snd (shfc_x shfc)) nat_) in
  let force := (grow (fst (shfc_f shfc)) nat_, grow (snd (shfc_f shfc)) nat_) in
  let x := st_x state in
  let x :=
    if bDoNS && negb (ir_ePBC_none inputrec)
       && (match cr_dd cr with None => true | Some _ => false end)
    then put_in_box (ir_cutoff_verlet inputrec) x
    else x in
  (* After this all coordinate arrays will contain whole charge groups *)
  let x := if graph then shift_self x else x in
  let* (acc_dir, x_old) :=
    if negb (nflexcon_ =? 0) then
      let acc_dir := grow (shfc_acc_dir shfc) nat_ in
      let* x_old :=
        ofold
          (fun x_old i =>
             let* xi := aget x (start + i) in
             let* vi := aget (st_v state) (start + i) in
             aset x_old i
               (rvec_of (fun d =>
                  rcomp xi d - rcomp vi d * ir_delta_t inputrec)%Q))
          (zrange 0 homenr) (grow (shfc_x_old shfc) nat_) in
      Done (acc_dir, x_old)
    else Done (shfc_acc_dir shfc, shfc_x_old shfc) in
  (* Do a prediction of the shell positions *)
  let* x :=
    if bPredict shfc && negb bCont
    then predict_shells x (st_v state) (ir_delta_t inputrec) nshell_
           (shell_cells shfc) (Some (md_massT md)) [] bInit
    else Done x in
  (* do_force expected the charge groups to be in the box *)
  let x := if graph then unshift_self x else x in
  (* Calculate the forces first time around *)
  let (f0, epot) := do_force bDoNS x in
  let force := upd Min force f0 in
  match ir_drudemode inputrec, ir_eI_is_EM inputrec with
  | edrudeSCF, _ | _, true =>
      let shfc := set_buffers shfc pos force acc_dir x_old in
      let* (sf_dir, shfc) :=
        directional_force inputrec md x shfc x (sel Min force) in
      let* (df_min, sf_dir, epot) :=
        rms_force cr (sel Min (shfc_f shfc)) nshell_ (shell_cells shfc)
          nflexcon_ sf_dir epot in
      let Epot := upd Min (0%Q, 0%Q) epot in
      let df := upd (Try Min) (upd Min (0%Q, 0%Q) df_min) 0%Q in
      let* pos :=
        if 0 <? nshell_ + nflexcon_ then
          let* p0 := memcpy (sel Min (shfc_x shfc)) x nat_ in
          let* p1 := memcpy (sel (Try Min) (shfc_x shfc)) x nat_ in
          Done (upd (Try Min) (upd Min (shfc_x shfc) p0) p1)
        else Done (shfc_x shfc) in
      let shfc :=
        set_buffers shfc pos (shfc_f shfc) (shfc_acc_dir shfc)
          (shfc_x_old shfc) in
      let events :=
        [EvDoForce; EvRmsForce df_min]
        ++ (if bVerbose && cr_MASTER cr
            then [EvPrintEpot mdstep count (sel Min Epot) (sel Min df)]
            else []) in
      (* First check whether we should do shells, or whether the force is
         low enough even without minimization. *)
      let bConverged := Qltb (sel Min df) ftol in
      Done (nat_, x,
            mk_loop shfc (st_v state) Min Epot df sf_dir bConverged 1 events)
  | _, _ =>
      (* something has gone horribly wrong *)
      Fatal FatalUnknownDrudeMode
  end.

Definition relax_shell_flexcon {hdr : Headers} {col : Collaborators}
    (fplog : bool) (cr : t_commrec) (bVerbose : bool) (mdstep : Z)
    (inputrec : t_inputrec) (bDoNS : bool) (state : t_state) (f : list rvec)
    (md : t_mdatoms) (graph : bool) (shfc : gmx_shellfc)
    (fc_stepsize : real) (vsite : bool) : outcome relax_result :=
  let* (nat_, x, ls0) :=
    relax_prepare cr bVerbose mdstep inputrec bDoNS state md graph shfc in
  let* ls :=
    relax_loop cr bVerbose mdstep inputrec md graph vsite fc_stepsize x
      (Z.to_nat (ir_niter inputrec)) ls0 in
  relax_finish fplog cr mdstep inputrec nat_
    (mk_state (st_natoms state) x (st_v state)) f ls.

(** ** Inputs used in the examples *)

(** The helpers of math/functions.h as GROMACS declares them
    ([gmx_within_tol(f1, f2, tol)] is
    [fabs(f1-f2) <= tol*0.5*(fabs(f1)+fabs(f2))], and [gmx_numzero(a)] is
    [gmx_within_tol(a, 0.0, GMX_REAL_MIN/GMX_REAL_EPS)]), the constants
    in single precision, and a square root that is exact on squares of
    rationals. *)
Definition within_tol_ref (f1 f2 tol : real) : bool :=
  Qle_bool (Qabs (f1 - f2)) (tol * (1 # 2) * (Qabs f1 + Qabs f2))%Q.

Definition sqrt_ref (a : real) : real :=
  (Z.sqrt (Qnum a * Zpos (Qden a)) # Qden a)%Q.

Definition example_headers : Headers := {|
  nratoms := fun ft =>
    match ft with
    | F_WATER_POL | F_ANISO_POL => 5%nat
    | F_OTHER _ => 1%nat
    | _ => 2%nat
    end;
  gmx_within_tol := within_tol_ref;
  gmx_numzero := fun a =>
    within_tol_ref a 0%Q
      ((1175494351 # 100000000000000000000000000000000000000000000000)
       / (119209290 # 1000000000000000))%Q;
  real_sqrt := sqrt_ref;
  GMX_REAL_EPS := (119209290 # 1000000000000000)%Q;
  ONE_4PI_EPS0 := (138935485 # 1000000)%Q;
  BOLTZ := (83144621 # 10000000000)%Q
|}.

(** A single rank without periodic images, constraints or virtual sites,
    and a force evaluator that puts the same force on every particle. *)
Definition example_collab (force : rvec) : Collaborators := {|
  pbc_dx := rvec_sub;
  do_force := fun _ x => (map (fun _ => force) x, 0%Q);
  construct_vsites := fun x _ v => (x, v);
  constrain_coord := fun _ xprime => xprime;
  constrain_flexcon := fun _ _ min_proj => min_proj;
  put_in_box := fun _ x => x;
  shift_self := fun x => x;
  unshift_self := fun x => x;
  gmx_sumd := fun buf => buf;
  ddglatnr := fun dd i =>
    match gatindex dd !! Z.to_nat i with Some g => g + 1 | None => 0 end
|}.

Definition example_iparams : t_iparams :=
  mk_iparams 1000 0 1000 1 1 1 1 1 1 1.

Definition empty_ilist : t_ilist := mk_ilist 0 [].

(** A heavy atom (index 0) carrying one shell (index 1), joined by one
    harmonic bond; both in one charge group. *)
Definition drude_pair : gmx_moltype_t :=
  mk_moltype
    [mk_atom 12 1 1 eptAtom; mk_atom (4 # 10) (-1) (-1) eptShell]
    (mk_block 1 [0; 2])
    (fun ft => match ft with
               | F_BONDS => mk_ilist 3 [0; 0; 1]
               | _ => empty_ilist
               end).

(** A shell (index 0) bonded to four heavy atoms. *)
Definition four_bonds : gmx_moltype_t :=
  mk_moltype
    [mk_atom (4 # 10) (-1) (-1) eptShell; mk_atom 12 0 0 eptAtom;
     mk_atom 12 0 0 eptAtom; mk_atom 12 0 0 eptAtom; mk_atom 12 0 0 eptAtom]
    (mk_block 1 [0; 5])
    (fun ft => match ft with
               | F_BONDS => mk_ilist 12 [0; 0; 1; 0; 0; 2; 0; 0; 3; 0; 0; 4]
               | _ => empty_ilist
               end).

(** A shell (index 1) that no bonded interaction touches, next to a
    bonded one (index 2). *)
Definition loose_shell : gmx_moltype_t :=
  mk_moltype
    [mk_atom 12 1 1 eptAtom; mk_atom (4 # 10) (-1) (-1) eptShell;
     mk_atom (4 # 10) (-1) (-1) eptShell]
    (mk_block 1 [0; 3])
    (fun ft => match ft with
               | F_BONDS => mk_ilist 3 [0; 0; 2]
               | _ => empty_ilist
               end).

(** Heavy atoms only. *)
Definition no_shells : gmx_moltype_t :=
  mk_moltype [mk_atom 12 0 0 eptAtom; mk_atom 1 0 0 eptAtom]
    (mk_block 1 [0; 2]) (fun _ => empty_ilist).

Definition example_mtop (molt : gmx_moltype_t) (nmol : Z) : gmx_mtop_t :=
  mk_mtop (nmol * atoms_nr molt) [molt] [mk_molblock 0 nmol]
    (mk_ffparams [F_BONDS] [example_iparams]).

(** The engine before set-up: everything zero, no arrays. *)
Definition shfc_zero : gmx_shellfc :=
  mk_shellfc 0 [] [] false 0 (PtrLocal []) false false 0 ([], []) ([], [])
    [] [] 0 0.

(** Self-consistent-field Drude mode, wall at 1/5, time step 1/1000,
    tolerance 1/2, five iterations, first step 0. *)
Definition example_ir : t_inputrec :=
  mk_inputrec true edrudeSCF 1 (1 # 5) (1 # 1000) (1 # 2) 5 0 false false
    true true.

Definition example_env : environment := mk_environment false false.

Definition single_rank : t_commrec := mk_commrec None false true.

(** ** The debug dump: [check_pbc], [dump_shells]

    What the two routines write, without the formatting: a line with
    the force on a shell, and the block of five positions that
    [pr_rvecs] prints from [x + now]. *)

Inductive dump_line : Type :=
| DumpForce (shell : Z) (f : rvec) (norm_f : real)
| DumpShellX (rows : list rvec).

Definition check_pbc (x : list rvec) (shell : Z) : outcome (list dump_line) :=
  let now := shell - 4 in
  let* xs := aget x shell in
  let* xn := aget x now in
  if existsb (fun m => Qltb (3 # 10) (fabs (rcomp xs m - rcomp xn m)))
       [dXX; dYY; dZZ]
  then
    let* rows :=
      ofold (fun rows i => let* r := aget x (now + i) in Done (rows ++ [r]))
        (zrange 0 5) [] in
    Done [DumpShellX rows]
  else Done [].

Definition dump_shells {hdr : Headers} (x f : list rvec) (ftol : real)
    (ns : Z) (s : list t_shell) : outcome (list dump_line) :=
  let ft2 := (ftol * ftol)%Q in
  ofold
    (fun out i =>
       let* si := aget s i in
       let shell := shell si in
       let* fs := aget f shell in
       let ff2 := iprod fs fs in
       let line :=
         if Qltb ft2 ff2 then [DumpForce shell fs (real_sqrt ff2)] else [] in
       let* pbc := check_pbc x shell in
       Done (out ++ line ++ pbc))
    (zrange 0 ns) [].
(** ** Predicates used in the statements *)

(** A record of the table under construction: untouched, or claimed by a
    shell with its first one, two or three slots filled. *)
Definition slots_ok (s : t_shell) : Prop :=
  (nnucl s = 0 /\ shell s = -1 /\ nucl1 s = -1 /\ nucl2 s = -1 /\ nucl3 s = -1)
  \/ (shell s <> -1
      /\ ((nnucl s = 1 /\ nucl1 s <> -1 /\ nucl2 s = -1 /\ nucl3 s = -1)
          \/ (nnucl s = 2 /\ nucl1 s <> -1 /\ nucl2 s <> -1 /\ nucl3 s = -1)
          \/ (nnucl s = 3 /\ nucl1 s <> -1 /\ nucl2 s <> -1 /\ nucl3 s <> -1))).

(** The number of records that a shell has claimed. *)
Definition bonded (s : t_shell) : Z := if shell s =? -1 then 0 else 1.

Fixpoint n_bonded (cells : list t_shell) : Z :=
  match cells with
  | [] => 0
  | s :: cells' => bonded s + n_bonded cells'
  end.

(** What every step of the scan preserves, for a table of [len] records. *)
Definition scan_inv (len : nat) (st : scan_state) : Prop :=
  length (sc_shell st) = len
  /\ Forall slots_ok (sc_shell st)
  /\ sc_ns st = n_bonded (sc_shell st).

Definition nnucl_1_to_3 (s : t_shell) : Prop :=
  nnucl s = 1 \/ nnucl s = 2 \/ nnucl s = 3.

(** The engine after set-up on two copies of [drude_pair]. *)
Definition example_shfc : gmx_shellfc :=
  match @init_shell_flexcon example_headers shfc_zero example_ir example_env
          (example_mtop drude_pair 2) 0 1 with
  | Done shfc => shfc
  | _ => shfc_zero
  end.

(** ** The shell-typed particles of the system *)

(** The particle types of all atoms of the system in the order of
    [gmx_mtop_atomloop_all_next]: block after block, molecule after
    molecule, atom after atom.  Atom [g] of the system is entry [g]. *)
Definition mtop_ptypes (mtop : gmx_mtop_t) : list ptype_t :=
  flat_map
    (fun molb =>
       match aget (moltype mtop) (mb_type molb) with
       | Done molt =>
           concat (replicate (Z.to_nat (mb_nmol molb))
                     (map atom_ptype (mt_atoms molt)))
       | _ => []
       end)
    (molblock mtop).

Definition n_shells (types : list ptype_t) : nat :=
  length (List.filter is_shell_ptype types).

(** Atom [g] of a system with the particle types [types] is a
    shell-typed particle. *)
Definition shell_typed (types : list ptype_t) (g : Z) : Prop :=
  0 <= g /\ types !! Z.to_nat g = Some eptShell.

Definition shell_particle (mtop : gmx_mtop_t) (g : Z) : Prop :=
  shell_typed (mtop_ptypes mtop) g.

(** The numbering pass after the atoms with types [types]: the counter
    [i] of atoms, the number [n] of shells, and the index, which gives
    every shell-typed atom the number of shell-typed atoms before it. *)
Definition index_inv (types : list ptype_t) (st : list Z * Z * Z) : Prop :=
  snd (fst st) = Z.of_nat (length types)
  /\ snd st = Z.of_nat (n_shells types)
  /\ forall g,
       types !! g = Some eptShell ->
       fst (fst st) !! g = Some (Z.of_nat (n_shells (take g types))).

(** Six particles of which only particle 1 is shell-typed, and nothing
    is bonded to it; one water-polarization entry over the particles
    0, 2, 3, 4 and 5, which makes particle 5 its shell. *)
Definition water_pol_molecule : gmx_moltype_t :=
  mk_moltype
    [mk_atom 16 0 0 eptAtom; mk_atom (4 # 10) (-1) (-1) eptShell;
     mk_atom 1 0 0 eptAtom; mk_atom 1 0 0 eptAtom; mk_atom 1 0 0 eptAtom;
     mk_atom 1 (-1) (-1) eptAtom]
    (mk_block 1 [0; 6])
    (fun ft => match ft with
               | F_WATER_POL => mk_ilist 6 [0; 0; 2; 3; 4; 5]
               | _ => empty_ilist
               end).

Definition water_pol_mtop : gmx_mtop_t :=
  mk_mtop 6 [water_pol_molecule] [mk_molblock 0 1]
    (mk_ffparams [F_WATER_POL] [example_iparams]).

Definition water_pol_shfc : gmx_shellfc :=
  match @init_shell_flexcon example_headers shfc_zero example_ir example_env
          water_pol_mtop 0 1 with
  | Done shfc => shfc
  | _ => shfc_zero
  end.

(** The scan of [loose_shell], whose shell 1 nothing is bonded to. *)
Definition loose_scan : scan_state :=
  match @scan_topology example_headers (ffparams (example_mtop loose_shell 1))
          [0; 0; 1] 2 (example_mtop loose_shell 1)
          (mk_scan (replicate 2 shell_init) 0 0 false) with
  | Done st => st
  | _ => mk_scan [] 0 0 false
  end.

(** The offsets at which the scan of an interaction list finds its
    entries: 0 when the list is not empty, and after the entry at [i],
    of a type with [nra] atoms, the offset [i + nra + 1] when that is
    below [nr]. *)
Inductive entry_at {hdr : Headers} (ffp : gmx_ffparams_t) (il : t_ilist)
    : Z -> Prop :=
| entry_first : 0 < il_nr il -> entry_at ffp il 0
| entry_next (i type : Z) (ftype : ftype_t) :
    entry_at ffp il i ->
    aget (il_iatoms il) i = Done type ->
    aget (functype ffp) type = Done ftype ->
    i + (Z.of_nat (nratoms ftype) + 1) < il_nr il ->
    entry_at ffp il (i + (Z.of_nat (nratoms ftype) + 1)).

(** Every water-polarization entry of every molecule type names a
    shell-typed particle as its shell, the fifth atom of the entry. *)
Definition water_pol_shells_typed {hdr : Headers} (mtop : gmx_mtop_t) : Prop :=
  forall molt i,
    molt ∈ moltype mtop ->
    entry_at (ffparams mtop) (mt_ilist molt F_WATER_POL) i ->
    exists a5 at5,
      aget (il_iatoms (mt_ilist molt F_WATER_POL)) (i + 5) = Done a5
      /\ aget (mt_atoms molt) a5 = Done at5
      /\ atom_ptype at5 = eptShell.

(** [water_pol_molecule] with particle 5 shell-typed as well: the entry
    names a shell, and shell 1 has still nothing attached. *)
Definition water_pol_loose : gmx_moltype_t :=
  mk_moltype
    [mk_atom 16 0 0 eptAtom; mk_atom (4 # 10) (-1) (-1) eptShell;
     mk_atom 1 0 0 eptAtom; mk_atom 1 0 0 eptAtom; mk_atom 1 0 0 eptAtom;
     mk_atom (4 # 10) (-1) (-1) eptShell]
    (mk_block 1 [0; 6])
    (fun ft => match ft with
               | F_WATER_POL => mk_ilist 6 [0; 0; 2; 3; 4; 5]
               | _ => empty_ilist
               end).

Definition water_pol_loose_mtop : gmx_mtop_t :=
  mk_mtop 6 [water_pol_loose] [mk_molblock 0 1]
    (mk_ffparams [F_WATER_POL] [example_iparams]).

Definition water_pol_loose_scan : scan_state :=
  match @scan_topology example_headers (ffparams water_pol_loose_mtop)
          [0; 0; 0; 0; 0; 1] 2 water_pol_loose_mtop
          (mk_scan (replicate 2 shell_init) 0 0 false) with
  | Done st => st
  | _ => mk_scan [] 0 0 false
  end.

(** The displacement the predictor gives to the shell of record [si] on
    an ordinary step: the velocities of its nuclei, weighted by their
    masses, times [dt_1]. *)
Definition weighted_velocity (v : list rvec) (mass : list real) (si : t_shell)
    (d : dim) : outcome real :=
  match nnucl si with
  | 1 =>
      let* v1 := aget v (nucl1 si) in
      Done (rcomp v1 d)
  | 2 =>
      let* m1 := aget mass (nucl1 si) in
      let* m2 := aget mass (nucl2 si) in
      let* v1 := aget v (nucl1 si) in
      let* v2 := aget v (nucl2 si) in
      Done ((m1 * rcomp v1 d + m2 * rcomp v2 d) / (m1 + m2))%Q
  | 3 =>
      let* m1 := aget mass (nucl1 si) in
      let* m2 := aget mass (nucl2 si) in
      let* m3 := aget mass (nucl3 si) in
      let* v1 := aget v (nucl1 si) in
      let* v2 := aget v (nucl2 si) in
      let* v3 := aget v (nucl3 si) in
      Done ((m1 * rcomp v1 d + m2 * rcomp v2 d + m3 * rcomp v3 d)
            / (m1 + m2 + m3))%Q
  | _ => Undefined
  end.

(** The divisor of that average is not zero: the masses of the two or
    three nuclei of record [si] do not sum to zero.  With one nucleus
    nothing is divided. *)
Definition mass_sum_nonzero (mass : list real) (si : t_shell) : bool :=
  match nnucl si with
  | 2 =>
      match aget mass (nucl1 si), aget mass (nucl2 si) with
      | Done m1, Done m2 => negb (Qeq_bool (m1 + m2) 0)
      | _, _ => false
      end
  | 3 =>
      match aget mass (nucl1 si), aget mass (nucl2 si),
            aget mass (nucl3 si) with
      | Done m1, Done m2, Done m3 => negb (Qeq_bool (m1 + m2 + m3) 0)
      | _, _, _ => false
      end
  | _ => true
  end.

(** A shell (index 2) on two heavy atoms of masses 1 and 3, the lighter
    one moving with velocity 4 along x; time step 1/2. *)
Definition two_nuclei_shell : t_shell :=
  mk_shell 2 2 0 1 (-1) 0 0 0 0 0 rvec_zero rvec_zero rvec_zero.

Definition two_nuclei_x : list rvec := [rvec_zero; rvec_zero; rvec_zero].
Definition two_nuclei_v : list rvec := [mk_rvec 4 0 0; rvec_zero; rvec_zero].
Definition two_nuclei_mass : list real := [1; 3; 0]%Q.

(** The scalar fields of the engine that no buffer update touches. *)
Definition shfc_scalars (shfc : gmx_shellfc) : Z * Z * Z * Z :=
  (nshell shfc, nflexcon shfc, numForceEvaluations shfc,
   numConvergedIterations shfc).

(** A computation that does not end in [gmx_fatal]. *)
Definition never_fatal {A : Type} (m : outcome A) : Prop :=
  forall e, m <> Fatal e.

(** What holds of the locals of [relax_shell_flexcon] whenever the loop
    condition is evaluated, for an engine whose scalars were [sc] on
    entry: [count] force evaluations and RMS forces so far, [bConverged]
    is the tolerance test on the latest RMS force, and [df[Min]] is the
    smallest RMS force of the step. *)
Definition loop_inv (cr : t_commrec) (bVerbose : bool) (mdstep : Z)
    (inputrec : t_inputrec) (sc : Z * Z * Z * Z) (ls : loop_state) : Prop :=
  shfc_scalars (ls_shfc ls) = sc
  /\ 1 <= ls_count ls
  /\ (ls_count ls = 1 \/ ls_count ls <= ir_niter inputrec)
  /\ count_do_force (ls_events ls) = ls_count ls
  /\ Z.of_nat (length (rms_forces (ls_events ls))) = ls_count ls
  /\ (exists r, last (rms_forces (ls_events ls)) = Some r
                /\ ls_bConverged ls = Qltb r (ir_em_tol inputrec))
  /\ In (sel (ls_Min ls) (ls_df ls)) (rms_forces (ls_events ls))
  /\ Forall (fun r => (sel (ls_Min ls) (ls_df ls) <= r)%Q)
       (rms_forces (ls_events ls)).

(** One heavy atom (index 0) with its shell (index 1) on a single rank:
    the atoms, the state with the shell 1/10 away from the atom, and the
    engine after set-up and [make_local_shells]. *)
Definition pair_md : t_mdatoms :=
  mk_mdatoms [eptAtom; eptShell] [12; 4 # 10]%Q [1 # 12; 10 # 4]%Q 2.

Definition pair_state : t_state :=
  mk_state 2 [rvec_zero; mk_rvec (1 # 10) 0 0] [rvec_zero; rvec_zero].

Definition pair_shfc : gmx_shellfc :=
  match @init_shell_flexcon example_headers shfc_zero example_ir example_env
          (example_mtop drude_pair 1) 0 1 with
  | Done shfc =>
      match make_local_shells single_rank pair_md shfc with
      | Done shfc' => shfc'
      | _ => shfc_zero
      end
  | _ => shfc_zero
  end.

(** A step of that system at [mdstep = 1] with the evaluator that puts
    [force] on every particle: log file open, verbose, no neighbour
    search, no graph, no virtual sites. *)
Definition pair_step (force : rvec) : outcome relax_result :=
  @relax_shell_flexcon example_headers (example_collab force) true
    single_rank true 1 example_ir false pair_state [rvec_zero; rvec_zero]
    pair_md false pair_shfc 1 false.

Definition pair_result (force : rvec) : relax_result :=
  match pair_step force with
  | Done res => res
  | _ => mk_result shfc_zero pair_state [] 0 false 0 []
  end.

(** What [relax_prepare] hands to the loop in that step. *)
Definition pair_prepared (force : rvec) : Z * list rvec * loop_state :=
  match @relax_prepare example_headers (example_collab force) single_rank
          true 1 example_ir false pair_state pair_md false pair_shfc with
  | Done p => p
  | _ => (0, [], mk_loop shfc_zero [] Slot0 (0, 0)%Q (0, 0)%Q 0 false 0 [])
  end.

(** Two heavy atoms, no shell, no flexible constraint: the preparation of
    a step with a non-zero force on every atom. *)
Definition plain_md : t_mdatoms :=
  mk_mdatoms [eptAtom; eptAtom] [12; 1]%Q [1 # 12; 1]%Q 2.

Definition plain_prepared_on (cr : t_commrec) : Z * list rvec * loop_state :=
  match @relax_prepare example_headers (example_collab (mk_rvec 1 0 0))
          cr true 1 example_ir false pair_state plain_md false
          shfc_zero with
  | Done p => p
  | _ => (0, [], mk_loop shfc_zero [] Slot0 (0, 0)%Q (0, 0)%Q 0 false 0 [])
  end.

Definition plain_prepared : Z * list rvec * loop_state :=
  plain_prepared_on single_rank.

(** The master of a parallel run without domain decomposition; the
    global sum of [example_collab] is that of a run whose other ranks
    contribute nothing. *)
Definition parallel_rank : t_commrec := mk_commrec None true true.

(** The fields of a shell record that the topology scan fills; the other
    three ([xold], [fold], [step]) are the scratch space of the
    minimiser. *)
Definition topology_fields (s : t_shell)
    : Z * Z * Z * Z * Z * real * real * real * real * real :=
  (nnucl s, shell s, nucl1 s, nucl2 s, nucl3 s, k s, k_1 s, k11 s, k22 s,
   k33 s).

Definition shell_is_local (shfc : gmx_shellfc) : bool :=
  match shell_p shfc with PtrLocal _ => true | PtrGlobal => false end.

(** The global table of [shfc'] compared with that of [shfc]: the same
    topology fields in every record, and the same records altogether
    when [shfc->shell] is an array of its own. *)
Definition global_kept (shfc shfc' : gmx_shellfc) : Prop :=
  map topology_fields (shell_gl shfc') = map topology_fields (shell_gl shfc)
  /\ shell_is_local shfc' = shell_is_local shfc
  /\ (shell_is_local shfc = true -> shell_gl shfc' = shell_gl shfc).

(** A heavy atom of mass 3 at the origin and its Drude of mass 1 at
    distance 3/10 along x, bonded; wall at 1/5, time step 1/1000, and a
    Drude temperature that makes [kbt = BOLTZ * drude_t] equal to 1.  The
    atom moves with velocity 1 and the Drude with velocity 5 along the
    bond. *)
Definition wall_md : t_mdatoms :=
  mk_mdatoms [eptAtom; eptShell] [3; 1]%Q [1 # 3; 1]%Q 2.

Definition wall_state : t_state :=
  mk_state 2 [rvec_zero; mk_rvec (3 # 10) 0 0] [mk_rvec 1 0 0; mk_rvec 5 0 0].

Definition wall_ir : t_inputrec :=
  mk_inputrec true edrudeLagrangian (10000000000 # 83144621) (1 # 5)
    (1 # 1000) (1 # 2) 5 0 false false true true.

Definition wall_il (ft : ftype_t) : t_ilist :=
  match ft with
  | F_BONDS => mk_ilist 3 [0; 0; 1]
  | _ => empty_ilist
  end.

Definition tensor_zero : tensor := mk_tensor rvec_zero rvec_zero rvec_zero.

Definition wall_result : outcome (t_state * tensor) :=
  @apply_drude_hardwall example_headers (example_collab rvec_zero)
    single_rank wall_il wall_ir wall_md wall_state tensor_zero.

(** The state after the correction, and the x-coordinates of the stored
    positions and velocities of particle [i]. *)
Definition wall_final : t_state :=
  match wall_result with
  | Done (st, _) => st
  | _ => wall_state
  end.

Definition wall_x (st : t_state) (i : nat) : real := XX (nth i (st_x st) rvec_zero).
Definition wall_v (st : t_state) (i : nat) : real := XX (nth i (st_v st) rvec_zero).

(** A table with one shell (index 2, [k_1 = 1/2]) and its first sweep,
    from the position 1/10 along x under the force 1 along x. *)
Definition sweep_shell : t_shell := set_k_1 two_nuclei_shell (1 # 2).

Definition sweep_x : list rvec := [rvec_zero; rvec_zero; mk_rvec (1 # 10) 0 0].
Definition sweep_f : list rvec := [rvec_zero; rvec_zero; mk_rvec 1 0 0].

Definition sweep_result (count : Z) (s : list t_shell)
    : list rvec * list t_shell :=
  match @shell_pos_sd example_headers sweep_x sweep_x sweep_f 1 s count with
  | Done r => r
  | _ => ([], [])
  end.

(** The same positions moved along the same vectors, taken as projected
    accelerations of the two home atoms, with the step 1/2. *)
Definition directional_result : list rvec :=
  match directional_sd sweep_x sweep_x sweep_f 0 2 (1 # 2) with
  | Done r => r
  | _ => []
  end.

(** Two heavy atoms at 4 and 0 along x and their shell (index 2) far
    away, and the positions after the predictor has run in
    initialisation mode on the table of [two_nuclei_shell]. *)
Definition init_x : list rvec := [mk_rvec 4 0 0; rvec_zero; mk_rvec 9 9 9].

Definition init_placed : list rvec :=
  match predict_shells init_x two_nuclei_v (1 # 2) 1 [two_nuclei_shell]
          (Some two_nuclei_mass) [] true with
  | Done r => r
  | _ => []
  end.

(** The atom-Drude pairs [(ia, ib)] that [apply_drude_hardwall] finds in
    the two interaction lists it walks, in the order it visits them. *)
Definition drude_bonds {hdr : Headers} (il : ftype_t -> t_ilist)
    (md : t_mdatoms) : list (Z * Z) :=
  flat_map
    (fun ft =>
       flat_map
         (fun j =>
            match aget (il_iatoms (il ft)) (j + 1),
                  aget (il_iatoms (il ft)) (j + 2) with
            | Done a1, Done a2 =>
                match find_drude md a1 a2 with
                | Done (Some p) => [p]
                | _ => []
                end
            | _, _ => []
            end)
         (stride_range (il_nr (il ft)) (1 + Z.of_nat (nratoms ft))))
    flocal.

(** The pair of [wall_state] with the Drude at 1/10 from its atom, inside
    the wall, and at 1/2, beyond twice the wall. *)
Definition near_state : t_state :=
  mk_state 2 [rvec_zero; mk_rvec (1 # 10) 0 0] [mk_rvec 1 0 0; mk_rvec 5 0 0].

Definition far_state : t_state :=
  mk_state 2 [rvec_zero; mk_rvec (1 # 2) 0 0] [mk_rvec 1 0 0; mk_rvec 5 0 0].

(** The messages about a step that did not converge. *)
Definition is_no_converge (e : event) : bool :=
  match e with
  | EvNoConvergeLog _ _ _ | EvNoConvergeStderr _ _ _ => true
  | _ => false
  end.

(** The step of [pair_step] asked of an engine in extended-Lagrangian
    Drude mode with an integrator that is not an energy minimiser. *)
Definition lagrangian_step : outcome relax_result :=
  @relax_shell_flexcon example_headers (example_collab rvec_zero) true
    single_rank true 1 wall_ir false pair_state [rvec_zero; rvec_zero]
    pair_md false pair_shfc 1 false.

(** The particle counts of two copies of [drude_pair]. *)
Definition example_counts : nptype_t :=
  match countPtypes (example_mtop drude_pair 2) with
  | Done n => n
  | _ => fun _ => 0
  end.

(** The number of shell-typed atoms of one molecule of a type. *)
Definition shell_atoms (molt : gmx_moltype_t) : Z :=
  Z.of_nat
    (length
       (List.filter (fun a => is_shell_ptype (atom_ptype a)) (mt_atoms molt))).

(** The invariant of the numbering pass: the next number [n] is not
    negative and every entry of the index written so far is a number
    below [n], or zero. *)
Definition index_ok (st : list Z * Z * Z) : Prop :=
  0 <= snd st
  /\ Forall (fun v => 0 <= v <= Z.max 0 (snd st - 1)) (fst (fst st)).

(** The fatal errors that set-up can end in.  The two defensive ones
    ("Death Horror" and "nsi is ... should be within") are not among
    them, nor are the errors of the per-step code. *)
Definition is_setup_error (e : fatal_error) : bool :=
  match e with
  | FatalNstcalcenergy _ | FatalWeirdStuff | FatalTooManyBonds
  | FatalPolarizeCharge _ _ | FatalWaterPolCharge _ _
  | FatalShellsNotBonded => true
  | _ => false
  end.

(** The home atoms of a domain that are shells, in increasing order of
    their local number. *)
Definition home_shells (md : t_mdatoms) (dd : gmx_domdec_t) : list Z :=
  List.filter
    (fun i =>
       match aget (md_ptype md) i with
       | Done p => is_shell_ptype p
       | _ => false
       end)
    (zrange 0 (nat_home dd)).

(** The array [shfc->shell] would point to for the pointer value [p]. *)
Definition cells_of (shfc : gmx_shellfc) (p : shell_ptr) : list t_shell :=
  match p with
  | PtrGlobal => shell_gl shfc
  | PtrLocal cells => cells
  end.

(** A domain whose two home atoms are the second molecule of
    [example_shfc] (global atoms 2 and 3), on a rank of a parallel run,
    and the engine after [make_local_shells] there. *)
Definition second_pair_dd : gmx_domdec_t := mk_domdec 2 [2; 3] 2 0.

Definition second_pair_rank : t_commrec :=
  mk_commrec (Some second_pair_dd) true false.

Definition second_pair_shfc : gmx_shellfc :=
  match make_local_shells second_pair_rank pair_md example_shfc with
  | Done shfc => shfc
  | _ => shfc_zero
  end.

(** Six particles in a row along x, one unit apart, the last one a
    shell, and the debug dump of that shell under the force that is its
    position. *)
Definition dump_x : list rvec :=
  [rvec_zero; mk_rvec 1 0 0; mk_rvec 2 0 0; mk_rvec 3 0 0; mk_rvec 4 0 0;
   mk_rvec 5 0 0].

Definition dump_out : list dump_line :=
  match @dump_shells example_headers dump_x dump_x (1 # 2) 1
          [set_shell sweep_shell 5] with
  | Done out => out
  | _ => []
  end.

(** The particle counts of one [drude_pair], and the engine after
    set-up on it, before [make_local_shells]. *)
Definition pair_counts : nptype_t :=
  match countPtypes (example_mtop drude_pair 1) with
  | Done n => n
  | _ => fun _ => 0
  end.

Definition pair_init_shfc : gmx_shellfc :=
  match @init_shell_flexcon example_headers shfc_zero example_ir example_env
          (example_mtop drude_pair 1) 0 1 with
  | Done shfc => shfc
  | _ => shfc_zero
  end.

(** * Properties *)

(** ** Outcomes and loops *)

Lemma obind_Done {A B : Type} (m : outcome A) (f : A -> outcome B) (b : B) :
  obind m f = Done b -> exists a, m = Done a /\ f a = Done b.
Proof. destruct m; cbn; intros H; try discriminate. eauto. Qed.

Lemma aget_Done {A : Type} (l : list A) (i : Z) (a : A) :
  aget l i = Done a -> 0 <= i /\ l !! Z.to_nat i = Some a.
Proof.
  unfold aget. destruct (i <? 0) eqn:E; [discriminate|].
  destruct (l !! Z.to_nat i) eqn:E'; [|discriminate].
  intros [= ->]. split; [lia | reflexivity].
Qed.

Lemma aset_Done {A : Type} (l l' : list A) (i : Z) (a : A) :
  aset l i a = Done l' ->
  0 <= i < Z.of_nat (length l) /\ l' = <[Z.to_nat i := a]> l.
Proof.
  unfold aset. destruct ((0 <=? i) && (i <? Z.of_nat (length l))) eqn:E;
    [|discriminate].
  intros [= <-]. split; [lia | reflexivity].
Qed.

(** Inversion of a bind that returned: names are fresh, or given. *)
Ltac obind_inv H :=
  let a := fresh "a" in
  let Ha := fresh "Ha" in
  apply obind_Done in H; destruct H as (a & Ha & H).

Tactic Notation "obind_as" hyp(H) simple_intropattern(a) ident(Ha) :=
  apply obind_Done in H; destruct H as (a & Ha & H).

Lemma ofold_inv {A S : Type} (P : S -> Prop) (body : S -> A -> outcome S)
    (xs : list A) :
  (forall s x s', P s -> body s x = Done s' -> P s') ->
  forall s s', P s -> ofold body xs s = Done s' -> P s'.
Proof.
  intros Hbody. induction xs as [|x xs IH]; cbn; intros s s' Hs H.
  - injection H as <-. exact Hs.
  - obind_inv H. eauto.
Qed.

Lemma orepeat_inv {S : Type} (P : S -> Prop) (body : S -> outcome S)
    (count : nat) :
  (forall s s', P s -> body s = Done s' -> P s') ->
  forall s s', P s -> orepeat count body s = Done s' -> P s'.
Proof.
  intros Hbody. induction count as [|c IH]; cbn; intros s s' Hs H.
  - injection H as <-. exact Hs.
  - obind_inv H. eauto.
Qed.

(** ** The invariant of the topology scan *)

Lemma n_bonded_bounds (cells : list t_shell) :
  0 <= n_bonded cells <= Z.of_nat (length cells).
Proof.
  induction cells as [|s cells IH]; cbn [n_bonded length]; [lia|].
  unfold bonded. destruct (shell s =? -1); lia.
Qed.

Lemma n_bonded_full (cells : list t_shell) :
  n_bonded cells = Z.of_nat (length cells) ->
  Forall (fun s => shell s <> -1) cells.
Proof.
  induction cells as [|s cells IH]; cbn [n_bonded length]; intros H.
  - constructor.
  - pose proof (n_bonded_bounds cells) as Hb. unfold bonded in H.
    destruct (shell s =? -1) eqn:E.
    + lia.
    + constructor; [lia | apply IH; lia].
Qed.

Lemma n_bonded_insert (cells : list t_shell) (i : nat) (s0 s1 : t_shell) :
  cells !! i = Some s0 ->
  n_bonded (<[i := s1]> cells) = n_bonded cells - bonded s0 + bonded s1.
Proof.
  revert i. induction cells as [|s cells IH]; intros [|i] H; cbn in H;
    try discriminate.
  - injection H as ->. cbn. lia.
  - change (<[S i := s1]> (s :: cells)) with (s :: <[i := s1]> cells).
    cbn [n_bonded]. rewrite (IH i H). lia.
Qed.

Section ScanInvariant.
Context {hdr : Headers}.
Variable ffp : gmx_ffparams_t.
Variable shell_index : list Z.
Variable nshell_found : Z.
Variable len : nat.

Lemma attach_nucleus_full (s : t_shell) (a : Z) :
  nucl1 s <> -1 -> nucl2 s <> -1 -> nucl3 s <> -1 ->
  attach_nucleus s a = Fatal FatalTooManyBonds.
Proof.
  intros H1 H2 H3. unfold attach_nucleus.
  destruct (nucl1 s =? -1) eqn:E1; [lia|].
  destruct (nucl2 s =? -1) eqn:E2; [lia|].
  destruct (nucl3 s =? -1) eqn:E3; [lia|]. reflexivity.
Qed.

Lemma attach_nucleus_shell (s s' : t_shell) (a : Z) :
  attach_nucleus s a = Done s' -> shell s' = shell s /\ nnucl s' = nnucl s.
Proof.
  unfold attach_nucleus.
  repeat match goal with
         | |- context [if ?b then _ else _] => destruct b
         end; intros [= <-]; cbn; auto.
Qed.

Lemma add_force_constant_fields (bt : ftype_t) (qS qB : real) (aS mb : Z)
    (ip : t_iparams) (s s' : t_shell) :
  add_force_constant bt qS qB aS mb ip s = Done s' ->
  nnucl s' = nnucl s /\ shell s' = shell s /\ nucl1 s' = nucl1 s
  /\ nucl2 s' = nucl2 s /\ nucl3 s' = nucl3 s.
Proof.
  unfold add_force_constant.
  destruct bt; try discriminate;
    repeat match goal with
           | |- context [if ?b then _ else _] => destruct b
           end;
    intros [= <-]; cbn; auto.
Qed.

Lemma attach_shell_inv (bt : ftype_t) (atom : list t_atom) (at2cg : list Z)
    (a_offset mb type aS aN : Z) (st st' : scan_state) :
  0 <= a_offset -> scan_inv len st ->
  attach_shell ffp shell_index nshell_found bt atom at2cg a_offset mb type
    aS aN st = Done st' ->
  scan_inv len st'.
Proof.
  intros Hoff (Hlen & Hall & Hns) H. unfold attach_shell in H.
  obind_inv H. apply aget_Done in Ha as [HaS _].
  obind_inv H. clear Ha.
  destruct ((a0 <? 0) || (a0 >=? nshell_found)); [discriminate|].
  obind_inv H. apply aget_Done in Ha as [Hnsi Hs0].
  obind_inv H. destruct a2 as [s1 ns].
  obind_inv H. rename Ha0 into Hattach.
  obind_inv H. clear Ha0.
  obind_inv H. apply aget_Done in Ha0 as [HaN _].
  obind_inv H. clear Ha0.
  obind_inv H. apply add_force_constant_fields in Ha0
    as (Fn & Fs & F1 & F2 & F3).
  obind_inv H. apply aset_Done in Ha0 as [Hr ->]. injection H as <-.
  cbn [sc_shell sc_ns].
  pose proof (proj1 (Forall_lookup _ _) Hall _ _ Hs0) as Hok0.
  assert (Hs1 : shell s1 <> -1 /\ nucl1 s1 = nucl1 a1 /\ nucl2 s1 = nucl2 a1
                /\ nucl3 s1 = nucl3 a1 /\ nnucl s1 = nnucl a1
                /\ ns = sc_ns st - bonded a1 + 1).
  { unfold bonded. destruct (shell a1 =? -1) eqn:E.
    - injection Ha as <- <-. cbn. repeat split; lia.
    - apply Z.eqb_neq in E.
      destruct (negb (shell a1 =? a_offset + aS)); [discriminate|].
      injection Ha as <- <-. repeat split; lia. }
  destruct Hs1 as (Hsh & E1 & E2 & E3 & En & Ens).
  assert (Hok : slots_ok (set_nnucl a6 (nnucl a6 + 1))).
  { right. cbn. unfold attach_nucleus in Hattach.
    destruct (Z.eqb_spec (nucl1 s1) (-1)) as [T1|T1];
      [|destruct (Z.eqb_spec (nucl2 s1) (-1)) as [T2|T2];
        [|destruct (Z.eqb_spec (nucl3 s1) (-1)) as [T3|T3]; [|discriminate]]];
      injection Hattach as <-; cbn in *;
      destruct Hok0 as [(? & ? & ? & ? & ?)|(? & [(?&?&?&?)|[(?&?&?&?)|(?&?&?&?)]])];
      lia. }
  unfold scan_inv. cbn [sc_shell sc_ns]. split; [|split].
  - rewrite length_insert. exact Hlen.
  - apply Forall_insert; assumption.
  - rewrite (n_bonded_insert _ _ _ _ Hs0).
    apply attach_nucleus_shell in Hattach as [Hsh2 _].
    unfold bonded at 2. cbn [shell set_nnucl].
    destruct (Z.eqb_spec (shell a6) (-1)); lia.
Qed.

Lemma scan_entry_inv (bt : ftype_t) (atom : list t_atom) (at2cg : list Z)
    (a_offset mb : Z) (ia : list Z) (i : Z) (st st' : scan_state) (nra : nat) :
  0 <= a_offset -> scan_inv len st ->
  scan_entry ffp shell_index nshell_found bt atom at2cg a_offset mb ia i st
  = Done (nra, st') ->
  scan_inv len st'.
Proof.
  intros Hoff Hinv H. unfold scan_entry in H.
  obind_inv H. obind_inv H. obind_inv H. destruct a1 as [aS aN].
  obind_inv H. injection H as _ <-.
  destruct (negb (aS =? -1)).
  - eapply attach_shell_inv; [exact Hoff| |exact Ha2]. exact Hinv.
  - injection Ha2 as <-. exact Hinv.
Qed.

Lemma scan_ilist_inv (fuel : nat) (bt : ftype_t) (atom : list t_atom)
    (at2cg : list Z) (a_offset mb : Z) (il : t_ilist) :
  0 <= a_offset ->
  forall (i : Z) (st st' : scan_state),
    scan_inv len st ->
    scan_ilist ffp shell_index nshell_found fuel bt atom at2cg a_offset mb
      il i st = Done st' ->
    scan_inv len st'.
Proof.
  intros Hoff. induction fuel as [|fuel IH]; intros i st st' Hinv H;
    cbn [scan_ilist] in H; destruct (i <? il_nr il).
  - discriminate.
  - injection H as <-. exact Hinv.
  - obind_inv H. destruct a as [nra st1].
    eapply IH; [|exact H]. eapply scan_entry_inv; eauto.
  - injection H as <-. exact Hinv.
Qed.

Lemma scan_molecule_inv (molt : gmx_moltype_t) (at2cg : list Z)
    (a_offset mb : Z) (st st' : scan_state) :
  0 <= a_offset -> scan_inv len st ->
  scan_molecule ffp shell_index nshell_found molt at2cg a_offset mb st
  = Done st' ->
  scan_inv len st'.
Proof.
  intros Hoff Hinv H. unfold scan_molecule in H.
  eapply (ofold_inv (scan_inv len)); [|exact Hinv|exact H].
  intros s bt s' Hs Hb. eapply scan_ilist_inv; [exact Hoff|exact Hs|exact Hb].
Qed.

Lemma scan_molblock_inv (molt : gmx_moltype_t) (nmol mb : Z)
    (acc acc' : Z * scan_state) :
  0 <= fst acc -> scan_inv len (snd acc) ->
  scan_molblock ffp shell_index nshell_found molt nmol mb acc = Done acc' ->
  0 <= fst acc' /\ scan_inv len (snd acc').
Proof.
  intros Hoff Hinv H. unfold scan_molblock in H. obind_inv H.
  eapply (orepeat_inv (fun p => 0 <= fst p /\ scan_inv len (snd p)));
    [|split; [exact Hoff|exact Hinv]|exact H].
  intros [off s] [off' s'] [Ho Hs] Hb. cbn in *.
  obind_inv Hb. injection Hb as <- <-. split.
  - unfold atoms_nr. lia.
  - eapply scan_molecule_inv; [exact Ho|exact Hs|exact Ha0].
Qed.

Lemma scan_topology_inv (mtop : gmx_mtop_t) (st st' : scan_state) :
  scan_inv len st ->
  scan_topology ffp shell_index nshell_found mtop st = Done st' ->
  scan_inv len st'.
Proof.
  intros Hinv H. unfold scan_topology in H. obind_inv H.
  injection H as <-.
  refine (proj2 (ofold_inv
            (fun p => 0 <= fst (snd p) /\ scan_inv len (snd (snd p)))
            _ _ _ _ _ _ Ha)).
  - intros [mb acc] molb [mb' acc'] [Ho Hs] Hb. cbn in *.
    obind_inv Hb. obind_inv Hb. injection Hb as <- <-.
    eapply scan_molblock_inv; [exact Ho|exact Hs|exact Ha1].
  - cbn. split; [lia|exact Hinv].
Qed.

End ScanInvariant.

Lemma scan_inv_init (n : nat) :
  scan_inv n (mk_scan (replicate n shell_init) 0 0 false).
Proof.
  unfold scan_inv. cbn [sc_shell sc_ns]. split; [apply length_replicate|].
  split.
  - apply Forall_replicate. left. cbn. repeat split; reflexivity.
  - induction n as [|n IH]; cbn; [reflexivity|]. rewrite <- IH. reflexivity.
Qed.

Lemma scan_inv_complete (len : nat) (st : scan_state) :
  scan_inv len st -> sc_ns st = Z.of_nat len ->
  Forall nnucl_1_to_3 (sc_shell st).
Proof.
  intros (Hlen & Hall & Hns) Hfull.
  assert (Hb : Forall (fun s => shell s <> -1) (sc_shell st)).
  { apply n_bonded_full. lia. }
  rewrite Forall_forall in *. intros s Hin.
  specialize (Hall s Hin). specialize (Hb s Hin). unfold nnucl_1_to_3.
  destruct Hall as [(? & ? & _)|(_ & [(?&_)|[(?&_)|(?&_)]])]; [lia|auto..].
Qed.

(** ** Set-up checks *)

(** C10: with [nstcalcenergy] different from 1, [init_shell_flexcon] ends
    in the fatal error about [nstcalcenergy] as soon as the system has a
    shell or a non-zero number of flexible constraints (so also with no
    shell and flexible constraints only), and returns silently, leaving
    the engine untouched, only when it has neither. *)
Theorem C10_nstcalcenergy_check {hdr : Headers} (shfc : gmx_shellfc)
    (ir : t_inputrec) (env : environment) (mtop : gmx_mtop_t)
    (nflexcon_arg nstcalcenergy : Z) (n : nptype_t) :
  countPtypes mtop = Done n ->
  nstcalcenergy <> 1 ->
  ((n eptShell <> 0 \/ nflexcon_arg <> 0) ->
     init_shell_flexcon shfc ir env mtop nflexcon_arg nstcalcenergy
     = Fatal (FatalNstcalcenergy nstcalcenergy))
  /\ ((n eptShell = 0 /\ nflexcon_arg = 0) ->
     init_shell_flexcon shfc ir env mtop nflexcon_arg nstcalcenergy
     = Done shfc).
Proof.
  intros Hn Hne. unfold init_shell_flexcon. rewrite Hn. cbn [obind].
  split.
  - intros Hor.
    destruct (n eptShell =? 0) eqn:E1; destruct (nflexcon_arg =? 0) eqn:E2;
      cbn [andb]; try (destruct (nstcalcenergy =? 1) eqn:E3; [lia | reflexivity]).
    lia.
  - intros [H1 H2]. rewrite H1, H2. reflexivity.
Qed.

Lemma C10_witness :
  @init_shell_flexcon example_headers shfc_zero example_ir example_env
    (example_mtop no_shells 1) 3 2 = Fatal (FatalNstcalcenergy 2).
Proof.
  refine (proj1 (@C10_nstcalcenergy_check example_headers shfc_zero example_ir
            example_env (example_mtop no_shells 1) 3 2 _ _ _) _).
  - reflexivity.
  - lia.
  - right. lia.
Defined.

(** ** What the scan keeps for every kind of entry *)

Section ScanPreserve.
Context {hdr : Headers}.
Variable ffp : gmx_ffparams_t.
Variable shell_index : list Z.
Variable nshell_found : Z.

Lemma find_shell_aniso (atom : list t_atom) (ia : list Z) (i aN aS aN' : Z) :
  find_shell F_ANISO_POL atom ia i aN = Done (aS, aN') -> aS = -1.
Proof. cbn. intros [= <- _]. reflexivity. Qed.

(** What attaching a heavy particle to a shell does to the table: one
    record, the one the shell index names for the shell, is
    rewritten. *)
Lemma attach_shell_Done (bt : ftype_t) (atom : list t_atom)
    (at2cg : list Z) (a_offset mb type aS aN : Z) (st st' : scan_state) :
  attach_shell ffp shell_index nshell_found bt atom at2cg a_offset mb type
    aS aN st = Done st' ->
  exists nsi s0 s4,
    0 <= a_offset + aS
    /\ shell_index !! Z.to_nat (a_offset + aS) = Some nsi
    /\ 0 <= nsi
    /\ sc_shell st !! Z.to_nat nsi = Some s0
    /\ sc_shell st' = <[Z.to_nat nsi := s4]> (sc_shell st)
    /\ shell s4 = a_offset + aS
    /\ (bt <> F_ANISO_POL ->
        k11 s4 = k11 s0 /\ k22 s4 = k22 s0 /\ k33 s4 = k33 s0).
Proof.
  intros H. unfold attach_shell in H.
  obind_as H atS HatS. obind_as H nsi Hnsi.
  apply aget_Done in Hnsi as [Hoff Hnsi].
  destruct ((nsi <? 0) || (nsi >=? nshell_found)); [discriminate|].
  obind_as H s0 Hs0. apply aget_Done in Hs0 as [Hnsi0 Hs0].
  obind_as H [s1 ns] Hs1. obind_as H s2 Hs2.
  obind_as H cgS HcgS. obind_as H cgN HcgN. obind_as H ip Hip.
  obind_as H s3 Hs3. obind_as H cells Hcells.
  apply aset_Done in Hcells as [_ ->]. injection H as <-.
  exists nsi, s0, (set_nnucl s3 (nnucl s3 + 1)). cbn [sc_shell].
  split; [exact Hoff|]. split; [exact Hnsi|]. split; [exact Hnsi0|].
  split; [exact Hs0|]. split; [reflexivity|].
  assert (H1 : shell s1 = a_offset + aS
               /\ k11 s1 = k11 s0 /\ k22 s1 = k22 s0 /\ k33 s1 = k33 s0).
  { destruct (shell s0 =? -1).
    - injection Hs1 as <- _. cbn. auto.
    - destruct (Z.eqb_spec (shell s0) (a_offset + aS)) as [E|];
        [|discriminate].
      injection Hs1 as <- _. auto. }
  assert (H2 : shell s2 = shell s1
               /\ k11 s2 = k11 s1 /\ k22 s2 = k22 s1 /\ k33 s2 = k33 s1).
  { unfold attach_nucleus in Hs2.
    repeat match type of Hs2 with
           | (if ?b then _ else _) = _ => destruct b
           end; try discriminate; injection Hs2 as <-; cbn; auto. }
  apply add_force_constant_fields in Hs3 as Hf3.
  destruct Hf3 as (_ & Hsh3 & _).
  cbn [shell set_nnucl k11 k22 k33].
  split; [destruct H1 as [E1 _], H2 as [E2 _]; congruence|].
  intros Hbt.
  assert (H3 : k11 s3 = k11 s2 /\ k22 s3 = k22 s2 /\ k33 s3 = k33 s2).
  { unfold add_force_constant in Hs3.
    destruct bt; try contradiction; try discriminate;
      repeat match type of Hs3 with
             | (if ?b then _ else _) = _ => destruct b
             end; try discriminate; injection Hs3 as <-; cbn; auto. }
  destruct H1 as (_ & A1 & A2 & A3), H2 as (_ & B1 & B2 & B3),
    H3 as (C1 & C2 & C3).
  repeat split; congruence.
Qed.

Variable I : scan_state -> Prop.
Hypothesis I_aN :
  forall st aN, I st -> I (mk_scan (sc_shell st) (sc_ns st) aN (sc_bInterCG st)).
Hypothesis I_attach :
  forall bt atom at2cg a_offset mb type aS aN st st',
    bt <> F_ANISO_POL -> I st ->
    attach_shell ffp shell_index nshell_found bt atom at2cg a_offset mb type
      aS aN st = Done st' ->
    I st'.

Lemma scan_entry_preserves (bt : ftype_t) (atom : list t_atom)
    (at2cg : list Z) (a_offset mb : Z) (ia : list Z) (i : Z)
    (st st' : scan_state) (nra : nat) :
  I st ->
  scan_entry ffp shell_index nshell_found bt atom at2cg a_offset mb ia i st
  = Done (nra, st') ->
  I st'.
Proof.
  intros Hinv H. unfold scan_entry in H.
  obind_as H type Htype. obind_as H ftype Hftype.
  obind_as H [aS aN] Hfind. obind_as H st2 Hst2. injection H as _ <-.
  destruct (Z.eqb_spec aS (-1)) as [->|Hne]; cbn [negb] in Hst2.
  - injection Hst2 as <-. apply I_aN. exact Hinv.
  - eapply I_attach; [|apply I_aN; exact Hinv|exact Hst2].
    intros ->. apply find_shell_aniso in Hfind. contradiction.
Qed.

Lemma scan_ilist_preserves (fuel : nat) (bt : ftype_t) (atom : list t_atom)
    (at2cg : list Z) (a_offset mb : Z) (il : t_ilist) :
  forall (i : Z) (st st' : scan_state),
    I st ->
    scan_ilist ffp shell_index nshell_found fuel bt atom at2cg a_offset mb
      il i st = Done st' ->
    I st'.
Proof.
  induction fuel as [|fuel IH]; intros i st st' Hinv H;
    cbn [scan_ilist] in H; destruct (i <? il_nr il).
  - discriminate.
  - injection H as <-. exact Hinv.
  - obind_as H [nra st1] Hentry.
    eapply IH; [|exact H]. eapply scan_entry_preserves; eauto.
  - injection H as <-. exact Hinv.
Qed.

Lemma scan_topology_preserves (mtop : gmx_mtop_t) (st st' : scan_state) :
  I st ->
  scan_topology ffp shell_index nshell_found mtop st = Done st' ->
  I st'.
Proof.
  intros Hinv H. unfold scan_topology in H. obind_as H r Hr.
  injection H as <-.
  refine (ofold_inv (fun p => I (snd (snd p))) _ _ _ _ _ _ Hr);
    [|exact Hinv].
  intros [mb acc] molb [mb' acc'] Hs Hb. cbn [snd] in *.
  obind_as Hb molt Hmolt. obind_as Hb acc1 Hblock. injection Hb as _ <-.
  unfold scan_molblock in Hblock. obind_as Hblock at2cg Hat2cg.
  refine (orepeat_inv (fun p => I (snd p)) _ _ _ _ _ Hs Hblock).
  intros [off s] [off' s'] Hs0 Hmol. cbn [snd] in *.
  obind_as Hmol s1 Hscan. injection Hmol as _ <-.
  unfold scan_molecule in Hscan.
  refine (ofold_inv I _ _ _ _ _ Hs0 Hscan).
  intros s2 bt s3 Hs2 Hil. eapply scan_ilist_preserves; eauto.
Qed.
End ScanPreserve.

(** ** The shell index numbers the shell-typed particles *)

Lemma is_shell_ptype_true (p : ptype_t) :
  is_shell_ptype p = true <-> p = eptShell.
Proof. destruct p; cbn; split; intros H; congruence. Qed.

Lemma n_shells_app (l1 l2 : list ptype_t) :
  n_shells (l1 ++ l2) = (n_shells l1 + n_shells l2)%nat.
Proof. unfold n_shells. rewrite List.filter_app, length_app. reflexivity. Qed.

Lemma n_shells_take_le (l : list ptype_t) (g1 g2 : nat) :
  (g1 <= g2)%nat -> (n_shells (take g1 l) <= n_shells (take g2 l))%nat.
Proof.
  intros H. rewrite <- (take_drop g1 (take g2 l)), n_shells_app.
  rewrite take_take. replace (g1 `min` g2)%nat with g1 by lia. lia.
Qed.

Lemma n_shells_take_shell (l : list ptype_t) (g : nat) :
  l !! g = Some eptShell ->
  n_shells (take (S g) l) = S (n_shells (take g l)).
Proof.
  intros H. rewrite (take_S_r _ _ _ H), n_shells_app. cbn. lia.
Qed.

(** Two shell-typed particles have different numbers, and every number
    is below the number of shell-typed particles. *)
Lemma n_shells_take_inj (l : list ptype_t) (g1 g2 : nat) :
  l !! g1 = Some eptShell -> l !! g2 = Some eptShell ->
  n_shells (take g1 l) = n_shells (take g2 l) -> g1 = g2.
Proof.
  intros H1 H2 Heq.
  pose proof (n_shells_take_shell _ _ H1) as S1.
  pose proof (n_shells_take_shell _ _ H2) as S2.
  destruct (Nat.lt_trichotomy g1 g2) as [Hlt|[->|Hgt]]; [|reflexivity|].
  - pose proof (n_shells_take_le l (S g1) g2 ltac:(lia)). lia.
  - pose proof (n_shells_take_le l (S g2) g1 ltac:(lia)). lia.
Qed.

Lemma n_shells_take_lt (l : list ptype_t) (g : nat) :
  l !! g = Some eptShell -> (n_shells (take g l) < n_shells l)%nat.
Proof.
  intros H. pose proof (n_shells_take_shell _ _ H) as S1.
  pose proof (n_shells_take_le l (S g) (length l) ltac:(apply lookup_lt_Some in H; lia)) as Hle.
  rewrite firstn_all in Hle. lia.
Qed.

(** One molecule in the numbering pass. *)
Lemma index_atoms_inv (atoms : list t_atom) :
  forall (types : list ptype_t) (st st' : list Z * Z * Z),
    index_inv types st ->
    ofold
      (fun '(idx, i, n) atom =>
         if is_shell_ptype (atom_ptype atom)
         then let* idx' := aset idx i n in Done (idx', i + 1, n + 1)
         else Done (idx, i + 1, n))
      atoms st = Done st' ->
    index_inv (types ++ map atom_ptype atoms) st'.
Proof.
  induction atoms as [|a atoms IH]; intros types st st' Hinv H;
    cbn [ofold map] in H |- *.
  - injection H as <-. rewrite app_nil_r. exact Hinv.
  - obind_as H st1 H1.
    replace (types ++ atom_ptype a :: map atom_ptype atoms)
      with ((types ++ [atom_ptype a]) ++ map atom_ptype atoms)
      by (rewrite <- app_assoc; reflexivity).
    apply (IH _ st1 st'); [|exact H].
    destruct st as [[idx i] n]. destruct Hinv as (Hi & Hn & Hidx).
    cbn [fst snd] in Hi, Hn, Hidx.
    assert (Hold : forall g,
              (g < length types)%nat ->
              take g (types ++ [atom_ptype a]) = take g types).
    { intros g Hg. rewrite take_app_le by lia. reflexivity. }
    destruct (is_shell_ptype (atom_ptype a)) eqn:E.
    + obind_as H1 idx' Hset. injection H1 as <-.
      apply aset_Done in Hset as [Hrange ->].
      apply is_shell_ptype_true in E.
      unfold index_inv. cbn [fst snd].
      rewrite length_app, n_shells_app, E. cbn [length n_shells List.filter
        is_shell_ptype ptype_eqb].
      split; [lia|]. split; [lia|]. intros g Hg.
      destruct (decide (g = length types)) as [->|Hne].
      * replace (Z.to_nat i) with (length types) by lia.
        rewrite list_lookup_insert_eq by lia.
        rewrite take_app_length. rewrite Hn. reflexivity.
      * assert (Hlt : (g < length types)%nat).
        { apply lookup_lt_Some in Hg. rewrite length_app in Hg. cbn in Hg. lia. }
        rewrite list_lookup_insert_ne by lia.
        rewrite <- E, Hold by exact Hlt. apply Hidx.
        rewrite lookup_app_l in Hg by exact Hlt. exact Hg.
    + injection H1 as <-. unfold index_inv. cbn [fst snd].
      rewrite length_app, n_shells_app. unfold n_shells at 2.
      cbn [List.filter length]. rewrite E. cbn [length].
      split; [lia|]. split; [lia|]. intros g Hg.
      destruct (decide (g = length types)) as [->|Hne].
      * rewrite list_lookup_middle in Hg by reflexivity.
        injection Hg as Hg. apply is_shell_ptype_true in Hg. congruence.
      * assert (Hlt : (g < length types)%nat).
        { apply lookup_lt_Some in Hg. rewrite length_app in Hg. cbn in Hg. lia. }
        rewrite Hold by exact Hlt. apply Hidx.
        rewrite lookup_app_l in Hg by exact Hlt. exact Hg.
Qed.

(** All molecules of one block. *)
Lemma index_block_inv (atoms : list t_atom) (count : nat) :
  forall (types : list ptype_t) (st st' : list Z * Z * Z),
    index_inv types st ->
    orepeat count
      (ofold
         (fun '(idx, i, n) atom =>
            if is_shell_ptype (atom_ptype atom)
            then let* idx' := aset idx i n in Done (idx', i + 1, n + 1)
            else Done (idx, i + 1, n))
         atoms) st = Done st' ->
    index_inv (types ++ concat (replicate count (map atom_ptype atoms))) st'.
Proof.
  induction count as [|c IH]; intros types st st' Hinv H;
    cbn [orepeat replicate concat] in H |- *.
  - injection H as <-. rewrite app_nil_r. exact Hinv.
  - obind_as H st1 H1. rewrite app_assoc.
    apply (IH _ st1 st'); [|exact H].
    eapply index_atoms_inv; eassumption.
Qed.

(** The shell index after the numbering pass: the number of shells is
    the number of shell-typed particles, and a shell-typed particle has
    the number of shell-typed particles before it. *)
Lemma make_shell_index_numbers (mtop : gmx_mtop_t) (shell_index : list Z)
    (nshell_found : Z) :
  make_shell_index mtop = Done (shell_index, nshell_found) ->
  nshell_found = Z.of_nat (n_shells (mtop_ptypes mtop))
  /\ forall g,
       mtop_ptypes mtop !! g = Some eptShell ->
       shell_index !! g
       = Some (Z.of_nat (n_shells (take g (mtop_ptypes mtop)))).
Proof.
  unfold make_shell_index, mtop_ptypes. intros H. obind_as H r Hr.
  injection H as <- <-.
  assert (Hgen : forall (blocks : list gmx_molblock_t) (types : list ptype_t)
                   (st st' : list Z * Z * Z),
            index_inv types st ->
            ofold
              (fun st molb =>
                 let* molt := aget (moltype mtop) (mb_type molb) in
                 orepeat (Z.to_nat (mb_nmol molb))
                   (ofold
                      (fun '(idx, i, n) atom =>
                         if is_shell_ptype (atom_ptype atom)
                         then let* idx' := aset idx i n in
                              Done (idx', i + 1, n + 1)
                         else Done (idx, i + 1, n))
                      (mt_atoms molt))
                   st)
              blocks st = Done st' ->
            index_inv
              (types
               ++ flat_map
                    (fun molb =>
                       match aget (moltype mtop) (mb_type molb) with
                       | Done molt =>
                           concat (replicate (Z.to_nat (mb_nmol molb))
                                     (map atom_ptype (mt_atoms molt)))
                       | _ => []
                       end)
                    blocks) st').
  { induction blocks as [|molb blocks IH]; intros types st st' Hinv H;
      cbn [ofold flat_map] in H |- *.
    - injection H as <-. rewrite app_nil_r. exact Hinv.
    - obind_as H st1 H1. obind_as H1 molt Hmolt. rewrite Hmolt.
      rewrite app_assoc. apply (IH _ st1 st'); [|exact H].
      eapply index_block_inv; eassumption. }
  destruct (Hgen (molblock mtop) []
              (replicate (Z.to_nat (mtop_natoms mtop)) 0, 0, 0) r)
    as (_ & Hn & Hidx).
  - unfold index_inv. cbn [fst snd length n_shells List.filter].
    split; [reflexivity|]. split; [reflexivity|]. intros g Hg. discriminate.
  - exact Hr.
  - cbn [app] in Hn, Hidx. split; [exact Hn|exact Hidx].
Qed.

(** After the scan every record that a particle has claimed is the one
    the shell index names for that particle. *)
Lemma scan_topology_records {hdr : Headers} (mtop : gmx_mtop_t)
    (shell_index : list Z) (nshell_found : Z) (st : scan_state) :
  scan_topology (ffparams mtop) shell_index nshell_found mtop
    (mk_scan (replicate (Z.to_nat nshell_found) shell_init) 0 0 false)
  = Done st ->
  forall i s,
    sc_shell st !! i = Some s ->
    shell s = -1
    \/ (0 <= shell s
        /\ shell_index !! Z.to_nat (shell s) = Some (Z.of_nat i)).
Proof.
  intros Hscan.
  refine (scan_topology_preserves (ffparams mtop) shell_index nshell_found
            (fun st0 => forall i s,
               sc_shell st0 !! i = Some s ->
               shell s = -1
               \/ (0 <= shell s
                   /\ shell_index !! Z.to_nat (shell s) = Some (Z.of_nat i)))
            _ _ mtop _ st _ Hscan).
  - intros st0 aN Hst0. exact Hst0.
  - intros bt atom at2cg a_offset mb type aS aN st0 st1 _ Hst0 Hatt.
    apply attach_shell_Done in Hatt
      as (nsi & s0 & s4 & Hoff & Hnsi & Hnsi0 & Hs0 & -> & Hsh & _).
    intros i s Hs. destruct (decide (i = Z.to_nat nsi)) as [->|Hne].
    + rewrite list_lookup_insert_eq in Hs
        by (eapply lookup_lt_Some; exact Hs0).
      injection Hs as <-. right. rewrite Hsh. split; [exact Hoff|].
      rewrite Hnsi. f_equal. lia.
    + rewrite list_lookup_insert_ne in Hs by auto. apply Hst0. exact Hs.
  - cbn [sc_shell]. intros i s Hs.
    apply lookup_replicate_1 in Hs as [-> _]. left. reflexivity.
Qed.

(** When every claimed record belongs to a shell-typed particle and the
    scan has counted as many claimed records as there are shell-typed
    particles, every shell-typed particle has its record. *)
Lemma scan_topology_all_attached {hdr : Headers} (mtop : gmx_mtop_t)
    (shell_index : list Z) (nshell_found : Z) (st : scan_state) (g : Z) :
  make_shell_index mtop = Done (shell_index, nshell_found) ->
  scan_topology (ffparams mtop) shell_index nshell_found mtop
    (mk_scan (replicate (Z.to_nat nshell_found) shell_init) 0 0 false)
  = Done st ->
  Forall (fun s => shell s <> -1 -> shell_particle mtop (shell s))
    (sc_shell st) ->
  shell_particle mtop g ->
  sc_ns st = nshell_found ->
  exists s, s ∈ sc_shell st /\ shell s = g.
Proof.
  intros Hidx Hscan Hwf [Hg0 Hg] Hfull.
  destruct (make_shell_index_numbers _ _ _ Hidx) as [Hn Hnum].
  pose proof (scan_topology_inv _ _ _ _ _ _ _ (scan_inv_init _) Hscan)
    as (Hlen & _ & Hns).
  assert (Hclaimed : Forall (fun s => shell s <> -1) (sc_shell st)).
  { apply n_bonded_full. lia. }
  pose proof (n_shells_take_lt _ _ Hg) as Hlt.
  set (j := n_shells (take (Z.to_nat g) (mtop_ptypes mtop))) in *.
  destruct (lookup_lt_is_Some_2 (sc_shell st) j) as [s Hs]; [lia|].
  exists s. split; [eapply list_elem_of_lookup_2; exact Hs|].
  rewrite Forall_forall in Hclaimed, Hwf.
  assert (Hin : s ∈ sc_shell st) by (eapply list_elem_of_lookup_2; exact Hs).
  pose proof (Hclaimed s Hin) as Hne.
  destruct (Hwf s Hin Hne) as [Hs0 Hsp].
  destruct (scan_topology_records _ _ _ _ Hscan j s Hs) as [|[_ Hrec]];
    [contradiction|].
  rewrite (Hnum _ Hsp) in Hrec. injection Hrec as Hrec.
  assert (Z.to_nat (shell s) = Z.to_nat g).
  { apply (n_shells_take_inj (mtop_ptypes mtop)); [exact Hsp|exact Hg|].
    unfold j in Hrec. lia. }
  lia.
Qed.

(** ** The particles that claim a record are shell-typed *)

Lemma entry_at_range {hdr : Headers} (ffp : gmx_ffparams_t) (il : t_ilist)
    (i : Z) :
  entry_at ffp il i -> 0 <= i < il_nr il.
Proof. induction 1; lia. Qed.

Lemma lookup_map {A B : Type} (f : A -> B) (l : list A) (i : nat) :
  map f l !! i = f <$> (l !! i).
Proof.
  revert i. induction l as [|a l IH]; intros [|i]; cbn; try reflexivity.
  apply IH.
Qed.

Section ScanTyped.
Context {hdr : Headers}.
Variable ffp : gmx_ffparams_t.
Variable shell_index : list Z.
Variable nshell_found : Z.
(** the particle types of the system *)
Variable types : list ptype_t.

(** The first switch selects a shell-typed atom for every kind of bond
    but water polarization. *)
Lemma find_shell_typed (bt : ftype_t) (atom : list t_atom) (ia : list Z)
    (i aN aS aN' : Z) :
  bt <> F_WATER_POL ->
  find_shell bt atom ia i aN = Done (aS, aN') ->
  aS = -1
  \/ exists atS, aget atom aS = Done atS /\ atom_ptype atS = eptShell.
Proof.
  intros Hbt H. unfold find_shell in H.
  destruct bt; try contradiction; try discriminate;
    try (injection H as <- _; left; reflexivity);
    (obind_as H a1 Ha1; obind_as H at1 Hat1;
     destruct (is_shell_ptype (atom_ptype at1)) eqn:E1;
     [ obind_as H a2 Ha2; injection H as <- _; right; exists at1;
       split; [exact Hat1|apply is_shell_ptype_true; exact E1]
     | obind_as H a2 Ha2; obind_as H at2 Hat2;
       destruct (is_shell_ptype (atom_ptype at2)) eqn:E2;
       [ injection H as <- _; right; exists at2;
         split; [exact Hat2|apply is_shell_ptype_true; exact E2]
       | injection H as <- _; left; reflexivity ] ]).
Qed.

Lemma find_shell_water_pol (atom : list t_atom) (ia : list Z)
    (i aN aS aN' : Z) :
  find_shell F_WATER_POL atom ia i aN = Done (aS, aN') ->
  aget ia (i + 5) = Done aS.
Proof.
  cbn [find_shell]. intros H. obind_as H a4 Ha4. obind_as H a5 Ha5.
  injection H as <- _. exact Ha5.
Qed.

(** One entry, for a molecule whose atom [a] is particle
    [a_offset + a] of the system. *)
Lemma scan_entry_typed (bt : ftype_t) (atom : list t_atom)
    (at2cg : list Z) (a_offset mb : Z) (ia : list Z) (i : Z)
    (st st' : scan_state) (nra : nat) :
  (forall a atA,
     aget atom a = Done atA ->
     types !! Z.to_nat (a_offset + a) = Some (atom_ptype atA)) ->
  (bt = F_WATER_POL ->
   exists a5 at5,
     aget ia (i + 5) = Done a5 /\ aget atom a5 = Done at5
     /\ atom_ptype at5 = eptShell) ->
  Forall (fun s => shell s <> -1 -> shell_typed types (shell s))
    (sc_shell st) ->
  scan_entry ffp shell_index nshell_found bt atom at2cg a_offset mb ia i st
  = Done (nra, st') ->
  Forall (fun s => shell s <> -1 -> shell_typed types (shell s))
    (sc_shell st').
Proof.
  intros Halign Hwp HJ H. unfold scan_entry in H.
  obind_as H type Htype. obind_as H ftype Hftype.
  obind_as H [aS aN] Hfind. obind_as H st2 Hst2. injection H as _ <-.
  destruct (Z.eqb_spec aS (-1)) as [->|Hne]; cbn [negb] in Hst2.
  - injection Hst2 as <-. exact HJ.
  - assert (Hshell : exists atS,
              aget atom aS = Done atS /\ atom_ptype atS = eptShell).
    { assert (Hdec : bt = F_WATER_POL \/ bt <> F_WATER_POL)
        by (destruct bt; (left; reflexivity) || (right; discriminate)).
      destruct Hdec as [->|Hbt].
      - destruct (Hwp eq_refl) as (a5 & at5 & H5 & Hat5 & Hp5).
        apply find_shell_water_pol in Hfind. rewrite Hfind in H5.
        injection H5 as <-. exists at5. split; assumption.
      - destruct (find_shell_typed _ _ _ _ _ _ _ Hbt Hfind) as [|Hs];
          [contradiction|exact Hs]. }
    destruct Hshell as (atS & HatS & HpS).
    apply attach_shell_Done in Hst2
      as (nsi & s0 & s4 & Hoff & _ & _ & Hs0 & -> & Hsh & _).
    apply Forall_insert; [exact HJ|].
    intros _. rewrite Hsh. split; [exact Hoff|].
    rewrite (Halign aS atS HatS), HpS. reflexivity.
Qed.

Lemma scan_ilist_typed (fuel : nat) (bt : ftype_t) (atom : list t_atom)
    (at2cg : list Z) (a_offset mb : Z) (il : t_ilist) :
  (forall a atA,
     aget atom a = Done atA ->
     types !! Z.to_nat (a_offset + a) = Some (atom_ptype atA)) ->
  (bt = F_WATER_POL ->
   forall i,
     entry_at ffp il i ->
     exists a5 at5,
       aget (il_iatoms il) (i + 5) = Done a5 /\ aget atom a5 = Done at5
       /\ atom_ptype at5 = eptShell) ->
  forall (i : Z) (st st' : scan_state),
    (i < il_nr il -> entry_at ffp il i) ->
    Forall (fun s => shell s <> -1 -> shell_typed types (shell s))
      (sc_shell st) ->
    scan_ilist ffp shell_index nshell_found fuel bt atom at2cg a_offset mb
      il i st = Done st' ->
    Forall (fun s => shell s <> -1 -> shell_typed types (shell s))
      (sc_shell st').
Proof.
  intros Halign Hwp.
  induction fuel as [|fuel IH]; intros i st st' Hentry HJ H;
    cbn [scan_ilist] in H; destruct (Z.ltb_spec i (il_nr il)) as [Hlt|Hge].
  - discriminate.
  - injection H as <-. exact HJ.
  - obind_as H [nra st1] Hscan.
    pose proof Hscan as Hscan'. unfold scan_entry in Hscan'.
    obind_as Hscan' type Htype. obind_as Hscan' ftype Hftype.
    obind_as Hscan' [aS aN] Hfind. obind_as Hscan' st2 Hst2.
    injection Hscan' as Hnra _.
    apply (IH (i + (Z.of_nat nra + 1)) st1 st'); [| |exact H].
    + intros Hnext. subst nra.
      apply (entry_next ffp il i type ftype); auto.
    + eapply scan_entry_typed; [exact Halign| |exact HJ|exact Hscan].
      intros Hbt. apply (Hwp Hbt i). apply Hentry. exact Hlt.
  - injection H as <-. exact HJ.
Qed.
End ScanTyped.

(** After the scan of a topology whose water-polarization entries name
    shell-typed particles, every claimed record belongs to a shell-typed
    particle. *)
Lemma scan_topology_typed {hdr : Headers} (mtop : gmx_mtop_t)
    (shell_index : list Z) (nshell_found : Z) (st0 st : scan_state) :
  water_pol_shells_typed mtop ->
  Forall (fun s => shell s <> -1 -> shell_particle mtop (shell s))
    (sc_shell st0) ->
  scan_topology (ffparams mtop) shell_index nshell_found mtop st0 = Done st ->
  Forall (fun s => shell s <> -1 -> shell_particle mtop (shell s))
    (sc_shell st).
Proof.
  intros Hwf HJ0 H. unfold scan_topology in H. obind_as H r Hr.
  injection H as <-. unfold shell_particle in *.
  set (types := mtop_ptypes mtop) in *.
  set (J := fun st1 : scan_state =>
              Forall (fun s => shell s <> -1 -> shell_typed types (shell s))
                (sc_shell st1)).
  set (F := fun molb =>
              match aget (moltype mtop) (mb_type molb) with
              | Done molt =>
                  concat (replicate (Z.to_nat (mb_nmol molb))
                            (map atom_ptype (mt_atoms molt)))
              | _ => []
              end).
  assert (Hmol : forall (molt : gmx_moltype_t) (at2cg : list Z) (mb : Z)
                   (pre post : list ptype_t) (st1 st2 : scan_state),
            molt ∈ moltype mtop ->
            types = pre ++ map atom_ptype (mt_atoms molt) ++ post ->
            J st1 ->
            scan_molecule (ffparams mtop) shell_index nshell_found molt at2cg
              (Z.of_nat (length pre)) mb st1 = Done st2 ->
            J st2).
  { intros molt at2cg mb pre post st1 st2 Hin Htypes HJ Hscan.
    unfold scan_molecule in Hscan.
    refine (ofold_inv J _ _ _ _ _ HJ Hscan).
    intros s2 bt s3 Hs2 Hil.
    refine (scan_ilist_typed (ffparams mtop) shell_index nshell_found types
              _ bt (mt_atoms molt) at2cg (Z.of_nat (length pre)) mb
              (mt_ilist molt bt) _ _ 0 s2 s3 _ Hs2 Hil).
    - intros a atA Ha. apply aget_Done in Ha as [Ha0 Ha].
      rewrite Htypes.
      replace (Z.to_nat (Z.of_nat (length pre) + a))
        with (length pre + Z.to_nat a)%nat by lia.
      rewrite lookup_app_r by lia.
      replace (length pre + Z.to_nat a - length pre)%nat with (Z.to_nat a)
        by lia.
      rewrite lookup_app_l
        by (rewrite length_map; eapply lookup_lt_Some; exact Ha).
      rewrite lookup_map, Ha. reflexivity.
    - intros -> i Hi. apply (Hwf molt i Hin Hi).
    - intros Hlt. apply entry_first. exact Hlt. }
  assert (Hblock : forall (molt : gmx_moltype_t) (at2cg : list Z) (mb : Z)
                     (count : nat) (pre post : list ptype_t)
                     (off off' : Z) (st1 st2 : scan_state),
            molt ∈ moltype mtop ->
            types
            = pre ++ concat (replicate count (map atom_ptype (mt_atoms molt)))
              ++ post ->
            off = Z.of_nat (length pre) ->
            J st1 ->
            orepeat count
              (fun '(a_offset, st) =>
                 let* st' :=
                   scan_molecule (ffparams mtop) shell_index nshell_found molt
                     at2cg a_offset mb st in
                 Done (a_offset + atoms_nr molt, st'))
              (off, st1) = Done (off', st2) ->
            off'
            = Z.of_nat
                (length
                   (pre ++ concat (replicate count
                                     (map atom_ptype (mt_atoms molt)))))
            /\ J st2).
  { intros molt at2cg mb count.
    induction count as [|c IH];
      intros pre post off off' st1 st2 Hin Htypes Hoff HJ H;
      cbn [orepeat replicate concat] in H, Htypes |- *.
    - injection H as <- <-. rewrite app_nil_r. split; assumption.
    - obind_as H [off1 st1'] H1. obind_as H1 st1'' Hscan.
      inversion H1; subst off1 st1'; clear H1. rewrite app_assoc.
      rewrite <- app_assoc in Htypes.
      apply (IH (pre ++ map atom_ptype (mt_atoms molt)) post
               (off + atoms_nr molt) off' st1'' st2 Hin).
      + rewrite <- app_assoc. exact Htypes.
      + rewrite length_app, length_map. unfold atoms_nr. lia.
      + subst off. eapply Hmol; [exact Hin|exact Htypes|exact HJ|exact Hscan].
      + exact H. }
  assert (Hgen : forall (blocks : list gmx_molblock_t)
                   (pre post : list ptype_t) (mb mb' off off' : Z)
                   (st1 st2 : scan_state),
            types = pre ++ flat_map F blocks ++ post ->
            off = Z.of_nat (length pre) ->
            J st1 ->
            ofold
              (fun '(mb, acc) molb =>
                 let* molt := aget (moltype mtop) (mb_type molb) in
                 let* acc' :=
                   scan_molblock (ffparams mtop) shell_index nshell_found molt
                     (mb_nmol molb) mb acc in
                 Done (mb + 1, acc'))
              blocks (mb, (off, st1)) = Done (mb', (off', st2)) ->
            J st2).
  { induction blocks as [|molb blocks IH];
      intros pre post mb mb' off off' st1 st2 Htypes Hoff HJ H;
      cbn [ofold flat_map] in H, Htypes.
    - injection H as _ _ <-. exact HJ.
    - obind_as H [mb1 [off1 st1']] H1. obind_as H1 molt Hmolt.
      obind_as H1 acc1 Hb. inversion H1; subst mb1 acc1; clear H1.
      unfold scan_molblock in Hb. obind_as Hb at2cg Hat2cg.
      assert (Hin : molt ∈ moltype mtop).
      { apply aget_Done in Hmolt as [_ Hmolt].
        eapply list_elem_of_lookup_2. exact Hmolt. }
      assert (HF : F molb
                   = concat (replicate (Z.to_nat (mb_nmol molb))
                               (map atom_ptype (mt_atoms molt)))).
      { unfold F. rewrite Hmolt. reflexivity. }
      rewrite HF, <- app_assoc in Htypes.
      destruct (Hblock molt at2cg mb (Z.to_nat (mb_nmol molb)) pre
                  (flat_map F blocks ++ post) off off1 st1 st1' Hin Htypes
                  Hoff HJ Hb) as [Hoff1 HJ1].
      apply (IH (pre ++ concat (replicate (Z.to_nat (mb_nmol molb))
                                  (map atom_ptype (mt_atoms molt))))
               post (mb + 1) mb' off1 off' st1' st2);
        [|exact Hoff1|exact HJ1|exact H].
      rewrite <- app_assoc. exact Htypes. }
  destruct r as [mb' [off' st']]. cbn [snd].
  apply (Hgen (molblock mtop) [] [] 0 mb' 0 off' st0 st');
    [|reflexivity|exact HJ0|exact Hr].
  cbn [app]. rewrite app_nil_r. reflexivity.
Qed.

(** Fuel beyond [nr - i] rounds changes nothing: the scan of an
    interaction list never stops for lack of fuel. *)
Lemma scan_ilist_fuel {hdr : Headers} (ffp : gmx_ffparams_t)
    (shell_index : list Z) (nshell_found : Z) (bt : ftype_t)
    (atom : list t_atom) (at2cg : list Z) (a_offset mb : Z) (il : t_ilist)
    (fuel : nat) :
  forall (i : Z) (st : scan_state),
    il_nr il - i <= Z.of_nat fuel ->
    scan_ilist ffp shell_index nshell_found (S fuel) bt atom at2cg a_offset mb
      il i st
    = scan_ilist ffp shell_index nshell_found fuel bt atom at2cg a_offset mb
        il i st.
Proof.
  induction fuel as [|fuel IH]; intros i st Hfuel.
  - cbn [scan_ilist]. destruct (Z.ltb_spec i (il_nr il)); [lia|reflexivity].
  - cbn [scan_ilist]. destruct (i <? il_nr il); [|reflexivity].
    destruct (scan_entry ffp shell_index nshell_found bt atom at2cg a_offset
                mb (il_iatoms il) i st) as [[nra st']| |];
      cbn [obind]; try reflexivity.
    apply (IH (i + (Z.of_nat nra + 1)) st'). lia.
Qed.

(** A heavy particle that arrives at a shell whose three slots are taken
    ends the scan with "Can not handle more than three bonds per shell". *)
Lemma attach_shell_fourth {hdr : Headers} (ffp : gmx_ffparams_t)
    (shell_index : list Z) (nshell_found : Z) (bt : ftype_t)
    (atom : list t_atom) (at2cg : list Z) (a_offset mb type aS aN : Z)
    (st : scan_state) (atS : t_atom) (nsi : Z) (s0 : t_shell) :
  aget atom aS = Done atS ->
  aget shell_index (a_offset + aS) = Done nsi ->
  0 <= nsi < nshell_found ->
  aget (sc_shell st) nsi = Done s0 ->
  shell s0 = -1 \/ shell s0 = a_offset + aS ->
  nucl1 s0 <> -1 -> nucl2 s0 <> -1 -> nucl3 s0 <> -1 ->
  attach_shell ffp shell_index nshell_found bt atom at2cg a_offset mb type
    aS aN st = Fatal FatalTooManyBonds.
Proof.
  intros HatS Hnsi Hrange Hs0 Hsh H1 H2 H3. unfold attach_shell.
  rewrite HatS. cbn [obind]. rewrite Hnsi. cbn [obind].
  destruct (Z.ltb_spec nsi 0); [lia|].
  destruct (nsi >=? nshell_found) eqn:E; [lia|]. cbn [orb].
  rewrite Hs0. cbn [obind].
  destruct (Z.eqb_spec (shell s0) (-1)) as [Em|Em]; cbn [obind].
  - rewrite attach_nucleus_full by assumption. reflexivity.
  - destruct (Z.eqb_spec (shell s0) (a_offset + aS)); [|lia]. cbn [negb obind].
    rewrite attach_nucleus_full by assumption. reflexivity.
Qed.

(** C1: for a topology with shell-typed particles, (1) whenever
    [init_shell_flexcon] returns, every record of the global shell table
    has [nnucl] equal to 1, 2 or 3; (2) attaching a heavy particle to a
    shell whose three slots are in use is the fatal error
    [FatalTooManyBonds]; (3) after a scan that has come to its end,
    set-up ends in the fatal error [FatalShellsNotBonded] exactly when
    the number of records that a particle has claimed differs from the
    number of shell-typed particles; (4) that is the case whenever some
    shell-typed particle is the shell of no record, nothing having been
    attached to it, while every claimed record belongs to a shell-typed
    particle; (5) and every claimed record does belong to a shell-typed
    particle when every water-polarization entry of the topology names a
    shell-typed particle as its shell, the scan testing the particle
    type itself for every other kind of bond. *)
Theorem C1_shell_records_have_one_to_three_nuclei {hdr : Headers}
    (shfc : gmx_shellfc) (ir : t_inputrec) (env : environment)
    (mtop : gmx_mtop_t) (nflexcon_arg nstcalcenergy : Z) (n : nptype_t) :
  countPtypes mtop = Done n ->
  n eptShell <> 0 ->
  (forall shfc',
     init_shell_flexcon shfc ir env mtop nflexcon_arg nstcalcenergy
     = Done shfc' ->
     Forall nnucl_1_to_3 (shell_gl shfc'))
  /\ (forall ffp shell_index nshell_found bt atom at2cg a_offset mb type aS aN
        st atS nsi s0,
        aget atom aS = Done atS ->
        aget shell_index (a_offset + aS) = Done nsi ->
        0 <= nsi < nshell_found ->
        aget (sc_shell st) nsi = Done s0 ->
        shell s0 = -1 \/ shell s0 = a_offset + aS ->
        nucl1 s0 <> -1 -> nucl2 s0 <> -1 -> nucl3 s0 <> -1 ->
        attach_shell ffp shell_index nshell_found bt atom at2cg a_offset mb
          type aS aN st = Fatal FatalTooManyBonds)
  /\ (forall shell_index nshell_found st,
        nstcalcenergy = 1 ->
        make_shell_index mtop = Done (shell_index, nshell_found) ->
        scan_topology (ffparams mtop) shell_index nshell_found mtop
          (mk_scan (replicate (Z.to_nat nshell_found) shell_init) 0 0 false)
        = Done st ->
        (init_shell_flexcon shfc ir env mtop nflexcon_arg nstcalcenergy
         = Fatal FatalShellsNotBonded
         <-> n_bonded (sc_shell st) <> Z.of_nat (n_shells (mtop_ptypes mtop))))
  /\ (forall shell_index nshell_found st g,
        nstcalcenergy = 1 ->
        make_shell_index mtop = Done (shell_index, nshell_found) ->
        scan_topology (ffparams mtop) shell_index nshell_found mtop
          (mk_scan (replicate (Z.to_nat nshell_found) shell_init) 0 0 false)
        = Done st ->
        Forall (fun s => shell s <> -1 -> shell_particle mtop (shell s))
          (sc_shell st) ->
        shell_particle mtop g ->
        Forall (fun s => shell s <> g) (sc_shell st) ->
        init_shell_flexcon shfc ir env mtop nflexcon_arg nstcalcenergy
        = Fatal FatalShellsNotBonded)
  /\ (forall shell_index nshell_found st g,
        nstcalcenergy = 1 ->
        make_shell_index mtop = Done (shell_index, nshell_found) ->
        scan_topology (ffparams mtop) shell_index nshell_found mtop
          (mk_scan (replicate (Z.to_nat nshell_found) shell_init) 0 0 false)
        = Done st ->
        water_pol_shells_typed mtop ->
        shell_particle mtop g ->
        Forall (fun s => shell s <> g) (sc_shell st) ->
        init_shell_flexcon shfc ir env mtop nflexcon_arg nstcalcenergy
        = Fatal FatalShellsNotBonded).
Proof.
  intros Hn Hshell.
  assert (Hend : forall shell_index nshell_found st,
            nstcalcenergy = 1 ->
            make_shell_index mtop = Done (shell_index, nshell_found) ->
            scan_topology (ffparams mtop) shell_index nshell_found mtop
              (mk_scan (replicate (Z.to_nat nshell_found) shell_init) 0 0
                 false)
            = Done st ->
            init_shell_flexcon shfc ir env mtop nflexcon_arg nstcalcenergy
            = (if negb (sc_ns st =? nshell_found)
               then Fatal FatalShellsNotBonded
               else Done (finish_init (set_nflexcon shfc nflexcon_arg) ir env
                            (sc_ns st)
                            (map (fun s => set_k_1 s (1 / k s)%Q) (sc_shell st))
                            shell_index (sc_bInterCG st)))).
  { intros shell_index nshell_found st -> Hidx Hscan.
    unfold init_shell_flexcon. rewrite Hn. cbn [obind].
    destruct (Z.eqb_spec (n eptShell) 0) as [|_]; [contradiction|].
    cbn [andb negb Z.eqb Pos.eqb]. rewrite Hidx. cbn [obind].
    rewrite Hscan. reflexivity. }
  assert (Hloose : forall shell_index nshell_found st g,
            nstcalcenergy = 1 ->
            make_shell_index mtop = Done (shell_index, nshell_found) ->
            scan_topology (ffparams mtop) shell_index nshell_found mtop
              (mk_scan (replicate (Z.to_nat nshell_found) shell_init) 0 0
                 false)
            = Done st ->
            Forall (fun s => shell s <> -1 -> shell_particle mtop (shell s))
              (sc_shell st) ->
            shell_particle mtop g ->
            Forall (fun s => shell s <> g) (sc_shell st) ->
            init_shell_flexcon shfc ir env mtop nflexcon_arg nstcalcenergy
            = Fatal FatalShellsNotBonded).
  { intros shell_index nshell_found st g Hnst Hidx Hscan Hwf Hg Hnone.
    rewrite (Hend _ _ _ Hnst Hidx Hscan).
    destruct (Z.eqb_spec (sc_ns st) nshell_found) as [E|E]; cbn [negb];
      [|reflexivity].
    exfalso.
    destruct (scan_topology_all_attached _ _ _ _ _ Hidx Hscan Hwf Hg E)
      as (s & Hin & Hs).
    rewrite Forall_forall in Hnone. exact (Hnone s Hin Hs). }
  split; [|split; [|split; [|split]]].
  - intros shfc' H. unfold init_shell_flexcon in H. rewrite Hn in H.
    cbn [obind] in H.
    destruct (Z.eqb_spec (n eptShell) 0) as [|_]; [contradiction|].
    cbn [andb] in H.
    destruct (negb (nstcalcenergy =? 1)); [discriminate|].
    obind_inv H. destruct a as [shell_index nshell1].
    obind_inv H. rename a into st.
    destruct (Z.eqb_spec (sc_ns st) nshell1) as [Hfull|]; [|discriminate].
    cbn [negb] in H. injection H as <-. cbn [finish_init shell_gl].
    apply Forall_fmap.
    pose proof (scan_topology_inv _ _ _ _ _ _ _ (scan_inv_init _) Ha0) as Hinv.
    assert (Hlen : sc_ns st = Z.of_nat (Z.to_nat nshell1)).
    { destruct Hinv as (Hl & _ & Hns).
      pose proof (n_bonded_bounds (sc_shell st)). lia. }
    eapply Forall_impl; [exact (scan_inv_complete _ _ Hinv Hlen)|].
    intros s Hs. exact Hs.
  - intros. eapply attach_shell_fourth; eassumption.
  - intros shell_index nshell_found st Hnst Hidx Hscan.
    rewrite (Hend _ _ _ Hnst Hidx Hscan).
    destruct (make_shell_index_numbers _ _ _ Hidx) as [Hnum _].
    pose proof (scan_topology_inv _ _ _ _ _ _ _ (scan_inv_init _) Hscan)
      as (_ & _ & Hns).
    rewrite <- Hnum, <- Hns.
    destruct (Z.eqb_spec (sc_ns st) nshell_found) as [E|E]; cbn [negb].
    + split; [discriminate|contradiction].
    + split; [intros _; exact E|reflexivity].
  - exact Hloose.
  - intros shell_index nshell_found st g Hnst Hidx Hscan Hwp Hg Hnone.
    apply (Hloose shell_index nshell_found st g); try assumption.
    refine (scan_topology_typed mtop shell_index nshell_found _ st Hwp _
              Hscan).
    cbn [sc_shell]. apply Forall_replicate. intros H. contradiction H.
    reflexivity.
Qed.

Lemma C1_witness :
  Forall nnucl_1_to_3 (shell_gl example_shfc)
  /\ @init_shell_flexcon example_headers shfc_zero example_ir example_env
       (example_mtop loose_shell 1) 0 1 = Fatal FatalShellsNotBonded
  /\ @init_shell_flexcon example_headers shfc_zero example_ir example_env
       water_pol_loose_mtop 0 1 = Fatal FatalShellsNotBonded.
Proof.
  split; [|split].
  - refine (proj1 (@C1_shell_records_have_one_to_three_nuclei example_headers
              shfc_zero example_ir example_env (example_mtop drude_pair 2) 0 1
              _ _ _) example_shfc _).
    + reflexivity.
    + vm_compute. discriminate.
    + vm_compute. reflexivity.
  - refine (proj1 (proj2 (proj2 (proj2
              (@C1_shell_records_have_one_to_three_nuclei example_headers
                 shfc_zero example_ir example_env (example_mtop loose_shell 1)
                 0 1 _ _ _)))) [0; 0; 1] 2 loose_scan 1 _ _ _ _ _ _).
    + reflexivity.
    + vm_compute. discriminate.
    + reflexivity.
    + reflexivity.
    + vm_compute. reflexivity.
    + apply Forall_cons. split.
      * intros H. exfalso. apply H. reflexivity.
      * apply Forall_cons. split; [|apply Forall_nil; exact I].
        intros _. split; [vm_compute; discriminate|reflexivity].
    + split; [vm_compute; discriminate|reflexivity].
    + apply Forall_cons. split; [vm_compute; discriminate|].
      apply Forall_cons. split; [vm_compute; discriminate|].
      apply Forall_nil. exact I.
  - refine (proj2 (proj2 (proj2 (proj2
              (@C1_shell_records_have_one_to_three_nuclei example_headers
                 shfc_zero example_ir example_env water_pol_loose_mtop
                 0 1 _ _ _)))) [0; 0; 0; 0; 0; 1] 2 water_pol_loose_scan 1
              _ _ _ _ _ _).
    + reflexivity.
    + vm_compute. discriminate.
    + reflexivity.
    + reflexivity.
    + vm_compute. reflexivity.
    + intros molt i Hin Hentry.
      apply list_elem_of_singleton in Hin. subst molt.
      assert (Hi : i = 0).
      { destruct Hentry as [_|i0 type ftype Hi0 Htype Hftype Hlt];
          [reflexivity|].
        exfalso. apply entry_at_range in Hi0.
        apply aget_Done in Hftype as [Ht0 Hftype].
        cbn [ffparams water_pol_loose_mtop functype] in Hftype.
        destruct (Z.to_nat type) as [|t]; [|destruct t; discriminate Hftype].
        injection Hftype as <-.
        cbn [mt_ilist water_pol_loose il_nr nratoms example_headers] in *.
        lia. }
      subst i. exists 5, (mk_atom (4 # 10) (-1) (-1) eptShell).
      split; [reflexivity|]. split; reflexivity.
    + split; [vm_compute; discriminate|reflexivity].
    + apply Forall_cons. split; [vm_compute; discriminate|].
      apply Forall_cons. split; [vm_compute; discriminate|].
      apply Forall_nil. exact I.
Defined.

(** The claim at [water_pol_mtop]: particle 1 is shell-typed and is the
    shell of no record of the table, nothing having been attached to
    it, and yet set-up returns instead of ending in a fatal error.  The
    one record of the table belongs to particle 5, which the
    water-polarization entry names as its shell and which is not
    shell-typed: the scan tests the type of the particles of a bond, not
    of those of a water-polarization entry, and the shell index of a
    particle that is not shell-typed is 0, the number of the first
    shell. *)
Lemma C1_counterexample :
  shell_particle water_pol_mtop 1
  /\ @init_shell_flexcon example_headers shfc_zero example_ir example_env
       water_pol_mtop 0 1 = Done water_pol_shfc
  /\ Forall (fun s => shell s <> 1) (shell_gl water_pol_shfc)
  /\ map (fun s => (nnucl s, shell s, nucl1 s)) (shell_gl water_pol_shfc)
     = [(1, 5, 4)]
  /\ ~ shell_particle water_pol_mtop 5.
Proof.
  split; [split; [vm_compute; discriminate|reflexivity]|].
  split; [vm_compute; reflexivity|].
  split; [apply Forall_cons; split; [vm_compute; discriminate|];
          apply Forall_nil; exact I|].
  split; [vm_compute; reflexivity|].
  intros [_ H]. vm_compute in H. discriminate H.
Qed.

(** The two fatal errors on concrete topologies: four bonds on one shell,
    and a shell that nothing is bonded to. *)
Example four_bonds_rejected :
  @init_shell_flexcon example_headers shfc_zero example_ir example_env
    (example_mtop four_bonds 1) 0 1 = Fatal FatalTooManyBonds.
Proof. vm_compute. reflexivity. Qed.

Example loose_shell_rejected :
  @init_shell_flexcon example_headers shfc_zero example_ir example_env
    (example_mtop loose_shell 1) 0 1 = Fatal FatalShellsNotBonded.
Proof. vm_compute. reflexivity. Qed.

(** ** The adaptive step of the shell steepest descent *)

Lemma adapt_step_zero_df {hdr : Headers} (step_d dx df : real) :
  Qeq_bool 0 df = true ->
  adapt_step step_d dx df
  = if gmx_numzero dx then step_d else (step_d * step_scale_max)%Q.
Proof. intros H. unfold adapt_step. rewrite H. reflexivity. Qed.

(** C5, as the code has it: on an iteration after the first
    ([count <> 1]), when the force difference of a component is exactly
    zero, the step of that component is left as it is if the position
    component did not change either ([gmx_numzero dx]), and is multiplied
    by [step_scale_max] if the position did change. *)
Theorem C5_step_when_force_delta_is_zero {hdr : Headers}
    (xcur f : list rvec) (count : Z) (si si' : t_shell) (xc fc xn : rvec)
    (d : dim) :
  count <> 1 ->
  aget xcur (shell si) = Done xc ->
  aget f (shell si) = Done fc ->
  Qeq_bool 0 (rcomp fc d - rcomp (fold si) d) = true ->
  shell_pos_sd_1 xcur f count si = Done (si', xn) ->
  rcomp (step si') d
  = if gmx_numzero (rcomp xc d - rcomp (xold si) d)
    then rcomp (step si) d
    else (rcomp (step si) d * step_scale_max)%Q.
Proof.
  intros Hcount Hxc Hfc Hdf H. unfold shell_pos_sd_1 in H.
  rewrite Hxc, Hfc in H. cbn [obind] in H.
  destruct (Z.eqb_spec count 1) as [|_]; [contradiction|].
  injection H as <- _. cbn [step set_xold_fold set_step].
  destruct d; cbn [rcomp rvec_of XX YY ZZ] in *;
    apply adapt_step_zero_df; exact Hdf.
Qed.

Lemma C5_witness :
  exists si' xn,
    @shell_pos_sd_1 example_headers [rvec_zero] [rvec_zero] 2
      (set_shell (set_step shell_init (mk_rvec 1 1 1)) 0) = Done (si', xn)
    /\ rcomp (step si') dXX = 1%Q.
Proof.
  eexists _, _. split; [reflexivity|].
  erewrite (@C5_step_when_force_delta_is_zero example_headers
             [rvec_zero] [rvec_zero] 2
             (set_shell (set_step shell_init (mk_rvec 1 1 1)) 0) _
             rvec_zero rvec_zero _ dXX);
    first [reflexivity | lia].
Defined.

(** The specification has the two cases the other way round (step
    increased when the position did not change, left alone otherwise).
    With step 1 and force difference 0, an unchanged position leaves the
    step at 1, and a position that moved by 1 gives the step 12/10. *)
Lemma C5_counterexample :
  @adapt_step example_headers 1 0 0 = 1%Q
  /\ ~ (@adapt_step example_headers 1 0 0 == 1 * step_scale_max)%Q
  /\ (@adapt_step example_headers 1 1 0 == 12 # 10)%Q
  /\ ~ (@adapt_step example_headers 1 1 0 == 1)%Q.
Proof.
  repeat split.
  - vm_compute. discriminate.
  - vm_compute. discriminate.
Qed.

(** ** The predictor *)

Lemma aset_lookup_same {A : Type} (l l' : list A) (i : Z) (a : A) :
  aset l i a = Done l' -> l' !! Z.to_nat i = Some a.
Proof.
  intros H. apply aset_Done in H as [Hi ->].
  apply list_lookup_insert_eq. lia.
Qed.

Lemma aset_lookup_other {A : Type} (l l' : list A) (i : Z) (a : A) (j : nat) :
  aset l i a = Done l' -> j <> Z.to_nat i -> l' !! j = l !! j.
Proof.
  intros H Hj. apply aset_Done in H as [Hi ->].
  apply list_lookup_insert_ne. auto.
Qed.

(** One round of the loop leaves every position but the one of the shell
    of its record alone, and moves that shell by the weighted velocity
    times [dt_1] when the masses of its nuclei do not sum to zero. *)
Lemma predict_shell_1_ordinary (v : list rvec) (dt_1 : real)
    (mass : list real) (i : Z) (si : t_shell) (x x' : list rvec) :
  predict_shell_1 v dt_1 (Some mass) [] false i si x = Done x' ->
  0 <= shell si
  /\ (forall j, j <> Z.to_nat (shell si) -> x' !! j = x !! j)
  /\ exists xs xs',
       x !! Z.to_nat (shell si) = Some xs
       /\ x' !! Z.to_nat (shell si) = Some xs'
       /\ (mass_sum_nonzero mass si = true ->
           forall d,
             exists w, weighted_velocity v mass si d = Done w
                       /\ (rcomp xs' d == rcomp xs d + w * dt_1)%Q).
Proof.
  unfold predict_shell_1, weighted_velocity, nucleus_mass, mass_sum_nonzero.
  cbn [obind].
  intros H.
  destruct (nnucl si) as [|[[|[]|]|[|[]|]|]|]; try discriminate.
  - (* three nuclei *)
    obind_inv H. rename a into m1. rename Ha into Hm1.
    obind_inv H. rename a into m2. rename Ha into Hm2.
    obind_inv H. rename a into m3. rename Ha into Hm3.
    obind_inv H. rename a into p1. rename Ha into Hp1.
    obind_inv H. rename a into p2. rename Ha into Hp2.
    obind_inv H. rename a into p3. rename Ha into Hp3.
    obind_inv H. rename a into xs. rename Ha into Hxs.
    apply aget_Done in Hxs as [Hsh Hxs]. split; [exact Hsh|].
    split; [intros j Hj; eapply aset_lookup_other; eauto|].
    eexists xs, _. split; [exact Hxs|]. split; [eapply aset_lookup_same; eauto|].
    rewrite Hm1, Hm2, Hm3. intros Hnz d.
    apply negb_true_iff, Qeq_bool_neq in Hnz.
    rewrite Hp1, Hp2, Hp3. cbn [obind].
    eexists. split; [reflexivity|].
    destruct d; cbn [rcomp rvec_of XX YY ZZ]; field; exact Hnz.
  - (* two nuclei *)
    obind_inv H. rename a into m1. rename Ha into Hm1.
    obind_inv H. rename a into m2. rename Ha into Hm2.
    obind_inv H. rename a into p1. rename Ha into Hp1.
    obind_inv H. rename a into p2. rename Ha into Hp2.
    obind_inv H. rename a into xs. rename Ha into Hxs.
    apply aget_Done in Hxs as [Hsh Hxs]. split; [exact Hsh|].
    split; [intros j Hj; eapply aset_lookup_other; eauto|].
    eexists xs, _. split; [exact Hxs|]. split; [eapply aset_lookup_same; eauto|].
    rewrite Hm1, Hm2. intros Hnz d.
    apply negb_true_iff, Qeq_bool_neq in Hnz.
    rewrite Hp1, Hp2. cbn [obind].
    eexists. split; [reflexivity|].
    destruct d; cbn [rcomp rvec_of XX YY ZZ]; field; exact Hnz.
  - (* one nucleus *)
    obind_inv H. rename a into p1. rename Ha into Hp1.
    obind_inv H. rename a into xs. rename Ha into Hxs.
    apply aget_Done in Hxs as [Hsh Hxs]. split; [exact Hsh|].
    split; [intros j Hj; eapply aset_lookup_other; eauto|].
    eexists xs, _. split; [exact Hxs|]. split; [eapply aset_lookup_same; eauto|].
    intros _ d. rewrite Hp1. cbn [obind].
    eexists. split; [reflexivity|].
    destruct d; cbn [rcomp rvec_of XX YY ZZ]; ring.
Qed.

Lemma in_zrange (lo hi i : Z) : In i (zrange lo hi) <-> lo <= i < hi.
Proof.
  unfold zrange. rewrite in_map_iff. split.
  - intros (n & <- & Hn). apply in_seq in Hn. lia.
  - intros Hi. exists (Z.to_nat (i - lo)). split; [lia|].
    apply in_seq. lia.
Qed.

Lemma NoDup_zrange (lo hi : Z) : List.NoDup (zrange lo hi).
Proof.
  unfold zrange. apply Finite.Injective_map_NoDup.
  - intros a b Hab. lia.
  - apply List.seq_NoDup.
Qed.

(** The loop of the predictor over a list of distinct table indices. *)
Lemma predict_loop_ordinary (v : list rvec) (dt_1 : real) (mass : list real)
    (s : list t_shell) :
  (forall i j si sj,
     s !! i = Some si -> s !! j = Some sj -> shell si = shell sj -> i = j) ->
  forall (idx : list Z), List.NoDup idx ->
  forall (x x' : list rvec),
    ofold (fun x i =>
             let* si := aget s i in
             predict_shell_1 v dt_1 (Some mass) [] false i si x) idx x
    = Done x' ->
    (forall j, 0 <= j ->
       (forall i si, In i idx -> s !! Z.to_nat i = Some si -> j <> shell si) ->
       x' !! Z.to_nat j = x !! Z.to_nat j)
    /\ (forall i si, In i idx -> 0 <= i -> s !! Z.to_nat i = Some si ->
          0 <= shell si
          /\ exists xs xs',
               x !! Z.to_nat (shell si) = Some xs
               /\ x' !! Z.to_nat (shell si) = Some xs'
               /\ (mass_sum_nonzero mass si = true ->
                   forall d,
                     exists w, weighted_velocity v mass si d = Done w
                               /\ (rcomp xs' d == rcomp xs d + w * dt_1)%Q)).
Proof.
  intros Hdistinct idx. induction idx as [|i0 idx IH]; intros Hnd x x' H.
  - cbn in H. injection H as <-. split; [reflexivity|]. intros i si [].
  - cbn [ofold] in H. obind_inv H. rename a into x1.
    obind_inv Ha. rename a into si0. rename Ha0 into Hsi0.
    apply aget_Done in Hsi0 as [Hi0 Hsi0].
    apply predict_shell_1_ordinary in Ha as (Hsh0 & Hother0 & Hself0).
    inversion Hnd as [|? ? Hnotin Hnd']; subst.
    destruct (IH Hnd' _ _ H) as [IH1 IH2]. split.
    + intros j Hj Hfree. rewrite IH1.
      * apply Hother0. specialize (Hfree i0 si0 (or_introl eq_refl) Hsi0). lia.
      * exact Hj.
      * intros i si Hin. apply Hfree. right. exact Hin.
    + intros i si [<-|Hin] Hi Hsi.
      * rewrite Hsi0 in Hsi. injection Hsi as <-. split; [exact Hsh0|].
        destruct Hself0 as (xs & xs' & Hxs & Hxs' & Hrel).
        exists xs, xs'. split; [exact Hxs|]. split; [|exact Hrel].
        rewrite IH1; [exact Hxs'|exact Hsh0|].
        intros i si Hin Hsi Heq.
        assert (Z.to_nat i0 = Z.to_nat i) by (eapply Hdistinct; eauto).
        specialize (IH2 i si Hin).
        assert (0 <= i \/ i < 0) as [Hpos|Hneg] by lia.
        -- assert (i0 = i) by lia. subst. contradiction.
        -- (* a negative index is never read successfully *)
           clear - H Hin Hneg. revert x1 H.
           induction idx as [|a idx IHidx]; intros x1 H; [destruct Hin|].
           cbn [ofold] in H. obind_inv H. obind_inv Ha.
           destruct Hin as [->|Hin].
           ++ apply aget_Done in Ha0 as [? _]. lia.
           ++ eapply IHidx; eauto.
      * destruct (IH2 i si Hin Hi Hsi) as (Hsh & xs & xs' & Hxs & Hxs' & Hrel).
        split; [exact Hsh|]. exists xs, xs'. split; [|split; assumption].
        rewrite <- Hother0; [exact Hxs|].
        intros Heq. assert (shell si = shell si0) by lia.
        assert (Z.to_nat i = Z.to_nat i0) by (eapply Hdistinct; eauto).
        assert (i = i0) by lia. subst. contradiction.
Qed.

(** C6, as the code has it: on an ordinary step ([bInit] false, masses
    taken from [mass]) and for a table that lists every shell once, the
    predictor moves each shell whose nuclei have masses that do not sum
    to zero by the mass-weighted average of the velocities of its one to
    three nuclei times the time step [dt] itself: the factor [fudge]
    is 1. *)
Theorem C6_predictor_uses_full_time_step (x v : list rvec) (dt : real)
    (ns : Z) (s : list t_shell) (mass : list real) (x' : list rvec)
    (i : Z) (si : t_shell) :
  (forall i j si sj,
     s !! i = Some si -> s !! j = Some sj -> shell si = shell sj -> i = j) ->
  predict_shells x v dt ns s (Some mass) [] false = Done x' ->
  0 <= i < ns ->
  s !! Z.to_nat i = Some si ->
  mass_sum_nonzero mass si = true ->
  exists xs xs',
    x !! Z.to_nat (shell si) = Some xs
    /\ x' !! Z.to_nat (shell si) = Some xs'
    /\ forall d,
         exists w, weighted_velocity v mass si d = Done w
                   /\ (rcomp xs' d == rcomp xs d + w * dt)%Q.
Proof.
  intros Hdistinct H Hi Hsi Hnz. unfold predict_shells in H.
  destruct (predict_loop_ordinary v (predict_dt_1 dt false) mass s Hdistinct
              (zrange 0 ns) (NoDup_zrange 0 ns) x x' H) as [_ H2].
  destruct (H2 i si (proj2 (in_zrange 0 ns i) Hi) (proj1 Hi) Hsi)
    as (_ & xs & xs' & Hxs & Hxs' & Hrel).
  exists xs, xs'. split; [exact Hxs|]. split; [exact Hxs'|].
  intros d. destruct (Hrel Hnz d) as (w & Hw & Heq).
  exists w. split; [exact Hw|].
  rewrite Heq. unfold predict_dt_1, fudge. ring.
Qed.

Lemma C6_witness :
  exists xs xs',
    two_nuclei_x !! Z.to_nat (shell two_nuclei_shell) = Some xs
    /\ match predict_shells two_nuclei_x two_nuclei_v (1 # 2) 1
               [two_nuclei_shell] (Some two_nuclei_mass) [] false with
       | Done x' => x' !! Z.to_nat (shell two_nuclei_shell) = Some xs'
       | _ => False
       end
    /\ forall d,
         exists w,
           weighted_velocity two_nuclei_v two_nuclei_mass two_nuclei_shell d
           = Done w
           /\ (rcomp xs' d == rcomp xs d + w * (1 # 2))%Q.
Proof.
  destruct (C6_predictor_uses_full_time_step two_nuclei_x two_nuclei_v (1 # 2)
              1 [two_nuclei_shell] two_nuclei_mass
              [rvec_zero; rvec_zero;
               mk_rvec (0 + (1 * 4 + 3 * 0) * (1 * (1 # 2) / (1 + 3)))
                 (0 + (1 * 0 + 3 * 0) * (1 * (1 # 2) / (1 + 3)))
                 (0 + (1 * 0 + 3 * 0) * (1 * (1 # 2) / (1 + 3)))]
              0 two_nuclei_shell) as (xs & xs' & H1 & H2 & H3).
  - intros [|i] [|j] si sj Hi Hj _; try reflexivity; discriminate.
  - reflexivity.
  - lia.
  - reflexivity.
  - reflexivity.
  - exists xs, xs'. split; [exact H1|]. split; [exact H2|exact H3].
Defined.

(** The predictor at this input: weighted velocity (1*4 + 3*0)/(1+3) = 1
    along x, and the shell moves by exactly 1 * 1/2, one full time step;
    no factor below one is applied to the time step. *)
Lemma C6_counterexample :
  match predict_shells two_nuclei_x two_nuclei_v (1 # 2) 1
          [two_nuclei_shell] (Some two_nuclei_mass) [] false with
  | Done x' =>
      match x' !! 2%nat with
      | Some xs' =>
          (XX xs' == 0 + 1 * (1 # 2))%Q
          /\ ~ (exists c : Q, c < 1 /\ XX xs' == 0 + 1 * (c * (1 # 2)))%Q
      | None => False
      end
  | _ => False
  end.
Proof.
  cbv -[Qeq Qlt Qmult Qplus]. split.
  - reflexivity.
  - intros (c & Hc & He).
    assert (Hval : (0 + (1 * 4 + 3 * 0) * (1 * (1 # 2) / (1 + 3)) == 1 # 2)%Q)
      by reflexivity.
    rewrite Hval in He. lra.
Qed.

(** ** The relaxation step: preparation, loop, conclusion *)

Lemma directional_force_shfc {col : Collaborators} (inputrec : t_inputrec)
    (md : t_mdatoms) (state_x : list rvec) (shfc shfc' : gmx_shellfc)
    (x f : list rvec) (sf : real) :
  directional_force inputrec md state_x shfc x f = Done (sf, shfc') ->
  shfc' = set_buffers shfc (shfc_x shfc) (shfc_f shfc) (shfc_acc_dir shfc')
            (shfc_x_old shfc).
Proof.
  unfold directional_force. destruct (negb (nflexcon shfc =? 0)).
  - intros H. obind_inv H. obind_inv H. injection H as _ <-. reflexivity.
  - intros [= _ <-]. destruct shfc; reflexivity.
Qed.

(** What the preparation hands to the loop. *)
Lemma relax_prepare_spec {hdr : Headers} {col : Collaborators}
    (cr : t_commrec) (bVerbose : bool) (mdstep : Z) (inputrec : t_inputrec)
    (bDoNS : bool) (state : t_state) (md : t_mdatoms) (graph : bool)
    (shfc : gmx_shellfc) (nat_ : Z) (x : list rvec) (ls0 : loop_state) :
  relax_prepare cr bVerbose mdstep inputrec bDoNS state md graph shfc
  = Done (nat_, x, ls0) ->
  ls_count ls0 = 1
  /\ ls_Min ls0 = Slot0
  /\ ls_bConverged ls0 = Qltb (sel Slot0 (ls_df ls0)) (ir_em_tol inputrec)
  /\ ls_events ls0
     = [EvDoForce; EvRmsForce (sel Slot0 (ls_df ls0))]
       ++ (if bVerbose && cr_MASTER cr
           then [EvPrintEpot mdstep 0 (sel Slot0 (ls_Epot ls0))
                   (sel Slot0 (ls_df ls0))]
           else [])
  /\ numForceEvaluations (ls_shfc ls0) = numForceEvaluations shfc
  /\ numConvergedIterations (ls_shfc ls0) = numConvergedIterations shfc
  /\ nshell (ls_shfc ls0) = nshell shfc
  /\ nflexcon (ls_shfc ls0) = nflexcon shfc
  /\ exists f s sf_dir Epot sf_dir' Epot',
       rms_force cr f (nshell shfc) s (nflexcon shfc) sf_dir Epot
       = Done (sel Slot0 (ls_df ls0), sf_dir', Epot').
Proof.
  unfold relax_prepare. intros H.
  obind_inv H. destruct a as [acc_dir x_old].
  obind_inv H. rename a into x1.
  destruct (do_force bDoNS _) as [f0 epot].
  destruct (ir_drudemode inputrec), (ir_eI_is_EM inputrec);
    try discriminate H;
    (obind_inv H; destruct a as [sf_dir shfc0];
     apply directional_force_shfc in Ha1;
     obind_inv H; destruct a as [[df_min sf_dir1] epot1];
     obind_inv H; injection H as <- <- <-;
     cbn [ls_count ls_Min ls_bConverged ls_events ls_df ls_shfc ls_Epot sel
          upd fst snd];
     rewrite Ha1 in *;
     cbn [set_buffers numForceEvaluations numConvergedIterations nshell
          nflexcon shell_cells shell_p shell_gl shfc_f] in *;
     repeat split; eauto 10).
Qed.

Lemma sel_upd_same {A : Type} (i : slot) (p : A * A) (a : A) :
  sel i (upd i p a) = a.
Proof. destruct i; reflexivity. Qed.

Lemma sel_upd_Try {A : Type} (i : slot) (p : A * A) (a : A) :
  sel i (upd (Try i) p a) = sel i p.
Proof. destruct i; reflexivity. Qed.

Lemma store_shell_cells_scalars (shfc : gmx_shellfc) (cells : list t_shell) :
  shfc_scalars (store_shell_cells shfc cells) = shfc_scalars shfc.
Proof. unfold store_shell_cells. destruct (shell_p shfc); reflexivity. Qed.

Lemma set_buffers_scalars (shfc : gmx_shellfc) (x f : list rvec * list rvec)
    (acc_dir x_old : list rvec) :
  shfc_scalars (set_buffers shfc x f acc_dir x_old) = shfc_scalars shfc.
Proof. reflexivity. Qed.

Lemma Qltb_lt (a b : real) : Qltb a b = true <-> (a < b)%Q.
Proof.
  unfold Qltb. rewrite negb_true_iff. split.
  - intros H. apply Qnot_le_lt. intros Hle.
    apply Qle_bool_iff in Hle. congruence.
  - intros H. destruct (Qle_bool b a) eqn:E; [|reflexivity].
    apply Qle_bool_iff in E. exfalso. apply (Qlt_not_le _ _ H). exact E.
Qed.

Lemma Qltb_ge (a b : real) : Qltb a b = false <-> (b <= a)%Q.
Proof.
  unfold Qltb. rewrite negb_false_iff. apply Qle_bool_iff.
Qed.

Lemma rms_forces_app (evs evs' : list event) :
  rms_forces (evs ++ evs') = rms_forces evs ++ rms_forces evs'.
Proof.
  induction evs as [|e evs IH]; [reflexivity|].
  destruct e; cbn; rewrite ?IH; reflexivity.
Qed.

Lemma count_do_force_app (evs evs' : list event) :
  count_do_force (evs ++ evs') = count_do_force evs + count_do_force evs'.
Proof.
  unfold count_do_force. rewrite List.filter_app, length_app. lia.
Qed.

Lemma never_fatal_Done {A : Type} (a : A) : never_fatal (Done a).
Proof. intros e. discriminate. Qed.

Lemma never_fatal_Undefined {A : Type} : never_fatal (@Undefined A).
Proof. intros e. discriminate. Qed.

Lemma never_fatal_obind {A B : Type} (m : outcome A) (f : A -> outcome B) :
  never_fatal m -> (forall a, never_fatal (f a)) -> never_fatal (obind m f).
Proof.
  intros Hm Hf e. destruct m as [a| |]; cbn.
  - apply Hf.
  - exfalso. exact (Hm e0 eq_refl).
  - discriminate.
Qed.

Lemma never_fatal_ofold {A S : Type} (body : S -> A -> outcome S)
    (xs : list A) (s : S) :
  (forall s x, never_fatal (body s x)) -> never_fatal (ofold body xs s).
Proof.
  intros Hbody. revert s. induction xs as [|x xs IH]; intros s; cbn [ofold].
  - apply never_fatal_Done.
  - apply never_fatal_obind; [apply Hbody|exact IH].
Qed.

Lemma never_fatal_aget {A : Type} (l : list A) (i : Z) : never_fatal (aget l i).
Proof.
  unfold aget. destruct (i <? 0); [apply never_fatal_Undefined|].
  destruct (l !! Z.to_nat i);
    [apply never_fatal_Done|apply never_fatal_Undefined].
Qed.

Lemma never_fatal_aset {A : Type} (l : list A) (i : Z) (a : A) :
  never_fatal (aset l i a).
Proof.
  unfold aset. destruct ((0 <=? i) && (i <? Z.of_nat (length l)));
    [apply never_fatal_Done|apply never_fatal_Undefined].
Qed.

Lemma never_fatal_memcpy (dst src : list rvec) (n : Z) :
  never_fatal (memcpy dst src n).
Proof.
  unfold memcpy.
  destruct ((n <=? Z.of_nat (length dst)) && (n <=? Z.of_nat (length src)));
    [apply never_fatal_Done|apply never_fatal_Undefined].
Qed.

(** Walks through a computation built from binds, folds, array accesses
    and case distinctions. *)
Ltac never_fatal_step :=
  first
    [ apply never_fatal_Done
    | apply never_fatal_Undefined
    | apply never_fatal_aget
    | apply never_fatal_aset
    | apply never_fatal_memcpy
    | assumption
    | apply never_fatal_obind
    | apply never_fatal_ofold
    | match goal with
      | |- forall _, _ => intro
      | |- never_fatal (let (_, _) := ?p in _) => destruct p
      | |- never_fatal ((match ?p with _ => _ end) _) => destruct p
      | |- never_fatal (match ?p with _ => _ end) => destruct p
      | |- never_fatal (if ?b then _ else _) => destruct b
      end ].

Ltac never_fatal_auto := cbv zeta; repeat never_fatal_step.

Ltac never_fatal_with tac := cbv zeta; repeat first [tac | never_fatal_step].

Lemma never_fatal_init_adir {col : Collaborators} (ir : t_inputrec)
    (md : t_mdatoms) (start end_ : Z) (x_old x_init x f acc_dir : list rvec) :
  never_fatal (init_adir ir md start end_ x_old x_init x f acc_dir).
Proof. unfold init_adir. never_fatal_auto. Qed.

Lemma never_fatal_directional_sd (xold_ xnew acc_dir : list rvec)
    (start homenr : Z) (step_ : real) :
  never_fatal (directional_sd xold_ xnew acc_dir start homenr step_).
Proof. unfold directional_sd. never_fatal_auto. Qed.

Lemma never_fatal_shell_pos_sd {hdr : Headers} (xcur xnew f : list rvec)
    (ns : Z) (s : list t_shell) (count : Z) :
  never_fatal (shell_pos_sd xcur xnew f ns s count).
Proof. unfold shell_pos_sd, shell_pos_sd_1. never_fatal_auto. Qed.

Lemma never_fatal_decrease_step_size (nshell_ : Z) (s : list t_shell) :
  never_fatal (decrease_step_size nshell_ s).
Proof. unfold decrease_step_size. never_fatal_auto. Qed.

Lemma never_fatal_rms_force {hdr : Headers} {col : Collaborators}
    (cr : t_commrec) (f : list rvec) (ns : Z) (s : list t_shell) (ndir : Z)
    (sf_dir Epot : real) :
  never_fatal (rms_force cr f ns s ndir sf_dir Epot).
Proof. unfold rms_force. never_fatal_auto. Qed.

Lemma never_fatal_sum_sf_dir (md : t_mdatoms) (acc_dir : list rvec)
    (start end_ : Z) :
  never_fatal (sum_sf_dir md acc_dir start end_).
Proof. unfold sum_sf_dir. never_fatal_auto. Qed.

Lemma never_fatal_directional_force {col : Collaborators}
    (inputrec : t_inputrec) (md : t_mdatoms) (state_x : list rvec)
    (shfc : gmx_shellfc) (x f : list rvec) :
  never_fatal (directional_force inputrec md state_x shfc x f).
Proof.
  unfold directional_force.
  never_fatal_with
    ltac:(first [apply never_fatal_init_adir | apply never_fatal_sum_sf_dir]).
Qed.

Lemma never_fatal_relax_finish (fplog : bool) (cr : t_commrec) (mdstep : Z)
    (inputrec : t_inputrec) (nat_ : Z) (state : t_state) (f : list rvec)
    (ls : loop_state) :
  never_fatal (relax_finish fplog cr mdstep inputrec nat_ state f ls).
Proof. unfold relax_finish. never_fatal_auto. Qed.

Section RelaxLoop.
Context {hdr : Headers} {col : Collaborators}.
Variable cr : t_commrec.
Variable bVerbose : bool.
Variable mdstep : Z.
Variable inputrec : t_inputrec.
Variable md : t_mdatoms.
Variable graph : bool.
Variable vsite : bool.
Variable fc_stepsize : real.
Variable state_x : list rvec.

Let iteration :=
  relax_iteration cr bVerbose mdstep inputrec md graph vsite fc_stepsize
    state_x.
Let loop :=
  relax_loop cr bVerbose mdstep inputrec md graph vsite fc_stepsize state_x.

(** One round: a force evaluation, an RMS force [r], the convergence
    test on [r], and acceptance exactly when [r] is strictly below the
    accepted RMS force. *)
Lemma relax_iteration_spec (ls ls' : loop_state) :
  iteration ls = Done ls' ->
  ls_count ls' = ls_count ls + 1
  /\ shfc_scalars (ls_shfc ls') = shfc_scalars (ls_shfc ls)
  /\ exists r,
       ls_events ls'
       = ls_events ls ++ [EvDoForce; EvRmsForce r]
         ++ (if bVerbose && cr_MASTER cr
             then [EvPrintEpot mdstep (ls_count ls)
                     (sel (Try (ls_Min ls)) (ls_Epot ls')) r]
             else [])
       /\ ls_bConverged ls' = Qltb r (ir_em_tol inputrec)
       /\ sel (ls_Min ls') (ls_df ls')
          = (if Qltb r (sel (ls_Min ls) (ls_df ls)) then r
             else sel (ls_Min ls) (ls_df ls)).
Proof.
  unfold iteration, relax_iteration. intros H.
  obind_inv H. destruct a as [pos acc_dir]. clear Ha.
  obind_inv H. destruct a as [xtry cells]. clear Ha.
  destruct (do_force false _) as [ftry epot].
  obind_inv H. destruct a as [sf_dir shfc1].
  apply directional_force_shfc in Ha.
  obind_inv H. destruct a as [[dftry sf_dir1] epot1]. clear Ha0.
  rewrite !sel_upd_same, !sel_upd_Try in H.
  assert (Hsc : shfc_scalars shfc1 = shfc_scalars (ls_shfc ls)).
  { rewrite Ha, !set_buffers_scalars. apply store_shell_cells_scalars. }
  destruct (Qltb dftry (sel (ls_Min ls) (ls_df ls))) eqn:E.
  - obind_inv H. injection H as <-.
    cbn [ls_count ls_shfc ls_events ls_bConverged ls_Min ls_df ls_Epot].
    rewrite !sel_upd_same. repeat split; [exact Hsc|].
    exists dftry. rewrite E. repeat split.
  - obind_inv H. injection H as <-.
    cbn [ls_count ls_shfc ls_events ls_bConverged ls_Min ls_df ls_Epot].
    rewrite !sel_upd_same, !sel_upd_Try. repeat split.
    + rewrite store_shell_cells_scalars. exact Hsc.
    + exists dftry. rewrite E. repeat split.
Qed.

(** No round of the loop ends in a fatal error. *)
Lemma never_fatal_relax_iteration (ls : loop_state) :
  never_fatal (iteration ls).
Proof.
  unfold iteration, relax_iteration.
  never_fatal_with
    ltac:(first [ apply never_fatal_init_adir
                | apply never_fatal_directional_sd
                | apply never_fatal_shell_pos_sd
                | apply never_fatal_decrease_step_size
                | apply never_fatal_rms_force
                | apply never_fatal_directional_force ]).
Qed.

Lemma never_fatal_relax_loop (fuel : nat) (ls : loop_state) :
  never_fatal (loop fuel ls).
Proof.
  revert ls. induction fuel as [|fuel IH]; intros ls; unfold loop;
    cbn [relax_loop];
    destruct (negb (ls_bConverged ls)
              && (ls_count ls <? ir_niter inputrec)).
  - apply never_fatal_Undefined.
  - apply never_fatal_Done.
  - apply never_fatal_obind; [apply never_fatal_relax_iteration|exact IH].
  - apply never_fatal_Done.
Qed.

Lemma rms_forces_round (evs : list event) (r : real) (c : Z) (e : real) :
  rms_forces
    (evs ++ [EvDoForce; EvRmsForce r]
     ++ (if bVerbose && cr_MASTER cr then [EvPrintEpot mdstep c e r] else []))
  = rms_forces evs ++ [r].
Proof.
  rewrite rms_forces_app. destruct (bVerbose && cr_MASTER cr); reflexivity.
Qed.

Lemma count_do_force_round (evs : list event) (r : real) (c : Z) (e : real) :
  count_do_force
    (evs ++ [EvDoForce; EvRmsForce r]
     ++ (if bVerbose && cr_MASTER cr then [EvPrintEpot mdstep c e r] else []))
  = count_do_force evs + 1.
Proof.
  rewrite count_do_force_app. destruct (bVerbose && cr_MASTER cr); reflexivity.
Qed.

(** A round entered with [count < number_steps] keeps the invariant. *)
Lemma loop_inv_iteration (sc : Z * Z * Z * Z) (ls ls' : loop_state) :
  loop_inv cr bVerbose mdstep inputrec sc ls ->
  ls_count ls < ir_niter inputrec ->
  iteration ls = Done ls' ->
  loop_inv cr bVerbose mdstep inputrec sc ls'.
Proof.
  intros (Hsc & Hc1 & Hc2 & Hdo & Hlen & _ & Hin & Hmin) Hlt H.
  apply relax_iteration_spec in H
    as (Hcount & Hsc' & r & Hev & Hconv & Hdf).
  unfold loop_inv. rewrite Hev, rms_forces_round, count_do_force_round.
  rewrite Hcount, Hsc', Hdf, length_app. cbn [length].
  split; [exact Hsc|]. split; [lia|]. split; [lia|]. split; [lia|].
  split; [lia|]. split.
  { exists r. split; [apply last_snoc|exact Hconv]. }
  destruct (Qltb r (sel (ls_Min ls) (ls_df ls))) eqn:E.
  - apply Qltb_lt in E. split.
    + apply in_or_app. right. left. reflexivity.
    + apply Forall_app. split.
      * eapply Forall_impl; [exact Hmin|]. cbn. intros r' Hr'. lra.
      * constructor; [lra|constructor].
  - apply Qltb_ge in E. split.
    + apply in_or_app. left. exact Hin.
    + apply Forall_app. split; [exact Hmin|].
      constructor; [exact E|constructor].
Qed.

(** The loop keeps the invariant and ends converged or with the
    counter at the budget. *)
Lemma loop_inv_relax_loop (sc : Z * Z * Z * Z) (fuel : nat) :
  forall ls ls',
    loop_inv cr bVerbose mdstep inputrec sc ls ->
    loop fuel ls = Done ls' ->
    loop_inv cr bVerbose mdstep inputrec sc ls'
    /\ (ls_bConverged ls' = true \/ ir_niter inputrec <= ls_count ls').
Proof.
  induction fuel as [|fuel IH]; intros ls ls' Hinv H; unfold loop in H;
    cbn [relax_loop] in H;
    destruct (ls_bConverged ls) eqn:Hconv;
    destruct (Z.ltb_spec (ls_count ls) (ir_niter inputrec)) as [Hlt|Hge];
    cbn [negb andb] in H; try discriminate;
    try (injection H as <-; split; [exact Hinv|]; rewrite ?Hconv; auto).
  obind_inv H. eapply IH; [|exact H].
  eapply loop_inv_iteration; eauto.
Qed.

(** Fuel beyond [number_steps - count] rounds changes nothing: the
    loop never stops for lack of fuel. *)
Lemma relax_loop_fuel (fuel : nat) :
  forall ls,
    ir_niter inputrec - ls_count ls <= Z.of_nat fuel ->
    loop (S fuel) ls = loop fuel ls.
Proof.
  induction fuel as [|fuel IH]; intros ls Hfuel.
  - unfold loop. cbn [relax_loop].
    destruct (Z.ltb_spec (ls_count ls) (ir_niter inputrec)); [lia|].
    rewrite andb_false_r. reflexivity.
  - unfold loop. cbn [relax_loop].
    destruct (negb (ls_bConverged ls)
              && (ls_count ls <? ir_niter inputrec)); [|reflexivity].
    fold iteration. destruct (iteration ls) as [ls1| |] eqn:E;
      cbn [obind]; try reflexivity.
    apply relax_iteration_spec in E as (Hcount & _).
    apply (IH ls1). lia.
Qed.
End RelaxLoop.

(** What the end of [relax_shell_flexcon] does with the locals. *)
Lemma relax_finish_spec (fplog : bool) (cr : t_commrec) (mdstep : Z)
    (inputrec : t_inputrec) (nat_ : Z) (state : t_state) (f : list rvec)
    (ls : loop_state) (res : relax_result) :
  relax_finish fplog cr mdstep inputrec nat_ state f ls = Done res ->
  rr_count res = ls_count ls
  /\ rr_bConverged res = ls_bConverged ls
  /\ rr_df_Min res = sel (ls_Min ls) (ls_df ls)
  /\ numForceEvaluations (rr_shfc res)
     = numForceEvaluations (ls_shfc ls) + ls_count ls
  /\ numConvergedIterations (rr_shfc res)
     = (if ls_bConverged ls then numConvergedIterations (ls_shfc ls) + 1
        else numConvergedIterations (ls_shfc ls))
  /\ rr_events res
     = ls_events ls
       ++ (if cr_MASTER cr && negb (ls_bConverged ls) then
             (if fplog
              then [EvNoConvergeLog mdstep (ir_niter inputrec)
                      (sel (ls_Min ls) (ls_df ls))]
              else [])
             ++ [EvNoConvergeStderr mdstep (ir_niter inputrec)
                   (sel (ls_Min ls) (ls_df ls))]
           else []).
Proof.
  unfold relax_finish. intros H. obind_inv H. obind_inv H.
  injection H as <-. cbn. repeat split.
Qed.

Lemma loop_inv_prepare {hdr : Headers} {col : Collaborators}
    (cr : t_commrec) (bVerbose : bool) (mdstep : Z) (inputrec : t_inputrec)
    (bDoNS : bool) (state : t_state) (md : t_mdatoms) (graph : bool)
    (shfc : gmx_shellfc) (nat_ : Z) (x : list rvec) (ls0 : loop_state) :
  relax_prepare cr bVerbose mdstep inputrec bDoNS state md graph shfc
  = Done (nat_, x, ls0) ->
  loop_inv cr bVerbose mdstep inputrec (shfc_scalars shfc) ls0.
Proof.
  intros H. apply relax_prepare_spec in H
    as (Hc & HMin & Hconv & Hev & Hfe & Hci & Hns & Hnf & _).
  unfold loop_inv, shfc_scalars. rewrite Hc, Hev, HMin, Hfe, Hci, Hns, Hnf.
  assert (Hr : rms_forces
                 ([EvDoForce; EvRmsForce (sel Slot0 (ls_df ls0))]
                  ++ (if bVerbose && cr_MASTER cr
                      then [EvPrintEpot mdstep 0 (sel Slot0 (ls_Epot ls0))
                              (sel Slot0 (ls_df ls0))]
                      else []))
               = [sel Slot0 (ls_df ls0)]).
  { destruct (bVerbose && cr_MASTER cr); reflexivity. }
  assert (Hd : count_do_force
                 ([EvDoForce; EvRmsForce (sel Slot0 (ls_df ls0))]
                  ++ (if bVerbose && cr_MASTER cr
                      then [EvPrintEpot mdstep 0 (sel Slot0 (ls_Epot ls0))
                              (sel Slot0 (ls_df ls0))]
                      else []))
               = 1).
  { destruct (bVerbose && cr_MASTER cr); reflexivity. }
  rewrite Hr, Hd. repeat split; try lia; auto.
  - exists (sel Slot0 (ls_df ls0)). split; [reflexivity|exact Hconv].
  - left. reflexivity.
  - constructor; [apply Qle_refl|constructor].
Qed.

(** ** Convergence without iteration *)

(** C2, as the code has it: when the RMS force after the first force
    evaluation is below the tolerance, the step makes exactly one force
    evaluation, the loop returns without a round, the step counts as
    converged, and [print_epot] (verbose, on the master) reports
    iteration 0; the local [count] is 1 after the [for] initialisation,
    and the run-wide counter of force evaluations grows by that value,
    1, not by the 0 that is reported. *)
Theorem C2_converged_without_iteration {hdr : Headers} {col : Collaborators}
    (fplog : bool) (cr : t_commrec) (bVerbose : bool) (mdstep : Z)
    (inputrec : t_inputrec) (bDoNS : bool) (state : t_state) (f : list rvec)
    (md : t_mdatoms) (graph : bool) (shfc : gmx_shellfc) (fc_stepsize : real)
    (vsite : bool) (nat_ : Z) (x : list rvec) (ls0 : loop_state)
    (res : relax_result) :
  relax_prepare cr bVerbose mdstep inputrec bDoNS state md graph shfc
  = Done (nat_, x, ls0) ->
  Qltb (sel Slot0 (ls_df ls0)) (ir_em_tol inputrec) = true ->
  relax_shell_flexcon fplog cr bVerbose mdstep inputrec bDoNS state f md
    graph shfc fc_stepsize vsite = Done res ->
  count_do_force (rr_events res) = 1
  /\ (forall fuel,
        relax_loop cr bVerbose mdstep inputrec md graph vsite fc_stepsize x
          fuel ls0 = Done ls0)
  /\ rr_bConverged res = true
  /\ rr_events res
     = [EvDoForce; EvRmsForce (rr_df_Min res)]
       ++ (if bVerbose && cr_MASTER cr
           then [EvPrintEpot mdstep 0 (sel Slot0 (ls_Epot ls0)) (rr_df_Min res)]
           else [])
  /\ rr_count res = 1
  /\ numForceEvaluations (rr_shfc res) = numForceEvaluations shfc + 1
  /\ numConvergedIterations (rr_shfc res) = numConvergedIterations shfc + 1.
Proof.
  intros Hprep Hlow H.
  pose proof (relax_prepare_spec _ _ _ _ _ _ _ _ _ _ _ _ Hprep)
    as (Hc & HMin & Hconv & Hev & Hfe & Hci & _).
  rewrite Hlow in Hconv.
  assert (Hloop : forall fuel,
            relax_loop cr bVerbose mdstep inputrec md graph vsite fc_stepsize
              x fuel ls0 = Done ls0).
  { intros [|fuel]; cbn [relax_loop]; rewrite Hconv; reflexivity. }
  unfold relax_shell_flexcon in H. rewrite Hprep in H. cbn [obind] in H.
  rewrite Hloop in H. cbn [obind] in H.
  apply relax_finish_spec in H as (Rc & Rconv & Rdf & Rfe & Rci & Rev).
  rewrite Hconv in *. rewrite andb_false_r, app_nil_r in Rev.
  rewrite Rev, Rc, Rconv, Rfe, Rci, Rdf, HMin, Hev, Hc, Hfe, Hci.
  repeat split; try assumption.
  destruct (bVerbose && cr_MASTER cr); reflexivity.
Qed.

Lemma C2_witness :
  count_do_force (rr_events (pair_result rvec_zero)) = 1
  /\ rr_bConverged (pair_result rvec_zero) = true
  /\ rr_count (pair_result rvec_zero) = 1
  /\ numForceEvaluations (rr_shfc (pair_result rvec_zero))
     = numForceEvaluations pair_shfc + 1.
Proof.
  destruct (@C2_converged_without_iteration example_headers
              (example_collab rvec_zero) true single_rank true 1 example_ir
              false pair_state [rvec_zero; rvec_zero] pair_md false pair_shfc
              1 false
              (fst (fst (pair_prepared rvec_zero)))
              (snd (fst (pair_prepared rvec_zero)))
              (snd (pair_prepared rvec_zero))
              (pair_result rvec_zero))
    as (H1 & _ & H3 & _ & H5 & H6 & _).
  - vm_compute. reflexivity.
  - vm_compute. reflexivity.
  - vm_compute. reflexivity.
  - split; [exact H1|]. split; [exact H3|]. split; [exact H5|exact H6].
Defined.

(** A step that converges at the first force evaluation: the line of
    [print_epot] carries iteration 0, and the counter of force
    evaluations has grown by 1, not by 0. *)
Lemma C2_counterexample :
  rr_bConverged (pair_result rvec_zero) = true
  /\ rr_events (pair_result rvec_zero)
     = [EvDoForce; EvRmsForce 0; EvPrintEpot 1 0 0 0]
  /\ numForceEvaluations (rr_shfc (pair_result rvec_zero))
     = numForceEvaluations pair_shfc + 1
  /\ numForceEvaluations (rr_shfc (pair_result rvec_zero))
     <> numForceEvaluations pair_shfc + 0.
Proof.
  repeat split; try (vm_compute; reflexivity). vm_compute. discriminate.
Qed.

(** ** Exhausting the iteration budget *)



(** ** The RMS force of an empty workload *)

Lemma zrange_empty (lo hi : Z) : hi <= lo -> zrange lo hi = [].
Proof.
  intros H. unfold zrange. replace (Z.to_nat (hi - lo)) with 0%nat by lia.
  reflexivity.
Qed.

Lemma rms_force_no_degrees {hdr : Headers} {col : Collaborators}
    (cr : t_commrec) (f : list rvec) (s : list t_shell) (sf_dir Epot : real) :
  cr_PAR cr = false ->
  rms_force cr f 0 s 0 sf_dir Epot = Done (0%Q, sf_dir, Epot).
Proof.
  intros HPAR. unfold rms_force. rewrite zrange_empty by lia.
  cbn [ofold obind]. rewrite HPAR. reflexivity.
Qed.

Lemma rms_force_no_degrees_PAR {hdr : Headers} {col : Collaborators}
    (cr : t_commrec) (f : list rvec) (s : list t_shell) (sf_dir Epot : real)
    (b0 b1 b2 b3 : real) :
  cr_PAR cr = true ->
  gmx_sumd [sf_dir; inject_Z 0; sf_dir; Epot] = [b0; b1; b2; b3] ->
  real_to_int (b1 + (1 # 2)) = 0 ->
  rms_force cr f 0 s 0 sf_dir Epot = Done (0%Q, b2, b3).
Proof.
  intros HPAR Hsum Hint. unfold rms_force. rewrite zrange_empty by lia.
  cbn [ofold obind]. cbv zeta. unfold real in *. rewrite HPAR, Hsum.
  cbn [obind]. rewrite Hint. reflexivity.
Qed.

(** With no shell and no flexible constraint, [rms_force] returns the
    RMS force 0 whenever it returns: on a single rank always, and in
    parallel when the count that comes back from the global sum is 0. *)
Lemma rms_force_no_degrees_Done {hdr : Headers} {col : Collaborators}
    (cr : t_commrec) (f : list rvec) (s : list t_shell) (sf_dir Epot : real)
    (r : real * real * real) :
  (cr_PAR cr = true ->
   forall b0 b1 b2 b3,
     gmx_sumd [sf_dir; inject_Z 0; sf_dir; Epot] = [b0; b1; b2; b3] ->
     real_to_int (b1 + (1 # 2)) = 0) ->
  rms_force cr f 0 s 0 sf_dir Epot = Done r ->
  fst (fst r) = 0%Q.
Proof.
  intros Hsum H. destruct (cr_PAR cr) eqn:HPAR.
  - unfold rms_force in H. rewrite zrange_empty in H by lia.
    cbn [ofold obind] in H. cbv zeta in H. unfold real in *.
    rewrite HPAR in H.
    destruct (gmx_sumd [sf_dir; inject_Z 0; sf_dir; Epot])
      as [|b0 [|b1 [|b2 [|b3 [|b4 l]]]]] eqn:E; try discriminate H.
    cbn [obind] in H. rewrite (Hsum eq_refl b0 b1 b2 b3 eq_refl) in H.
    injection H as <-. reflexivity.
  - rewrite (rms_force_no_degrees cr f s sf_dir Epot HPAR) in H.
    injection H as <-. reflexivity.
Qed.

(** C9: [rms_force] with no local shell and no flexible-constraint degree
    of freedom returns 0 instead of dividing by the degree count: on a
    single rank always, and in parallel whenever the count that comes
    back from the global sum is 0 as well (no rank has a shell).  A step
    of a run without shells and flexible constraints, on a single rank
    or in parallel with such a global sum, therefore finds the RMS force
    0 and, for a positive tolerance, is converged before the first
    iteration: the loop returns at once. *)
Theorem C9_rms_force_of_empty_workload {hdr : Headers} {col : Collaborators}
    (cr : t_commrec) (bVerbose : bool) (mdstep : Z) (inputrec : t_inputrec)
    (bDoNS : bool) (state : t_state) (md : t_mdatoms) (graph vsite : bool)
    (shfc : gmx_shellfc) (fc_stepsize : real) (nat_ : Z) (x : list rvec)
    (ls0 : loop_state) :
  nshell shfc = 0 -> nflexcon shfc = 0 ->
  (0 < ir_em_tol inputrec)%Q ->
  relax_prepare cr bVerbose mdstep inputrec bDoNS state md graph shfc
  = Done (nat_, x, ls0) ->
  (forall f s sf_dir Epot,
     cr_PAR cr = false ->
     rms_force cr f 0 s 0 sf_dir Epot = Done (0%Q, sf_dir, Epot))
  /\ (forall f s sf_dir Epot b0 b1 b2 b3,
        cr_PAR cr = true ->
        gmx_sumd [sf_dir; inject_Z 0; sf_dir; Epot] = [b0; b1; b2; b3] ->
        real_to_int (b1 + (1 # 2)) = 0 ->
        rms_force cr f 0 s 0 sf_dir Epot = Done (0%Q, b2, b3))
  /\ ((cr_PAR cr = true ->
       forall sf_dir Epot b0 b1 b2 b3,
         gmx_sumd [sf_dir; inject_Z 0; sf_dir; Epot] = [b0; b1; b2; b3] ->
         real_to_int (b1 + (1 # 2)) = 0) ->
      sel (ls_Min ls0) (ls_df ls0) = 0%Q
      /\ ls_bConverged ls0 = true
      /\ forall fuel,
           relax_loop cr bVerbose mdstep inputrec md graph vsite fc_stepsize
             x fuel ls0 = Done ls0).
Proof.
  intros Hns Hnf Htol H. split; [|split].
  - intros. apply rms_force_no_degrees. assumption.
  - intros. eapply rms_force_no_degrees_PAR; eassumption.
  - intros Hsum.
    apply relax_prepare_spec in H
      as (_ & HMin & Hconv & _ & _ & _ & _ & _ & Hrms).
    destruct Hrms as (f & s & sf_dir & Epot & sf_dir' & Epot' & Hrms).
    rewrite Hns, Hnf in Hrms.
    assert (Hdf : sel Slot0 (ls_df ls0) = 0%Q).
    { apply (rms_force_no_degrees_Done cr f s sf_dir Epot) in Hrms;
        [exact Hrms|].
      intros HPAR. apply Hsum. exact HPAR. }
    rewrite HMin. rewrite Hdf in Hconv |- *.
    assert (Hc : ls_bConverged ls0 = true).
    { rewrite Hconv. apply Qltb_lt. exact Htol. }
    split; [reflexivity|]. split; [exact Hc|].
    intros [|fuel]; cbn [relax_loop]; rewrite Hc; reflexivity.
Qed.

Lemma C9_witness :
  sel (ls_Min (snd (plain_prepared_on parallel_rank)))
    (ls_df (snd (plain_prepared_on parallel_rank))) = 0%Q
  /\ ls_bConverged (snd (plain_prepared_on parallel_rank)) = true.
Proof.
  destruct (@C9_rms_force_of_empty_workload example_headers
              (example_collab (mk_rvec 1 0 0)) parallel_rank true 1 example_ir
              false pair_state plain_md false false shfc_zero 1
              (fst (fst (plain_prepared_on parallel_rank)))
              (snd (fst (plain_prepared_on parallel_rank)))
              (snd (plain_prepared_on parallel_rank)))
    as (_ & _ & H).
  - reflexivity.
  - reflexivity.
  - reflexivity.
  - vm_compute. reflexivity.
  - destruct H as (H1 & H2 & _); [|split; [exact H1|exact H2]].
    intros _ sf_dir Epot b0 b1 b2 b3 Hsum.
    injection Hsum as _ <- _ _. reflexivity.
Defined.

(** ** The global shell table during the run *)

Lemma global_kept_refl (shfc : gmx_shellfc) : global_kept shfc shfc.
Proof. repeat split. Qed.

Lemma global_kept_trans (a b c : gmx_shellfc) :
  global_kept a b -> global_kept b c -> global_kept a c.
Proof.
  intros (H1 & H2 & H3) (G1 & G2 & G3). split; [congruence|].
  split; [congruence|]. intros Hl. rewrite G3, H3; congruence.
Qed.

Lemma global_kept_set_buffers (shfc : gmx_shellfc)
    (x f : list rvec * list rvec) (acc_dir x_old : list rvec) :
  global_kept shfc (set_buffers shfc x f acc_dir x_old).
Proof. repeat split. Qed.

Lemma global_kept_set_counters (shfc : gmx_shellfc) (nfe nci : Z) :
  global_kept shfc (set_counters shfc nfe nci).
Proof. repeat split. Qed.

Lemma shell_cells_set_buffers (shfc : gmx_shellfc)
    (x f : list rvec * list rvec) (acc_dir x_old : list rvec) :
  shell_cells (set_buffers shfc x f acc_dir x_old) = shell_cells shfc.
Proof. reflexivity. Qed.

(** A store through [shfc->shell] of cells with the topology fields of
    the cells it replaces. *)
Lemma global_kept_store (shfc : gmx_shellfc) (cells : list t_shell) :
  map topology_fields cells = map topology_fields (shell_cells shfc) ->
  global_kept shfc (store_shell_cells shfc cells)
  /\ shell_cells (store_shell_cells shfc cells) = cells.
Proof.
  unfold global_kept, store_shell_cells, shell_cells, shell_is_local.
  destruct (shell_p shfc); cbn; intros H; repeat split; try assumption.
  discriminate.
Qed.

Lemma map_topology_insert (s : list t_shell) (i : nat) (si si' : t_shell) :
  s !! i = Some si -> topology_fields si' = topology_fields si ->
  map topology_fields (<[i := si']> s) = map topology_fields s.
Proof.
  intros Hsi Ht. change (topology_fields <$> <[i := si']> s
                         = topology_fields <$> s).
  rewrite list_fmap_insert, Ht. apply list_insert_id.
  rewrite list_lookup_fmap, Hsi. reflexivity.
Qed.

Lemma shell_pos_sd_topology {hdr : Headers} (xcur xnew f : list rvec)
    (ns : Z) (s : list t_shell) (count : Z) (xnew' : list rvec)
    (s' : list t_shell) :
  shell_pos_sd xcur xnew f ns s count = Done (xnew', s') ->
  map topology_fields s' = map topology_fields s.
Proof.
  unfold shell_pos_sd. intros H.
  refine (ofold_inv
            (fun p => map topology_fields (snd p) = map topology_fields s)
            _ _ _ (xnew, s) (xnew', s') eq_refl H).
  intros [xn sa] i [xn' sa'] IH Hbody. cbn [snd] in *.
  obind_as Hbody si Hsi. apply aget_Done in Hsi as [_ Hsi].
  obind_as Hbody [si' xs] Hsd.
  obind_as Hbody sb Hset. apply aset_Done in Hset as [_ ->].
  obind_as Hbody xb Hxb. injection Hbody as _ <-.
  rewrite <- IH. eapply map_topology_insert; [exact Hsi|].
  unfold shell_pos_sd_1 in Hsd. obind_as Hsd xc Hxc.
  obind_as Hsd fc Hfc. injection Hsd as <- _. reflexivity.
Qed.

Lemma decrease_step_size_topology (n : Z) (s s' : list t_shell) :
  decrease_step_size n s = Done s' ->
  map topology_fields s' = map topology_fields s.
Proof.
  unfold decrease_step_size. intros H.
  refine (ofold_inv (fun sa => map topology_fields sa = map topology_fields s)
            _ _ _ s s' eq_refl H).
  intros sa i sa' IH Hbody. obind_as Hbody si Hsi.
  apply aget_Done in Hsi as [_ Hsi]. apply aset_Done in Hbody as [_ ->].
  rewrite <- IH. eapply map_topology_insert; [exact Hsi|reflexivity].
Qed.

Lemma make_local_shells_global (cr : t_commrec) (md : t_mdatoms)
    (shfc shfc' : gmx_shellfc) :
  make_local_shells cr md shfc = Done shfc' -> shell_gl shfc' = shell_gl shfc.
Proof.
  unfold make_local_shells. destruct (cr_dd cr).
  - intros H. obind_as H r Hr. injection H as <-. reflexivity.
  - intros [= <-]. reflexivity.
Qed.

Lemma global_kept_directional_force {col : Collaborators}
    (inputrec : t_inputrec) (md : t_mdatoms) (state_x : list rvec)
    (shfc shfc' : gmx_shellfc) (x f : list rvec) (sf : real) :
  directional_force inputrec md state_x shfc x f = Done (sf, shfc') ->
  global_kept shfc shfc' /\ shell_cells shfc' = shell_cells shfc.
Proof.
  intros H. apply directional_force_shfc in H. rewrite H.
  split; [apply global_kept_set_buffers|reflexivity].
Qed.

Section GlobalTable.
Context {hdr : Headers} {col : Collaborators}.
Variable cr : t_commrec.
Variable bVerbose : bool.
Variable mdstep : Z.
Variable inputrec : t_inputrec.
Variable md : t_mdatoms.
Variable graph : bool.
Variable vsite : bool.
Variable fc_stepsize : real.
Variable state_x : list rvec.

Lemma global_kept_relax_iteration (ls ls' : loop_state) :
  relax_iteration cr bVerbose mdstep inputrec md graph vsite fc_stepsize
    state_x ls = Done ls' ->
  global_kept (ls_shfc ls) (ls_shfc ls').
Proof.
  unfold relax_iteration. intros H.
  obind_as H [pos acc_dir] Hpos. clear Hpos.
  obind_as H [xtry cells] Hsd.
  apply shell_pos_sd_topology in Hsd.
  apply global_kept_store in Hsd as [K1 C1].
  destruct (do_force false _) as [ftry epot].
  obind_as H [sf_dir shfc1] Hdir.
  apply global_kept_directional_force in Hdir as [K2 C2].
  rewrite shell_cells_set_buffers in C2.
  pose proof (global_kept_trans _ _ _ K1
                (global_kept_trans _ _ _ (global_kept_set_buffers _ _ _ _ _)
                   K2)) as K.
  obind_as H [[dftry sf_dir1] epot1] Hrms. clear Hrms.
  destruct (Qltb _ _).
  - obind_as H v Hv. injection H as <-. exact K.
  - obind_as H cells' Hdec. injection H as <-. cbn [ls_shfc].
    apply decrease_step_size_topology in Hdec.
    apply global_kept_store in Hdec as [K3 _].
    exact (global_kept_trans _ _ _ K K3).
Qed.

Lemma global_kept_relax_loop (fuel : nat) :
  forall ls ls',
    relax_loop cr bVerbose mdstep inputrec md graph vsite fc_stepsize
      state_x fuel ls = Done ls' ->
    global_kept (ls_shfc ls) (ls_shfc ls').
Proof.
  induction fuel as [|fuel IH]; intros ls ls' H; cbn [relax_loop] in H;
    destruct (negb (ls_bConverged ls)
              && (ls_count ls <? ir_niter inputrec));
    try discriminate; try (injection H as <-; apply global_kept_refl).
  obind_as H ls1 Hit. apply global_kept_relax_iteration in Hit.
  exact (global_kept_trans _ _ _ Hit (IH _ _ H)).
Qed.
End GlobalTable.

Lemma global_kept_relax_prepare {hdr : Headers} {col : Collaborators}
    (cr : t_commrec) (bVerbose : bool) (mdstep : Z) (inputrec : t_inputrec)
    (bDoNS : bool) (state : t_state) (md : t_mdatoms) (graph : bool)
    (shfc : gmx_shellfc) (nat_ : Z) (x : list rvec) (ls0 : loop_state) :
  relax_prepare cr bVerbose mdstep inputrec bDoNS state md graph shfc
  = Done (nat_, x, ls0) ->
  global_kept shfc (ls_shfc ls0).
Proof.
  unfold relax_prepare. intros H.
  obind_as H [acc_dir x_old] Hflex.
  obind_as H x1 Hpred.
  destruct (do_force bDoNS _) as [f0 epot].
  destruct (ir_drudemode inputrec), (ir_eI_is_EM inputrec);
    try discriminate H;
    (obind_as H [sf_dir shfc0] Hdir;
     apply global_kept_directional_force in Hdir as [K _];
     obind_as H [[df_min sf_dir1] epot1] Hrms;
     obind_as H pos Hcopy; injection H as <- <- <-; cbn [ls_shfc];
     exact (global_kept_trans _ _ _
              (global_kept_trans _ _ _ (global_kept_set_buffers _ _ _ _ _) K)
              (global_kept_set_buffers _ _ _ _ _))).
Qed.

Lemma global_kept_relax_shell_flexcon {hdr : Headers} {col : Collaborators}
    (fplog : bool) (cr : t_commrec) (bVerbose : bool) (mdstep : Z)
    (inputrec : t_inputrec) (bDoNS : bool) (state : t_state) (f : list rvec)
    (md : t_mdatoms) (graph : bool) (shfc : gmx_shellfc) (fc_stepsize : real)
    (vsite : bool) (res : relax_result) :
  relax_shell_flexcon fplog cr bVerbose mdstep inputrec bDoNS state f md
    graph shfc fc_stepsize vsite = Done res ->
  global_kept shfc (rr_shfc res).
Proof.
  unfold relax_shell_flexcon. intros H.
  obind_as H [[nat_ x] ls0] Hprep.
  apply global_kept_relax_prepare in Hprep.
  obind_as H ls Hloop. apply global_kept_relax_loop in Hloop.
  unfold relax_finish in H. obind_as H x' Hx. obind_as H f' Hf.
  injection H as <-. cbn [rr_shfc].
  exact (global_kept_trans _ _ _ (global_kept_trans _ _ _ Hprep Hloop)
           (global_kept_set_counters _ _ _)).
Qed.

(** C8, as the code has it: the per-step operations never change the
    topology fields ([nnucl], [shell], [nucl1..3], [k], [k_1], [k11],
    [k22], [k33]) of a global record.  [make_local_shells] writes no
    global record at all.  The steepest-descent update and the step-size
    shrink store through [shfc->shell]: with domain decomposition that is
    an array of its own and the global table stays as it is; on a single
    node it is the global table, whose [step], [xold] and [fold] are then
    overwritten.  The same holds of a whole call of
    [relax_shell_flexcon], prediction included. *)
Theorem C8_global_table_keeps_topology {hdr : Headers} {col : Collaborators}
    (fplog : bool) (cr : t_commrec) (bVerbose : bool) (mdstep : Z)
    (inputrec : t_inputrec) (bDoNS : bool) (state : t_state) (f : list rvec)
    (md : t_mdatoms) (graph : bool) (shfc : gmx_shellfc) (fc_stepsize : real)
    (vsite : bool) (res : relax_result) :
  relax_shell_flexcon fplog cr bVerbose mdstep inputrec bDoNS state f md
    graph shfc fc_stepsize vsite = Done res ->
  global_kept shfc (rr_shfc res)
  /\ (forall shfc0 shfc1,
        make_local_shells cr md shfc0 = Done shfc1 ->
        shell_gl shfc1 = shell_gl shfc0)
  /\ (forall xcur xnew f count xnew' cells',
        shell_pos_sd xcur xnew f (nshell shfc) (shell_cells shfc) count
        = Done (xnew', cells') ->
        global_kept shfc (store_shell_cells shfc cells'))
  /\ (forall cells',
        decrease_step_size (nshell shfc) (shell_cells shfc) = Done cells' ->
        global_kept shfc (store_shell_cells shfc cells')).
Proof.
  intros H. split; [|split; [|split]].
  - eapply global_kept_relax_shell_flexcon. exact H.
  - intros shfc0 shfc1. apply make_local_shells_global.
  - intros xcur xnew f' count xnew' cells' Hsd.
    apply shell_pos_sd_topology in Hsd.
    apply global_kept_store in Hsd as [K _]. exact K.
  - intros cells' Hdec. apply decrease_step_size_topology in Hdec.
    apply global_kept_store in Hdec as [K _]. exact K.
Qed.

Lemma C8_witness :
  global_kept pair_shfc (rr_shfc (pair_result (mk_rvec 1 0 0))).
Proof.
  refine (proj1 (@C8_global_table_keeps_topology example_headers
                   (example_collab (mk_rvec 1 0 0)) true single_rank true 1
                   example_ir false pair_state [rvec_zero; rvec_zero] pair_md
                   false pair_shfc 1 false (pair_result (mk_rvec 1 0 0)) _)).
  vm_compute. reflexivity.
Defined.

(** On a single node [shfc->shell] is the global table; one step that
    does not converge leaves the global record of the shell with the
    force 1 in [fold] and a non-zero [step], where set-up had left
    zeros. *)
Lemma C8_counterexample :
  shell_p pair_shfc = PtrGlobal
  /\ map step (shell_gl pair_shfc) = [rvec_zero]
  /\ map fold (shell_gl pair_shfc) = [rvec_zero]
  /\ match shell_gl (rr_shfc (pair_result (mk_rvec 1 0 0))) with
     | [s] => ~ (XX (step s) == 0)%Q /\ (XX (fold s) == 1)%Q
     | _ => False
     end.
Proof.
  split; [reflexivity|]. split; [reflexivity|]. split; [reflexivity|].
  vm_compute. split; [discriminate|reflexivity].
Qed.

(** ** The Drude hard wall *)

(** Whatever the positions computed for a corrected bond, both particles
    end at the one computed for the heavy atom: the code copies [xa] to
    [state->x[ia]] and to [state->x[ib]]. *)
Lemma hardwall_entry_stores_xa_twice {hdr : Headers} {col : Collaborators}
    (cr : t_commrec) (ir : t_inputrec) (md : t_mdatoms) (iatoms : list Z)
    (j a1 a2 ia ib : Z) (state state' : t_state) (vir vir' : tensor)
    (xa xb : rvec) :
  aget iatoms (j + 1) = Done a1 ->
  aget iatoms (j + 2) = Done a2 ->
  find_drude md a1 a2 = Done (Some (ia, ib)) ->
  aget (st_x state) ia = Done xa ->
  aget (st_x state) ib = Done xb ->
  Qltb (ir_drude_r ir * ir_drude_r ir) (norm2 (pbc_dx xb xa)) = true ->
  hardwall_entry cr ir md iatoms j (state, vir) = Done (state', vir') ->
  st_x state' !! Z.to_nat ib = st_x state' !! Z.to_nat ia
  /\ is_Some (st_x state' !! Z.to_nat ia).
Proof.
  intros H1 H2 Hfind Hxa Hxb Hfar H. unfold hardwall_entry in H.
  rewrite H1, H2 in H. cbn [obind] in H. rewrite Hfind in H. cbn [obind] in H.
  rewrite Hxa, Hxb in H. cbn [obind] in H.
  obind_as H va Hva. obind_as H vb Hvb. rewrite Hfar in H.
  cbv beta iota in H.
  destruct (Qltb (2 * ir_drude_r ir) _); [discriminate H|].
  obind_as H ma Hma. obind_as H mb Hmb.
  obind_as H x1 Hx1. obind_as H x2 Hx2.
  obind_as H v1 Hv1. obind_as H v2 Hv2.
  obind_as H xia Hxia. obind_as H xib Hxib.
  injection H as <- _. cbn [st_x].
  apply aget_Done in Hxia as [_ Hxia]. apply aget_Done in Hxib as [_ Hxib].
  apply aset_Done in Hx1 as [Hia ->]. apply aset_Done in Hx2 as [Hib ->].
  rewrite length_insert in Hib.
  rewrite list_lookup_insert_eq by (rewrite length_insert; lia).
  destruct (decide (Z.to_nat ia = Z.to_nat ib)) as [E|E].
  - rewrite E. rewrite list_lookup_insert_eq by (rewrite length_insert; lia).
    split; [reflexivity|eauto].
  - rewrite list_lookup_insert_ne by auto.
    rewrite list_lookup_insert_eq by lia. split; [reflexivity|eauto].
Qed.

(** The reflected velocity of one particle: [-c/m] when it moves outwards
    relative to the centre of mass, [c/m] when it moves inwards. *)
Lemma reflect_pos (d c1 c2 m : Q) :
  (0 < d -> ~ m == 0 ->
   (-1 * d * c1 * c2) / (Qabs d * m) == - (c1 * c2 / m))%Q.
Proof.
  intros Hd Hm. rewrite (Qabs_pos d) by (apply Qlt_le_weak; exact Hd).
  field. split; [exact Hm|]. intros E. rewrite E in Hd.
  exact (Qlt_irrefl 0 Hd).
Qed.

Lemma reflect_neg (d c1 c2 m : Q) :
  (d < 0 -> ~ m == 0 ->
   (-1 * d * c1 * c2) / (Qabs d * m) == c1 * c2 / m)%Q.
Proof.
  intros Hd Hm. rewrite (Qabs_neg d) by (apply Qlt_le_weak; exact Hd).
  field. split; [exact Hm|]. intros E. rewrite E in Hd.
  exact (Qlt_irrefl 0 Hd).
Qed.

Lemma reflect_zero (d c1 c2 m : Q) :
  (d == 0 -> (-1 * d * c1 * c2) / (Qabs d * m) == 0)%Q.
Proof. intros Hd. rewrite Hd. reflexivity. Qed.

Lemma scaled_difference_sign (m u s : Q) :
  (0 < m -> 0 < s ->
   (0 < u -> 0 < m * u / s) /\ (u < 0 -> m * u / s < 0)
   /\ (u == 0 -> m * u / s == 0))%Q.
Proof.
  intros Hm Hs.
  assert (Hinv : (0 < / s)%Q) by (apply Qinv_lt_0_compat; exact Hs).
  unfold Qdiv. split; [|split].
  - intros Hu. apply Qmult_lt_0_compat; [|exact Hinv].
    apply Qmult_lt_0_compat; assumption.
  - intros Hu.
    assert (H : (0 < m * (- u) * / s)%Q).
    { apply Qmult_lt_0_compat; [|exact Hinv].
      apply Qmult_lt_0_compat; [exact Hm|lra]. }
    assert (E : (m * (- u) * / s == - (m * u * / s))%Q) by ring.
    rewrite E in H. lra.
  - intros Hu. rewrite Hu. ring.
Qed.

Lemma rcomp_inc_svmul (a e : rvec) (t : real) (d : dim) :
  rcomp (rvec_inc a (svmul t e)) d = (rcomp a d + t * rcomp e d)%Q.
Proof. destruct d; reflexivity. Qed.

(** For positive masses the correction does not conserve the momentum
    along the bond: the momentum it adds is the momentum the pair had
    along the bond, [(ma + mb) * vbcom]. *)
Lemma hardwall_correct_momentum {hdr : Headers} (ir : t_inputrec)
    (ma mb : real) (xa xb va vb vecab0 : rvec) (rab : real) (d : dim) :
  (0 < ma)%Q -> (0 < mb)%Q ->
  (ma * (rcomp (fix_va (hardwall_correct ir ma mb xa xb va vb vecab0 rab)) d
         - rcomp va d)
   + mb * (rcomp (fix_vb (hardwall_correct ir ma mb xa xb va vb vecab0 rab)) d
           - rcomp vb d)
   == (ma * iprod va (svmul (1 / rab) vecab0)
       + mb * iprod vb (svmul (1 / rab) vecab0))
      * rcomp (svmul (1 / rab) vecab0) d)%Q.
Proof.
  intros Hma Hmb. unfold hardwall_correct. cbv zeta. cbn [fix_va fix_vb].
  set (e := svmul (1 / rab) vecab0).
  set (p1 := iprod va e). set (p2 := iprod vb e).
  set (vbond := real_sqrt _).
  assert (Hs : (0 < ma + mb)%Q) by lra.
  assert (Hm : ~ (ma + mb == 0)%Q) by (intros E; lra).
  set (vbcom := ((ma * p1 + mb * p2) / (ma + mb))%Q).
  assert (Hd1 : (p1 - vbcom == mb * (p1 - p2) / (ma + mb))%Q)
    by (unfold vbcom; field; exact Hm).
  assert (Hd2 : (p2 - vbcom == ma * (p2 - p1) / (ma + mb))%Q)
    by (unfold vbcom; field; exact Hm).
  destruct (scaled_difference_sign mb (p1 - p2) (ma + mb) Hmb Hs)
    as (S1p & S1n & S1z).
  destruct (scaled_difference_sign ma (p2 - p1) (ma + mb) Hma Hs)
    as (S2p & S2n & S2z).
  rewrite <- Hd1 in S1p, S1n, S1z. rewrite <- Hd2 in S2p, S2n, S2z.
  set (t1 := ((-1 * (p1 - vbcom) * vbond * mb)
               / (fabs (p1 - vbcom) * (ma + mb)))%Q).
  set (t2 := ((-1 * (p2 - vbcom) * vbond * ma)
               / (fabs (p2 - vbcom) * (ma + mb)))%Q).
  assert (Hsum : (ma * t1 + mb * t2 == 0)%Q).
  { unfold t1, t2, fabs. destruct (Q_dec p1 p2) as [[Hlt|Hgt]|Heq].
    - rewrite reflect_neg by (try apply S1n; try exact Hm; lra).
      rewrite reflect_pos by (try apply S2p; try exact Hm; lra).
      field. exact Hm.
    - rewrite reflect_pos by (try apply S1p; try exact Hm; lra).
      rewrite reflect_neg by (try apply S2n; try exact Hm; lra).
      field. exact Hm.
    - rewrite !reflect_zero; [ring| |].
      + apply S2z. rewrite Heq. ring.
      + apply S1z. rewrite Heq. ring. }
  assert (Hcom : ((ma + mb) * vbcom == ma * p1 + mb * p2)%Q)
    by (unfold vbcom; field; exact Hm).
  rewrite !rcomp_inc_svmul.
  transitivity ((ma * t1 + mb * t2 + (ma + mb) * vbcom) * rcomp e d)%Q;
    [ring|]. rewrite Hsum, Hcom. ring.
Qed.

(** C4 at a concrete violating bond (length 3/10, wall 1/5): the
    correction returns, and afterwards the atom and its Drude are stored
    at the same point, 51/2000 along x; their separation is 0, not the
    wall distance 1/5, although the position computed for the Drude was
    447/2000. *)
Theorem C4_hardwall_stores_one_position_for_both :
  (exists vir, wall_result = Done (wall_final, vir))
  /\ (wall_x wall_state 0 == 0)%Q /\ (wall_x wall_state 1 == 3 # 10)%Q
  /\ (wall_x wall_final 0 == 51 # 2000)%Q
  /\ (wall_x wall_final 1 == 51 # 2000)%Q
  /\ ~ (wall_x wall_final 1 - wall_x wall_final 0 == ir_drude_r wall_ir)%Q
  /\ (XX (fix_xb (@hardwall_correct example_headers wall_ir 3 1 rvec_zero
                    (mk_rvec (3 # 10) 0 0) (mk_rvec 1 0 0) (mk_rvec 5 0 0)
                    (mk_rvec (3 # 10) 0 0) (3 # 10)))
      == 447 # 2000)%Q.
Proof.
  split; [eexists; vm_compute; reflexivity|].
  repeat split; try (vm_compute; reflexivity).
  vm_compute. discriminate.
Qed.

(** C3 at the same bond: along the bond the atom (mass 3) goes from
    velocity 1 to 13/4 and the Drude (mass 1) from 5 to 25/4, so
    [m_a*dv_a + m_b*dv_b] is 8, the momentum of the pair along the bond
    before the correction, and not 0: the new bond-aligned velocities are
    added to the old velocities instead of replacing their bond-aligned
    parts. *)
Theorem C3_hardwall_changes_bond_momentum :
  (exists vir, wall_result = Done (wall_final, vir))
  /\ (wall_v wall_state 0 == 1)%Q /\ (wall_v wall_state 1 == 5)%Q
  /\ (wall_v wall_final 0 == 13 # 4)%Q /\ (wall_v wall_final 1 == 25 # 4)%Q
  /\ (3 * (wall_v wall_final 0 - wall_v wall_state 0)
      + 1 * (wall_v wall_final 1 - wall_v wall_state 1) == 8)%Q
  /\ ~ (3 * (wall_v wall_final 0 - wall_v wall_state 0)
        + 1 * (wall_v wall_final 1 - wall_v wall_state 1) == 0)%Q.
Proof.
  split; [eexists; vm_compute; reflexivity|].
  repeat split; try (vm_compute; reflexivity).
  vm_compute. discriminate.
Qed.

(** ** Counted loops *)

Lemma zrange_cons (lo hi : Z) :
  lo < hi -> zrange lo hi = lo :: zrange (lo + 1) hi.
Proof.
  intros H. unfold zrange.
  replace (Z.to_nat (hi - lo)) with (S (Z.to_nat (hi - (lo + 1)))) by lia.
  cbn [seq map]. f_equal; [lia|].
  rewrite <- seq_shift, map_map. apply map_ext. intros n. lia.
Qed.

Lemma zrange_nil (lo hi : Z) : hi <= lo -> zrange lo hi = [].
Proof.
  intros H. unfold zrange. replace (Z.to_nat (hi - lo)) with 0%nat by lia.
  reflexivity.
Qed.

(** The invariant rule of [for (i = lo; i < hi; i++)]: [P i] holds of the
    state when the body is entered with counter [i]. *)
Lemma ofold_zrange {S : Type} (P : Z -> S -> Prop) (body : S -> Z -> outcome S)
    (hi : Z) :
  (forall i s s', i < hi -> P i s -> body s i = Done s' -> P (i + 1) s') ->
  forall (n : nat) (lo : Z) (s s' : S),
    n = Z.to_nat (hi - lo) ->
    P lo s -> ofold body (zrange lo hi) s = Done s' -> P (Z.max lo hi) s'.
Proof.
  intros Hbody. induction n as [|n IH]; intros lo s s' Hn Hs H.
  - rewrite zrange_nil in H by lia. injection H as <-.
    replace (Z.max lo hi) with lo by lia. exact Hs.
  - rewrite zrange_cons in H by lia. cbn [ofold] in H.
    apply obind_Done in H as (s1 & H1 & H).
    replace (Z.max lo hi) with (Z.max (lo + 1) hi) by lia.
    apply (IH (lo + 1) s1 s'); [lia| |exact H].
    apply (Hbody lo s s1); [lia|exact Hs|exact H1].
Qed.

(** The same rule for a body that the invariant keeps from failing: the
    loop returns. *)
Lemma ofold_zrange_total {S : Type} (P : Z -> S -> Prop)
    (body : S -> Z -> outcome S) (hi : Z) :
  (forall i s, i < hi -> P i s -> exists s', body s i = Done s' /\ P (i + 1) s') ->
  forall (n : nat) (lo : Z) (s : S),
    n = Z.to_nat (hi - lo) ->
    P lo s ->
    exists s', ofold body (zrange lo hi) s = Done s' /\ P (Z.max lo hi) s'.
Proof.
  intros Hbody. induction n as [|n IH]; intros lo s Hn Hs.
  - rewrite zrange_nil by lia. exists s. split; [reflexivity|].
    replace (Z.max lo hi) with lo by lia. exact Hs.
  - rewrite zrange_cons by lia. cbn [ofold].
    destruct (Hbody lo s) as (s1 & H1 & Hs1); [lia|exact Hs|].
    rewrite H1. cbn [obind].
    replace (Z.max lo hi) with (Z.max (lo + 1) hi) by lia.
    apply (IH (lo + 1) s1); [lia|exact Hs1].
Qed.

Lemma aget_lookup {A : Type} (l : list A) (i : Z) (a : A) :
  0 <= i -> l !! Z.to_nat i = Some a -> aget l i = Done a.
Proof.
  intros Hi H. unfold aget.
  destruct (Z.ltb_spec i 0); [lia|]. rewrite H. reflexivity.
Qed.

Lemma aset_in_range {A : Type} (l : list A) (i : Z) (a : A) :
  0 <= i < Z.of_nat (length l) -> aset l i a = Done (<[Z.to_nat i := a]> l).
Proof.
  intros Hi. unfold aset.
  destruct (Z.leb_spec 0 i); [|lia].
  destruct (Z.ltb_spec i (Z.of_nat (length l))); [|lia]. reflexivity.
Qed.

Lemma obind_Fatal {A B : Type} (m : outcome A) (f : A -> outcome B)
    (e : fatal_error) :
  obind m f = Fatal e -> m = Fatal e \/ exists a, m = Done a /\ f a = Fatal e.
Proof.
  destruct m as [a|e0|]; cbn; intros H; try discriminate.
  - right. exists a. split; [reflexivity|exact H].
  - left. injection H as ->. reflexivity.
Qed.

Lemma aget_not_Fatal {A : Type} (l : list A) (i : Z) (e : fatal_error) :
  aget l i <> Fatal e.
Proof.
  unfold aget. destruct (i <? 0); [discriminate|].
  destruct (l !! Z.to_nat i); discriminate.
Qed.

Lemma aset_not_Fatal {A : Type} (l : list A) (i : Z) (a : A) (e : fatal_error) :
  aset l i a <> Fatal e.
Proof.
  unfold aset. destruct ((0 <=? i) && (i <? Z.of_nat (length l))); discriminate.
Qed.

Lemma ofold_Fatal {A S : Type} (body : S -> A -> outcome S) (xs : list A)
    (e : fatal_error) :
  forall s, ofold body xs s = Fatal e ->
            exists x s0, In x xs /\ body s0 x = Fatal e.
Proof.
  induction xs as [|x xs IH]; cbn [ofold]; intros s H; [discriminate|].
  apply obind_Fatal in H as [H|(s1 & _ & H)].
  - exists x, s. split; [left; reflexivity|exact H].
  - destruct (IH s1 H) as (x' & s0 & Hin & Hb).
    exists x', s0. split; [right; exact Hin|exact Hb].
Qed.

(** ** Counting the particles and numbering the shells *)

Lemma orepeat_inv_count {S : Type} (P : nat -> S -> Prop)
    (body : S -> outcome S) :
  (forall k s s', P k s -> body s = Done s' -> P (Datatypes.S k) s') ->
  forall (count : nat) (k : nat) (s s' : S),
    P k s -> orepeat count body s = Done s' -> P (k + count)%nat s'.
Proof.
  intros Hbody. induction count as [|c IH]; cbn [orepeat]; intros k s s' Hs H.
  - injection H as <-. replace (k + 0)%nat with k by lia. exact Hs.
  - obind_as H s1 H1. replace (k + Datatypes.S c)%nat with (Datatypes.S k + c)%nat by lia.
    apply (IH (Datatypes.S k) s1 s'); [|exact H]. apply (Hbody k s s1); assumption.
Qed.

(** One molecule type in [countPtypes]: every atom of a supported type
    adds [nmol] to the count of its type. *)
Lemma count_atoms_step (nmol : Z) (atoms : list t_atom) :
  forall n : nptype_t,
    let n' :=
      fold_left
        (fun n atom =>
           match atom_ptype atom with
           | eptAtom | eptVSite | eptShell =>
               nptype_add n (atom_ptype atom) nmol
           | _ => n
           end)
        atoms n in
    n' eptShell
    = n eptShell
      + nmol * Z.of_nat
                 (length
                    (List.filter (fun a => is_shell_ptype (atom_ptype a)) atoms))
    /\ n' eptNucleus = n eptNucleus
    /\ n' eptBond = n eptBond.
Proof.
  induction atoms as [|a atoms IH]; intros n; cbn [fold_left List.filter].
  - cbn. split; [lia|]. split; reflexivity.
  - cbv zeta in IH.
    destruct (atom_ptype a) eqn:E; cbn [is_shell_ptype ptype_eqb];
      match goal with
      | |- context [fold_left ?f atoms ?m] =>
          destruct (IH m) as (I1 & I2 & I3)
      end; cbv zeta; rewrite I1, I2, I3;
      unfold nptype_add; cbn [ptype_eqb length]; repeat split; lia.
Qed.

(** X1: [countPtypes] counts atoms, virtual sites and shells only: a
    particle of another type (nucleus, bond) is skipped with a warning,
    and the counts of those types stay zero. *)
Theorem countPtypes_skips_unsupported_types (mtop : gmx_mtop_t)
    (n : nptype_t) :
  countPtypes mtop = Done n -> n eptNucleus = 0 /\ n eptBond = 0.
Proof.
  unfold countPtypes. intros H.
  refine (ofold_inv (fun m : nptype_t => m eptNucleus = 0 /\ m eptBond = 0)
            _ _ _ _ _ _ H); [|split; reflexivity].
  intros m molb m' [H1 H2] Hb. obind_as Hb molt Hmolt. injection Hb as <-.
  destruct (count_atoms_step (mb_nmol molb) (mt_atoms molt) m)
    as (_ & E1 & E2).
  cbv zeta in E1, E2. rewrite E1, E2. split; assumption.
Qed.

Lemma countPtypes_skips_unsupported_types_witness :
  example_counts eptNucleus = 0 /\ example_counts eptBond = 0.
Proof.
  apply (countPtypes_skips_unsupported_types (example_mtop drude_pair 2)).
  reflexivity.
Defined.

Lemma index_atoms_step (atoms : list t_atom) :
  forall (st st' : list Z * Z * Z),
    ofold
      (fun '(idx, i, n) atom =>
         if is_shell_ptype (atom_ptype atom)
         then let* idx' := aset idx i n in Done (idx', i + 1, n + 1)
         else Done (idx, i + 1, n))
      atoms st = Done st' ->
    snd st'
    = snd st
      + Z.of_nat
          (length
             (List.filter (fun a => is_shell_ptype (atom_ptype a)) atoms))
    /\ (index_ok st -> index_ok st').
Proof.
  induction atoms as [|a atoms IH]; intros [[idx i] n] st' H;
    cbn [ofold List.filter] in *.
  - injection H as <-. cbn. split; [lia|auto].
  - obind_as H st1 H1. destruct (IH _ _ H) as [IHn IHok].
    destruct (is_shell_ptype (atom_ptype a)).
    + obind_as H1 idx' Hset. apply aset_Done in Hset as [_ ->].
      injection H1 as <-. cbn [snd length] in *. split; [lia|].
      intros [Hn Hall]. apply IHok. unfold index_ok. cbn [fst snd] in *.
      split; [lia|]. apply Forall_insert.
      * eapply Forall_impl; [exact Hall|]. cbn. intros v Hv. lia.
      * lia.
    + injection H1 as <-. cbn [snd] in *. split; [lia|exact IHok].
Qed.

(** Both passes over the molecule blocks, side by side. *)
Lemma count_and_index_agree (types : list gmx_moltype_t)
    (blocks : list gmx_molblock_t) :
  Forall (fun molb => 0 <= mb_nmol molb) blocks ->
  forall (n0 n : nptype_t) (st0 st : list Z * Z * Z),
    ofold
      (fun n molb =>
         let* molt := aget types (mb_type molb) in
         Done (fold_left
                 (fun n atom =>
                    match atom_ptype atom with
                    | eptAtom | eptVSite | eptShell =>
                        nptype_add n (atom_ptype atom) (mb_nmol molb)
                    | _ => n
                    end)
                 (mt_atoms molt) n))
      blocks n0 = Done n ->
    ofold
      (fun st molb =>
         let* molt := aget types (mb_type molb) in
         orepeat (Z.to_nat (mb_nmol molb))
           (ofold
              (fun '(idx, i, n) atom =>
                 if is_shell_ptype (atom_ptype atom)
                 then let* idx' := aset idx i n in Done (idx', i + 1, n + 1)
                 else Done (idx, i + 1, n))
              (mt_atoms molt))
           st)
      blocks st0 = Done st ->
    snd st - snd st0 = n eptShell - n0 eptShell.
Proof.
  intros Hpos. induction Hpos as [|molb blocks Hmolb _ IH];
    intros n0 n st0 st Hc Hi; cbn [ofold] in Hc, Hi.
  - injection Hc as <-. injection Hi as <-. lia.
  - obind_as Hc n1 Hc1. obind_as Hi st1 Hi1.
    specialize (IH _ _ _ _ Hc Hi).
    obind_as Hc1 molt Hmolt. injection Hc1 as <-.
    obind_as Hi1 molt' Hmolt'. rewrite Hmolt in Hmolt'.
    injection Hmolt' as <-.
    destruct (count_atoms_step (mb_nmol molb) (mt_atoms molt) n0)
      as (E & _). cbv zeta in E.
    assert (Hrep : snd st1
                   = snd st0
                     + Z.of_nat (Z.to_nat (mb_nmol molb))
                       * Z.of_nat
                           (length
                              (List.filter
                                 (fun a => is_shell_ptype (atom_ptype a))
                                 (mt_atoms molt)))).
    { set (c := Z.of_nat
                  (length
                     (List.filter (fun a => is_shell_ptype (atom_ptype a))
                        (mt_atoms molt)))) in *.
      assert (Hr : (fun (k : nat) (s : list Z * Z * Z) =>
                      snd s = snd st0 + Z.of_nat k * c)
                     (0 + Z.to_nat (mb_nmol molb))%nat st1).
      { refine (orepeat_inv_count
                  (fun k s => snd s = snd st0 + Z.of_nat k * c) _ _
                  (Z.to_nat (mb_nmol molb)) 0%nat st0 st1 _ Hi1).
        - intros k s s' Hs Hb.
          destruct (index_atoms_step (mt_atoms molt) s s' Hb) as [Hn _].
          fold c in Hn. rewrite Hn, Hs. nia.
        - cbn. lia. }
      cbn [Nat.add] in Hr. exact Hr. }
    rewrite E in IH. rewrite Hrep in IH.
    rewrite Z2Nat.id in IH by exact Hmolb. lia.
Qed.

Lemma shell_index_agrees_with_count_lemma (mtop : gmx_mtop_t) (n : nptype_t)
    (shell_index : list Z) (nshell1 : Z) :
  Forall (fun molb => 0 <= mb_nmol molb) (molblock mtop) ->
  countPtypes mtop = Done n ->
  make_shell_index mtop = Done (shell_index, nshell1) ->
  nshell1 = n eptShell
  /\ length shell_index = Z.to_nat (mtop_natoms mtop)
  /\ (n eptShell <> 0 -> Forall (fun v => 0 <= v < nshell1) shell_index).
Proof.
  intros Hpos Hc Hi. unfold countPtypes in Hc. unfold make_shell_index in Hi.
  obind_as Hi r Hr. injection Hi as <- <-.
  pose proof (count_and_index_agree _ _ Hpos _ _ _ _ Hc Hr) as Hagree.
  cbn [snd] in Hagree.
  assert (Hok : index_ok r
                /\ length (fst (fst r)) = Z.to_nat (mtop_natoms mtop)).
  { refine (ofold_inv
              (fun st => index_ok st
                         /\ length (fst (fst st)) = Z.to_nat (mtop_natoms mtop))
              _ _ _ _ _ _ Hr).
    - intros st molb st' Hst Hb. obind_as Hb molt Hmolt.
      refine (orepeat_inv
                (fun st => index_ok st
                           /\ length (fst (fst st))
                              = Z.to_nat (mtop_natoms mtop))
                _ _ _ _ _ Hst Hb).
      intros s s' [Hs Hl] Hbody. split.
      + apply (proj2 (index_atoms_step _ _ _ Hbody)). exact Hs.
      + rewrite <- Hl. clear - Hbody. revert s s' Hbody.
        induction (mt_atoms molt) as [|a atoms IH]; intros [[idx i] c] s' H;
          cbn [ofold] in H.
        * injection H as <-. reflexivity.
        * obind_as H s1 H1. rewrite (IH _ _ H).
          destruct (is_shell_ptype (atom_ptype a)).
          -- obind_as H1 idx' Hset. apply aset_Done in Hset as [_ ->].
             injection H1 as <-. cbn. apply length_insert.
          -- injection H1 as <-. reflexivity.
    - split.
      + unfold index_ok. cbn [fst snd]. split; [lia|].
        apply Forall_replicate. lia.
      + cbn [fst]. apply length_replicate. }
  destruct Hok as [[Hn Hall] Hlen].
  split; [lia|]. split; [exact Hlen|].
  intros Hne. eapply Forall_impl; [exact Hall|]. cbn. intros v Hv. lia.
Qed.

(** X2: for molecule counts that are not negative, the two passes of
    set-up over the atoms agree on the number of shells: the number
    [nshell] that the numbering pass ends with, the size of the table,
    is the count [n[eptShell]] of [countPtypes]; and every entry of the
    shell index is a valid row of a table of that size when there is a
    shell at all. *)
Theorem shell_index_agrees_with_count (mtop : gmx_mtop_t) (n : nptype_t)
    (shell_index : list Z) (nshell1 : Z) :
  Forall (fun molb => 0 <= mb_nmol molb) (molblock mtop) ->
  countPtypes mtop = Done n ->
  make_shell_index mtop = Done (shell_index, nshell1) ->
  nshell1 = n eptShell
  /\ length shell_index = Z.to_nat (mtop_natoms mtop)
  /\ (n eptShell <> 0 -> Forall (fun v => 0 <= v < nshell1) shell_index).
Proof. apply shell_index_agrees_with_count_lemma. Qed.

Lemma shell_index_agrees_with_count_witness :
  nshell_gl example_shfc = example_counts eptShell
  /\ length (shell_index_gl example_shfc)
     = Z.to_nat (mtop_natoms (example_mtop drude_pair 2)).
Proof.
  destruct (shell_index_agrees_with_count (example_mtop drude_pair 2)
              example_counts (shell_index_gl example_shfc)
              (nshell_gl example_shfc)) as (H1 & H2 & _).
  - repeat constructor; cbn; lia.
  - reflexivity.
  - vm_compute. reflexivity.
  - split; [exact H1|exact H2].
Defined.

(** ** The global table after set-up *)

(** What a return of [init_shell_flexcon] on a topology with shells
    consists of. *)
Lemma init_shell_flexcon_shells {hdr : Headers} (shfc : gmx_shellfc)
    (ir : t_inputrec) (env : environment) (mtop : gmx_mtop_t)
    (nflexcon_arg nstcalcenergy : Z) (n : nptype_t) (shfc' : gmx_shellfc) :
  countPtypes mtop = Done n ->
  n eptShell <> 0 ->
  init_shell_flexcon shfc ir env mtop nflexcon_arg nstcalcenergy = Done shfc' ->
  exists shell_index nshell1 st,
    nstcalcenergy = 1
    /\ make_shell_index mtop = Done (shell_index, nshell1)
    /\ scan_topology (ffparams mtop) shell_index nshell1 mtop
         (mk_scan (replicate (Z.to_nat nshell1) shell_init) 0 0 false)
       = Done st
    /\ sc_ns st = nshell1
    /\ shfc'
       = finish_init (set_nflexcon shfc nflexcon_arg) ir env (sc_ns st)
           (map (fun s => set_k_1 s (1 / k s)%Q) (sc_shell st)) shell_index
           (sc_bInterCG st).
Proof.
  intros Hn Hshell H. unfold init_shell_flexcon in H. rewrite Hn in H.
  cbn [obind] in H.
  destruct (Z.eqb_spec (n eptShell) 0) as [|_]; [contradiction|].
  cbn [andb] in H.
  destruct (Z.eqb_spec nstcalcenergy 1) as [Hnst|]; [|discriminate].
  cbn [negb] in H.
  obind_as H [shell_index nshell1] Hidx. obind_as H st Hscan.
  destruct (Z.eqb_spec (sc_ns st) nshell1) as [Hfull|]; [|discriminate].
  cbn [negb] in H. injection H as <-.
  exists shell_index, nshell1, st. repeat split; assumption.
Qed.

(** X3: the global table that set-up returns for a topology with shells
    has [nshell_gl] records; record [i] belongs to the shell atom
    [shell], a valid atom number, and the shell index maps that atom
    back to [i]; so no two records belong to the same shell. *)
Theorem init_table_matches_shell_index {hdr : Headers} (shfc : gmx_shellfc)
    (ir : t_inputrec) (env : environment) (mtop : gmx_mtop_t)
    (nflexcon_arg nstcalcenergy : Z) (n : nptype_t) (shfc' : gmx_shellfc) :
  countPtypes mtop = Done n ->
  n eptShell <> 0 ->
  init_shell_flexcon shfc ir env mtop nflexcon_arg nstcalcenergy = Done shfc' ->
  nshell_gl shfc' = Z.of_nat (length (shell_gl shfc'))
  /\ (forall i s,
        shell_gl shfc' !! i = Some s ->
        0 <= shell s
        /\ shell_index_gl shfc' !! Z.to_nat (shell s) = Some (Z.of_nat i))
  /\ (forall i j si sj,
        shell_gl shfc' !! i = Some si -> shell_gl shfc' !! j = Some sj ->
        shell si = shell sj -> i = j).
Proof.
  intros Hn Hshell H.
  destruct (init_shell_flexcon_shells _ _ _ _ _ _ _ _ Hn Hshell H)
    as (shell_index & nshell1 & st & _ & _ & Hscan & Hfull & ->).
  cbn [finish_init nshell_gl shell_gl shell_index_gl].
  pose proof (scan_topology_inv _ _ _ _ _ _ _ (scan_inv_init _) Hscan)
    as (Hlen & _ & Hns).
  assert (Hcount : sc_ns st = Z.of_nat (length (sc_shell st))).
  { pose proof (n_bonded_bounds (sc_shell st)). lia. }
  assert (Hclaimed : Forall (fun s => shell s <> -1) (sc_shell st)).
  { apply n_bonded_full. lia. }
  assert (Hidx : forall i s,
            sc_shell st !! i = Some s ->
            shell s = -1
            \/ (0 <= shell s
                /\ shell_index !! Z.to_nat (shell s) = Some (Z.of_nat i))).
  { refine (scan_topology_preserves (ffparams mtop) shell_index nshell1
              (fun st0 => forall i s,
                 sc_shell st0 !! i = Some s ->
                 shell s = -1
                 \/ (0 <= shell s
                     /\ shell_index !! Z.to_nat (shell s) = Some (Z.of_nat i)))
              _ _ mtop _ st _ Hscan).
    - intros st0 aN Hst0. exact Hst0.
    - intros bt atom at2cg a_offset mb type aS aN st0 st1 _ Hst0 Hatt.
      apply attach_shell_Done in Hatt
        as (nsi & s0 & s4 & Hoff & Hnsi & Hnsi0 & Hs0 & -> & Hsh & _).
      intros i s Hs. destruct (decide (i = Z.to_nat nsi)) as [->|Hne].
      + rewrite list_lookup_insert_eq in Hs
          by (eapply lookup_lt_Some; exact Hs0).
        injection Hs as <-. right. rewrite Hsh. split; [exact Hoff|].
        rewrite Hnsi. f_equal. lia.
      + rewrite list_lookup_insert_ne in Hs by auto. apply Hst0. exact Hs.
    - cbn [sc_shell]. intros i s Hs.
      apply lookup_replicate_1 in Hs as [-> _]. left. reflexivity. }
  assert (Hrec : forall i s,
            (map (fun s0 => set_k_1 s0 (1 / k s0)%Q) (sc_shell st)) !! i
            = Some s ->
            0 <= shell s
            /\ shell_index !! Z.to_nat (shell s) = Some (Z.of_nat i)).
  { intros i s Hs.
    change (((fun s0 => set_k_1 s0 (1 / k s0)%Q) <$> sc_shell st) !! i
            = Some s) in Hs.
    rewrite list_lookup_fmap in Hs.
    destruct (sc_shell st !! i) as [s0|] eqn:E; [|discriminate].
    injection Hs as <-. cbn [shell set_k_1].
    destruct (Hidx i s0 E) as [Hm|Hok]; [|exact Hok].
    exfalso. rewrite Forall_forall in Hclaimed.
    apply (Hclaimed s0); [|exact Hm].
    eapply list_elem_of_lookup_2. exact E. }
  split; [rewrite length_map; exact Hcount|]. split; [exact Hrec|].
  intros i j si sj Hi Hj Heq.
  destruct (Hrec i si Hi) as [_ Hi'], (Hrec j sj Hj) as [_ Hj'].
  rewrite Heq in Hi'. rewrite Hi' in Hj'. injection Hj' as Hij. lia.
Qed.

Lemma init_table_matches_shell_index_witness :
  nshell_gl example_shfc = Z.of_nat (length (shell_gl example_shfc))
  /\ forall i s,
       shell_gl example_shfc !! i = Some s ->
       0 <= shell s
       /\ shell_index_gl example_shfc !! Z.to_nat (shell s)
          = Some (Z.of_nat i).
Proof.
  destruct (@init_table_matches_shell_index example_headers shfc_zero
              example_ir example_env (example_mtop drude_pair 2) 0 1
              example_counts example_shfc) as (H1 & H2 & _).
  - reflexivity.
  - vm_compute. discriminate.
  - vm_compute. reflexivity.
  - split; [exact H1|exact H2].
Defined.

(** X4: set-up never gives a shell an anisotropic force constant: an
    [F_ANISO_POL] entry selects no shell in the first switch of the
    scan, so the accumulation of [k11], [k22], [k33] in the second
    switch is not reached, and every record of the table that is
    returned has the three of them zero, as initialised. *)
Theorem init_leaves_anisotropy_zero {hdr : Headers} (shfc : gmx_shellfc)
    (ir : t_inputrec) (env : environment) (mtop : gmx_mtop_t)
    (nflexcon_arg nstcalcenergy : Z) (n : nptype_t) (shfc' : gmx_shellfc) :
  countPtypes mtop = Done n ->
  n eptShell <> 0 ->
  init_shell_flexcon shfc ir env mtop nflexcon_arg nstcalcenergy = Done shfc' ->
  Forall (fun s => k11 s = 0%Q /\ k22 s = 0%Q /\ k33 s = 0%Q) (shell_gl shfc').
Proof.
  intros Hn Hshell H.
  destruct (init_shell_flexcon_shells _ _ _ _ _ _ _ _ Hn Hshell H)
    as (shell_index & nshell1 & st & _ & _ & Hscan & _ & ->).
  cbn [finish_init shell_gl]. apply Forall_fmap.
  assert (Hzero : Forall (fun s => k11 s = 0%Q /\ k22 s = 0%Q /\ k33 s = 0%Q)
                    (sc_shell st)).
  { refine (scan_topology_preserves (ffparams mtop) shell_index nshell1
              (fun st0 =>
                 Forall (fun s => k11 s = 0%Q /\ k22 s = 0%Q /\ k33 s = 0%Q)
                   (sc_shell st0))
              _ _ mtop _ st _ Hscan).
    - intros st0 aN Hst0. exact Hst0.
    - intros bt atom at2cg a_offset mb type aS aN st0 st1 Hbt Hst0 Hatt.
      apply attach_shell_Done in Hatt
        as (nsi & s0 & s4 & _ & _ & _ & Hs0 & -> & _ & Hk).
      destruct (Hk Hbt) as (K1 & K2 & K3).
      apply Forall_insert; [exact Hst0|].
      pose proof (proj1 (Forall_lookup _ _) Hst0 _ _ Hs0) as (Z1 & Z2 & Z3).
      repeat split; congruence.
    - cbn [sc_shell]. apply Forall_replicate. repeat split; reflexivity. }
  eapply Forall_impl; [exact Hzero|]. intros s Hs. exact Hs.
Qed.

Lemma init_leaves_anisotropy_zero_witness :
  Forall (fun s => k11 s = 0%Q /\ k22 s = 0%Q /\ k33 s = 0%Q)
    (shell_gl example_shfc).
Proof.
  apply (@init_leaves_anisotropy_zero example_headers shfc_zero example_ir
           example_env (example_mtop drude_pair 2) 0 1 example_counts
           example_shfc).
  - reflexivity.
  - vm_compute. discriminate.
  - vm_compute. reflexivity.
Defined.

(** X5: after set-up on a topology with shells, prediction is switched
    on exactly when GMX_NOPREDICT is not set, the Drude mode is not the
    extended Lagrangian, and no shell is bonded to a particle outside
    its charge group; shell positions are always initialised exactly
    when GMX_REQUIRE_SHELL_INIT is set and the first two of these
    conditions hold, whatever the charge groups; and the number of
    flexible constraints is the one passed in. *)
Theorem init_prediction_flags {hdr : Headers} (shfc : gmx_shellfc)
    (ir : t_inputrec) (env : environment) (mtop : gmx_mtop_t)
    (nflexcon_arg nstcalcenergy : Z) (n : nptype_t) (shfc' : gmx_shellfc) :
  countPtypes mtop = Done n ->
  n eptShell <> 0 ->
  init_shell_flexcon shfc ir env mtop nflexcon_arg nstcalcenergy = Done shfc' ->
  (bPredict shfc' = true <->
   GMX_NOPREDICT env = false
   /\ ~ (ir_bDrude ir = true /\ ir_drudemode ir = edrudeLagrangian)
   /\ bInterCG shfc' = false)
  /\ (bRequireInit shfc' = true <->
      GMX_REQUIRE_SHELL_INIT env = true
      /\ GMX_NOPREDICT env = false
      /\ ~ (ir_bDrude ir = true /\ ir_drudemode ir = edrudeLagrangian))
  /\ nflexcon shfc' = nflexcon_arg.
Proof.
  intros Hn Hshell H.
  destruct (init_shell_flexcon_shells _ _ _ _ _ _ _ _ Hn Hshell H)
    as (shell_index & nshell1 & st & _ & _ & _ & _ & ->).
  cbn [finish_init bPredict bRequireInit bInterCG nflexcon set_nflexcon].
  destruct (GMX_NOPREDICT env), (GMX_REQUIRE_SHELL_INIT env), (ir_bDrude ir),
    (ir_drudemode ir), (sc_bInterCG st); cbn;
    (split; [|split; [|reflexivity]]);
    split; intros; repeat split; try reflexivity; try discriminate;
    try tauto;
    try (match goal with
         | H : _ /\ _ |- _ => destruct H as (? & ? & ?)
         end; try discriminate; try tauto);
    try (intros [? ?]; discriminate).
Qed.

Lemma init_prediction_flags_witness :
  bPredict example_shfc = true <->
  GMX_NOPREDICT example_env = false
  /\ ~ (ir_bDrude example_ir = true
        /\ ir_drudemode example_ir = edrudeLagrangian)
  /\ bInterCG example_shfc = false.
Proof.
  refine (proj1 (@init_prediction_flags example_headers shfc_zero example_ir
                   example_env (example_mtop drude_pair 2) 0 1 example_counts
                   example_shfc _ _ _)).
  - reflexivity.
  - vm_compute. discriminate.
  - vm_compute. reflexivity.
Defined.

(** ** The errors of set-up *)

Lemma orepeat_Fatal {S : Type} (body : S -> outcome S) (e : fatal_error) :
  forall (count : nat) (s : S),
    orepeat count body s = Fatal e -> exists s0, body s0 = Fatal e.
Proof.
  induction count as [|c IH]; cbn [orepeat]; intros s H; [discriminate|].
  apply obind_Fatal in H as [H|(s1 & _ & H)]; eauto.
Qed.

Lemma never_fatal_orepeat {S : Type} (body : S -> outcome S) (count : nat)
    (s : S) :
  (forall s0, never_fatal (body s0)) -> never_fatal (orepeat count body s).
Proof.
  intros Hbody. revert s. induction count as [|c IH]; intros s;
    cbn [orepeat].
  - apply never_fatal_Done.
  - apply never_fatal_obind; [apply Hbody|exact IH].
Qed.

Lemma never_fatal_make_shell_index (mtop : gmx_mtop_t) :
  never_fatal (make_shell_index mtop).
Proof.
  unfold make_shell_index.
  never_fatal_with ltac:(first [apply never_fatal_orepeat]).
Qed.

(** Closes a goal [False] from a hypothesis that a computation made of
    array accesses only ended in a fatal error. *)
Ltac fatal_free H :=
  exfalso;
  match type of H with
  | ?m = Fatal _ =>
      let Hn := fresh "Hn" in
      assert (Hn : never_fatal m) by never_fatal_auto; exact (Hn _ H)
  end.

Section ScanErrors.
Context {hdr : Headers}.
Variable ffp : gmx_ffparams_t.
Variable shell_index : list Z.
Variable nshell_found : Z.
Hypothesis index_in_range : Forall (fun v => 0 <= v < nshell_found) shell_index.

Lemma find_shell_Fatal (bt : ftype_t) (atom : list t_atom) (ia : list Z)
    (i aN : Z) (e : fatal_error) :
  In bt bondtypes -> find_shell bt atom ia i aN <> Fatal e.
Proof.
  intros Hbt H. unfold find_shell in H.
  destruct bt; try (fatal_free H).
  cbn in Hbt. repeat destruct Hbt as [Hbt|Hbt]; discriminate || exact Hbt.
Qed.

Lemma attach_shell_Fatal (bt : ftype_t) (atom : list t_atom)
    (at2cg : list Z) (a_offset mb type aS aN : Z) (st : scan_state)
    (e : fatal_error) :
  In bt bondtypes ->
  attach_shell ffp shell_index nshell_found bt atom at2cg a_offset mb type
    aS aN st = Fatal e ->
  is_setup_error e = true.
Proof.
  intros Hbt H. unfold attach_shell in H.
  apply obind_Fatal in H as [H|(atS & _ & H)];
    [exfalso; exact (aget_not_Fatal _ _ _ H)|].
  apply obind_Fatal in H as [H|(nsi & Hnsi & H)];
    [exfalso; exact (aget_not_Fatal _ _ _ H)|].
  apply aget_Done in Hnsi as [_ Hnsi].
  pose proof (proj1 (Forall_lookup _ _) index_in_range _ _ Hnsi) as Hr.
  cbn beta in Hr.
  destruct (Z.ltb_spec nsi 0) as [|_]; [lia|].
  destruct (Z.geb_spec nsi nshell_found) as [|_]; [lia|].
  cbn [orb] in H.
  apply obind_Fatal in H as [H|(s0 & _ & H)];
    [exfalso; exact (aget_not_Fatal _ _ _ H)|].
  apply obind_Fatal in H as [H|([s1 ns] & _ & H)].
  { destruct (shell s0 =? -1); [discriminate H|].
    destruct (negb (shell s0 =? a_offset + aS)); [|discriminate H].
    injection H as <-. reflexivity. }
  apply obind_Fatal in H as [H|(s2 & _ & H)].
  { unfold attach_nucleus in H.
    repeat match type of H with
           | (if ?b then _ else _) = _ => destruct b
           end; try discriminate H.
    injection H as <-. reflexivity. }
  apply obind_Fatal in H as [H|(cgS & _ & H)];
    [exfalso; exact (aget_not_Fatal _ _ _ H)|].
  apply obind_Fatal in H as [H|(cgN & _ & H)];
    [exfalso; exact (aget_not_Fatal _ _ _ H)|].
  apply obind_Fatal in H as [H|(ip & _ & H)];
    [exfalso; exact (aget_not_Fatal _ _ _ H)|].
  apply obind_Fatal in H as [H|(s3 & _ & H)].
  { unfold add_force_constant in H.
    destruct bt;
      repeat match type of H with
             | (if ?b then _ else _) = _ => destruct b
             end; try discriminate H;
      try (injection H as <-; reflexivity).
    exfalso. cbn in Hbt.
    repeat destruct Hbt as [Hbt|Hbt]; discriminate || exact Hbt. }
  apply obind_Fatal in H as [H|(cells & _ & H)];
    [exfalso; exact (aset_not_Fatal _ _ _ _ H)|].
  discriminate H.
Qed.

Lemma scan_entry_Fatal (bt : ftype_t) (atom : list t_atom)
    (at2cg : list Z) (a_offset mb : Z) (ia : list Z) (i : Z)
    (st : scan_state) (e : fatal_error) :
  In bt bondtypes ->
  scan_entry ffp shell_index nshell_found bt atom at2cg a_offset mb ia i st
  = Fatal e ->
  is_setup_error e = true.
Proof.
  intros Hbt H. unfold scan_entry in H.
  apply obind_Fatal in H as [H|(type & _ & H)];
    [exfalso; exact (aget_not_Fatal _ _ _ H)|].
  apply obind_Fatal in H as [H|(ftype & _ & H)];
    [exfalso; exact (aget_not_Fatal _ _ _ H)|].
  apply obind_Fatal in H as [H|([aS aN] & _ & H)];
    [exfalso; exact (find_shell_Fatal _ _ _ _ _ _ Hbt H)|].
  apply obind_Fatal in H as [H|(st2 & _ & H)]; [|discriminate H].
  destruct (negb (aS =? -1)); [|discriminate H].
  eapply attach_shell_Fatal; eassumption.
Qed.

Lemma scan_ilist_Fatal (fuel : nat) (bt : ftype_t) (atom : list t_atom)
    (at2cg : list Z) (a_offset mb : Z) (il : t_ilist) (e : fatal_error) :
  In bt bondtypes ->
  forall (i : Z) (st : scan_state),
    scan_ilist ffp shell_index nshell_found fuel bt atom at2cg a_offset mb
      il i st = Fatal e ->
    is_setup_error e = true.
Proof.
  intros Hbt. induction fuel as [|fuel IH]; intros i st H;
    cbn [scan_ilist] in H; destruct (i <? il_nr il); try discriminate H.
  apply obind_Fatal in H as [H|([nra st1] & _ & H)].
  - eapply scan_entry_Fatal; eassumption.
  - eapply IH. exact H.
Qed.

Lemma scan_topology_Fatal (mtop : gmx_mtop_t) (st : scan_state)
    (e : fatal_error) :
  scan_topology ffp shell_index nshell_found mtop st = Fatal e ->
  is_setup_error e = true.
Proof.
  intros H. unfold scan_topology in H.
  apply obind_Fatal in H as [H|(r & _ & H)]; [|discriminate H].
  apply ofold_Fatal in H as (molb & [mb acc] & _ & H).
  apply obind_Fatal in H as [H|(molt & _ & H)];
    [exfalso; exact (aget_not_Fatal _ _ _ H)|].
  apply obind_Fatal in H as [H|(acc1 & _ & H)]; [|discriminate H].
  unfold scan_molblock in H.
  apply obind_Fatal in H as [H|(at2cg & _ & H)].
  { unfold make_at2cg in H. fatal_free H. }
  apply orepeat_Fatal in H as ([off s] & H).
  apply obind_Fatal in H as [H|(s1 & _ & H)]; [|discriminate H].
  unfold scan_molecule in H.
  apply ofold_Fatal in H as (bt & s2 & Hbt & H).
  eapply scan_ilist_Fatal; eassumption.
Qed.
End ScanErrors.

(** X6: for molecule counts that are not negative, set-up ends in
    [gmx_fatal] only with one of these errors: [nstcalcenergy] is not 1,
    a record claimed by two shells ("Weird stuff"), a fourth bond on a
    shell, unequal A and B charges with polarization or water
    polarization, or a shell without a bond.  The two defensive errors
    of the scan are never raised: every bonded-interaction type of
    [bondtypes] has a case in both switches ("Death Horror"), and every
    entry of the shell index is a row of the table ("nsi is ... should
    be within"). *)
Theorem init_shell_flexcon_fatal_errors {hdr : Headers} (shfc : gmx_shellfc)
    (ir : t_inputrec) (env : environment) (mtop : gmx_mtop_t)
    (nflexcon_arg nstcalcenergy : Z) (e : fatal_error) :
  Forall (fun molb => 0 <= mb_nmol molb) (molblock mtop) ->
  init_shell_flexcon shfc ir env mtop nflexcon_arg nstcalcenergy = Fatal e ->
  is_setup_error e = true.
Proof.
  intros Hpos H. unfold init_shell_flexcon in H.
  apply obind_Fatal in H as [H|(n & Hn & H)].
  { unfold countPtypes in H. fatal_free H. }
  destruct ((n eptShell =? 0) && (nflexcon_arg =? 0)); [discriminate H|].
  destruct (negb (nstcalcenergy =? 1)); [injection H as <-; reflexivity|].
  destruct (Z.eqb_spec (n eptShell) 0) as [|Hshell]; [discriminate H|].
  apply obind_Fatal in H as [H|([shell_index nshell1] & Hidx & H)].
  { exfalso. exact (never_fatal_make_shell_index _ _ H). }
  destruct (shell_index_agrees_with_count_lemma _ _ _ _ Hpos Hn Hidx)
    as (_ & _ & Hrange).
  apply obind_Fatal in H as [H|(st & _ & H)].
  { eapply scan_topology_Fatal; [exact (Hrange Hshell)|exact H]. }
  destruct (negb (sc_ns st =? nshell1)); [|discriminate H].
  injection H as <-. reflexivity.
Qed.

Lemma init_shell_flexcon_fatal_errors_witness :
  is_setup_error FatalTooManyBonds = true.
Proof.
  apply (@init_shell_flexcon_fatal_errors example_headers shfc_zero example_ir
           example_env (example_mtop four_bonds 1) 0 1 FatalTooManyBonds).
  - repeat constructor; cbn; lia.
  - vm_compute. reflexivity.
Defined.

(** ** The local table of a domain *)

Lemma zrange_snoc (i : Z) : 0 <= i -> zrange 0 (i + 1) = zrange 0 i ++ [i].
Proof.
  intros Hi. unfold zrange.
  replace (Z.to_nat (i + 1 - 0)) with (Z.to_nat (i - 0) + 1)%nat by lia.
  rewrite seq_app, map_app. cbn [seq map]. f_equal. f_equal. lia.
Qed.

Lemma localize_shell_fields (g : t_shell) (a : Z) :
  shell (localize_shell g a) = a
  /\ nnucl (localize_shell g a) = nnucl g
  /\ (k (localize_shell g a), k_1 (localize_shell g a),
      k11 (localize_shell g a), k22 (localize_shell g a),
      k33 (localize_shell g a))
     = (k g, k_1 g, k11 g, k22 g, k33 g)
  /\ nucl1 (localize_shell g a) - a = nucl1 g - shell g
  /\ (if 1 <? nnucl g
      then nucl2 (localize_shell g a) - a = nucl2 g - shell g
      else nucl2 (localize_shell g a) = nucl2 g)
  /\ (if 2 <? nnucl g
      then nucl3 (localize_shell g a) - a = nucl3 g - shell g
      else nucl3 (localize_shell g a) = nucl3 g).
Proof.
  destruct g as [n sh n1 n2 n3 kk kk1 a11 a22 a33 xo fo st].
  unfold localize_shell. cbn.
  destruct (1 <? n); cbn; destruct (2 <? n); cbn; repeat split;
    try reflexivity; lia.
Qed.

(** With domain decomposition the local table lists the shells among
    the home atoms in order, each with a copy of its global record
    moved to the local numbering. *)
Lemma make_local_shells_dd (cr : t_commrec) (md : t_mdatoms)
    (shfc shfc' : gmx_shellfc) (dd : gmx_domdec_t) :
  cr_dd cr = Some dd ->
  make_local_shells cr md shfc = Done shfc' ->
  nshell shfc' = Z.of_nat (length (home_shells md dd))
  /\ forall j a,
       home_shells md dd !! j = Some a ->
       exists ga gi g,
         aget (gatindex dd) a = Done ga
         /\ aget (shell_index_gl shfc) ga = Done gi
         /\ aget (shell_gl shfc) gi = Done g
         /\ shell_cells shfc' !! j = Some (localize_shell g a).
Proof.
  intros Hdd H. unfold make_local_shells in H. rewrite Hdd in H.
  obind_as H r Hr. injection H as <-.
  pose (f := fun i : Z =>
               match aget (md_ptype md) i with
               | Done p => is_shell_ptype p
               | _ => false
               end).
  pose (P := fun (i : Z) (st : shell_ptr * Z) =>
    0 <= i
    /\ snd st = Z.of_nat (length (List.filter f (zrange 0 i)))
    /\ forall j a,
         List.filter f (zrange 0 i) !! j = Some a ->
         exists ga gi g,
           aget (gatindex dd) a = Done ga
           /\ aget (shell_index_gl shfc) ga = Done gi
           /\ aget (shell_gl shfc) gi = Done g
           /\ cells_of shfc (fst st) !! j = Some (localize_shell g a)).
  assert (HP : P (Z.max 0 (nat_home dd)) r).
  { refine (ofold_zrange P _ (nat_home dd) _ (Z.to_nat (nat_home dd - 0)) 0
              (shell_p shfc, 0) r eq_refl _ Hr).
    - intros i [p n] [p' n'] Hi (Hi0 & Hn & Hall) Hbody.
      cbn [fst snd] in *.
      obind_as Hbody pt Hpt.
      assert (Hf : f i = is_shell_ptype pt) by (unfold f; rewrite Hpt; reflexivity).
      unfold P. cbn [fst snd].
      rewrite (zrange_snoc i Hi0), List.filter_app. cbn [List.filter].
      rewrite Hf. destruct (is_shell_ptype pt).
      + obind_as Hbody ga Hga. obind_as Hbody gi Hgi. obind_as Hbody g Hg.
        obind_as Hbody p1 Hstore. injection Hbody as <- <-.
        rewrite length_app. cbn [length]. split; [lia|]. split; [lia|].
        assert (Hnn : Z.to_nat n = length (List.filter f (zrange 0 i))) by lia.
        unfold store_local in Hstore. destruct p as [|cells];
          [discriminate Hstore|].
        intros j a Hj. apply lookup_snoc_Some in Hj as [[Hlt Hj]|[Hjn <-]].
        * destruct (Hall j a Hj) as (ga0 & gi0 & g0 & A1 & A2 & A3 & A4).
          exists ga0, gi0, g0. split; [exact A1|]. split; [exact A2|].
          split; [exact A3|]. cbn [cells_of] in *.
          destruct (Z.ltb_spec n (Z.of_nat (length cells))).
          -- obind_as Hstore cells' Hset. apply aset_Done in Hset as [_ ->].
             injection Hstore as <-. cbn [cells_of].
             rewrite list_lookup_insert_ne by lia. exact A4.
          -- destruct (n =? Z.of_nat (length cells)); [|discriminate Hstore].
             injection Hstore as <-. cbn [cells_of].
             apply lookup_app_l_Some. exact A4.
        * exists ga, gi, g. split; [exact Hga|]. split; [exact Hgi|].
          split; [exact Hg|].
          destruct (Z.ltb_spec n (Z.of_nat (length cells))).
          -- obind_as Hstore cells' Hset. apply aset_Done in Hset as [_ ->].
             injection Hstore as <-. cbn [cells_of].
             rewrite Hjn, <- Hnn. apply list_lookup_insert_eq. lia.
          -- destruct (Z.eqb_spec n (Z.of_nat (length cells)));
               [|discriminate Hstore].
             injection Hstore as <-. cbn [cells_of].
             apply list_lookup_middle. lia.
      + injection Hbody as <- <-. rewrite app_nil_r.
        split; [lia|]. split; [exact Hn|exact Hall].
    - unfold P. cbn [fst snd]. rewrite zrange_nil by lia. cbn.
      split; [lia|]. split; [reflexivity|]. intros j a Hj. discriminate Hj. }
  destruct HP as (_ & Hn & Hall).
  assert (Hz : zrange 0 (Z.max 0 (nat_home dd)) = zrange 0 (nat_home dd)).
  { unfold zrange. f_equal. f_equal. lia. }
  rewrite Hz in Hn, Hall. fold (home_shells md dd) in Hn, Hall.
  cbn [set_local nshell]. split; [exact Hn|].
  intros j a Hj. destruct (Hall j a Hj) as (ga & gi & g & A1 & A2 & A3 & A4).
  exists ga, gi, g. split; [exact A1|]. split; [exact A2|].
  split; [exact A3|].
  unfold shell_cells, set_local. cbn [shell_p shell_gl].
  unfold cells_of in A4. exact A4.
Qed.

(** X7: with domain decomposition, the local table of a domain lists
    exactly the shell-typed atoms among its home atoms, in increasing
    order of their local number: [nshell] is their number, and the
    [shell] fields of the first [nshell] records are these atoms. *)
Theorem make_local_shells_lists_home_shells (cr : t_commrec)
    (md : t_mdatoms) (shfc shfc' : gmx_shellfc) (dd : gmx_domdec_t) :
  cr_dd cr = Some dd ->
  make_local_shells cr md shfc = Done shfc' ->
  nshell shfc' = Z.of_nat (length (home_shells md dd))
  /\ map shell (take (Z.to_nat (nshell shfc')) (shell_cells shfc'))
     = home_shells md dd.
Proof.
  intros Hdd H. destruct (make_local_shells_dd _ _ _ _ _ Hdd H) as [Hn Hall].
  split; [exact Hn|]. rewrite Hn, Nat2Z.id.
  apply list_eq. intros j.
  change (map shell (take (length (home_shells md dd)) (shell_cells shfc')))
    with (shell <$> take (length (home_shells md dd)) (shell_cells shfc')).
  rewrite list_lookup_fmap.
  destruct (home_shells md dd !! j) as [a|] eqn:E.
  - rewrite lookup_take_lt by (eapply lookup_lt_Some; exact E).
    destruct (Hall j a E) as (ga & gi & g & _ & _ & _ & ->).
    reflexivity.
  - rewrite lookup_take_ge by (apply lookup_ge_None; exact E). reflexivity.
Qed.

Lemma make_local_shells_lists_home_shells_witness :
  nshell second_pair_shfc = Z.of_nat (length (home_shells pair_md second_pair_dd))
  /\ map shell
       (take (Z.to_nat (nshell second_pair_shfc)) (shell_cells second_pair_shfc))
     = home_shells pair_md second_pair_dd.
Proof.
  apply (make_local_shells_lists_home_shells second_pair_rank pair_md
           example_shfc second_pair_shfc second_pair_dd).
  - reflexivity.
  - vm_compute. reflexivity.
Defined.

(** X8: with domain decomposition, the local record of a shell is the
    global record that the shell index names for the global number of
    the atom, moved to the local numbering: the shell is the home atom
    itself, each nucleus in use keeps its distance (in atom numbers) to
    the shell, the unused slots and all force constants are copied. *)
Theorem make_local_shells_translates_records (cr : t_commrec)
    (md : t_mdatoms) (shfc shfc' : gmx_shellfc) (dd : gmx_domdec_t) (j : nat)
    (r : t_shell) :
  cr_dd cr = Some dd ->
  make_local_shells cr md shfc = Done shfc' ->
  Z.of_nat j < nshell shfc' ->
  shell_cells shfc' !! j = Some r ->
  exists ga gi g,
    aget (gatindex dd) (shell r) = Done ga
    /\ aget (shell_index_gl shfc) ga = Done gi
    /\ aget (shell_gl shfc) gi = Done g
    /\ nnucl r = nnucl g
    /\ (k r, k_1 r, k11 r, k22 r, k33 r) = (k g, k_1 g, k11 g, k22 g, k33 g)
    /\ nucl1 r - shell r = nucl1 g - shell g
    /\ (if 1 <? nnucl g then nucl2 r - shell r = nucl2 g - shell g
        else nucl2 r = nucl2 g)
    /\ (if 2 <? nnucl g then nucl3 r - shell r = nucl3 g - shell g
        else nucl3 r = nucl3 g).
Proof.
  intros Hdd H Hj Hr.
  destruct (make_local_shells_dd _ _ _ _ _ Hdd H) as [Hn Hall].
  destruct (lookup_lt_is_Some_2 (home_shells md dd) j) as [a Ha]; [lia|].
  destruct (Hall j a Ha) as (ga & gi & g & A1 & A2 & A3 & A4).
  rewrite Hr in A4. injection A4 as ->.
  destruct (localize_shell_fields g a) as (Hsh & Hnn & Hk & H1 & H2 & H3).
  rewrite Hsh. exists ga, gi, g.
  split; [exact A1|]. split; [exact A2|]. split; [exact A3|].
  split; [exact Hnn|]. split; [exact Hk|].
  split; [exact H1|]. split; [exact H2|exact H3].
Qed.

Lemma make_local_shells_translates_records_witness :
  exists ga gi g,
    aget (gatindex second_pair_dd) 1 = Done ga
    /\ aget (shell_index_gl example_shfc) ga = Done gi
    /\ aget (shell_gl example_shfc) gi = Done g
    /\ nnucl g = 1 /\ shell g = 3 /\ nucl1 g = 2.
Proof.
  destruct (make_local_shells_translates_records second_pair_rank pair_md
              example_shfc second_pair_shfc second_pair_dd 0%nat
              (localize_shell
                 (set_k_1 (set_nnucl (set_k (set_nucl1 (set_shell shell_init 3) 2)
                                        (0 + 1000)) 1)
                    (1 / (0 + 1000))) 1))
    as (ga & gi & g & H1 & H2 & H3 & H4 & _ & H6 & _).
  - reflexivity.
  - vm_compute. reflexivity.
  - vm_compute. reflexivity.
  - vm_compute. reflexivity.
  - exists ga, gi, g. cbn in H1. split; [exact H1|]. split; [exact H2|].
    split; [exact H3|]. vm_compute in H1. injection H1 as <-.
    vm_compute in H2. injection H2 as <-. vm_compute in H3.
    injection H3 as <-. repeat split; reflexivity.
Defined.

(** ** The predictor, in both of its modes *)

(** One round of the loop writes the position of the shell of its
    record, and nothing else. *)
Lemma predict_shell_1_frame (v : list rvec) (dt_1 : real)
    (mass : option (list real)) (mtop_m : list real) (bInit : bool) (i : Z)
    (si : t_shell) (x x' : list rvec) :
  predict_shell_1 v dt_1 mass mtop_m bInit i si x = Done x' ->
  0 <= shell si < Z.of_nat (length x)
  /\ length x' = length x
  /\ forall j, j <> Z.to_nat (shell si) -> x' !! j = x !! j.
Proof.
  unfold predict_shell_1. intros H. obind_as H x0 Hx0.
  assert (H0 : length x0 = length x
               /\ forall j, j <> Z.to_nat (shell si) -> x0 !! j = x !! j).
  { destruct bInit.
    - apply aset_Done in Hx0 as [_ ->]. rewrite length_insert.
      split; [reflexivity|]. intros j Hj. apply list_lookup_insert_ne. auto.
    - injection Hx0 as <-. split; reflexivity. }
  destruct H0 as [Hl0 Hf0].
  assert (Hlast : forall r, aset x0 (shell si) r = Done x' ->
            0 <= shell si < Z.of_nat (length x)
            /\ length x' = length x
            /\ forall j, j <> Z.to_nat (shell si) -> x' !! j = x !! j).
  { intros r Hr. apply aset_Done in Hr as [Hrange ->].
    rewrite length_insert. split; [lia|]. split; [exact Hl0|].
    intros j Hj. rewrite list_lookup_insert_ne by auto. apply Hf0. exact Hj. }
  destruct (nnucl si) as [|[[|[]|]|[|[]|]|]|]; try discriminate;
    repeat (let a := fresh "a" in let Ha := fresh "Ha" in
            apply obind_Done in H as (a & Ha & H));
    eapply Hlast; exact H.
Qed.

Lemma predict_shells_frame (x v : list rvec) (dt : real)
    (ns : Z) (s : list t_shell) (mass : option (list real))
    (mtop_m : list real) (bInit : bool) (x' : list rvec) :
  predict_shells x v dt ns s mass mtop_m bInit = Done x' ->
  length x' = length x
  /\ forall p,
       (forall j sj,
          s !! j = Some sj -> Z.of_nat j < ns -> Z.to_nat (shell sj) <> p) ->
       x' !! p = x !! p.
Proof.
  unfold predict_shells. intros H.
  pose (P := fun (i : Z) (xa : list rvec) =>
    0 <= i
    /\ length xa = length x
    /\ forall p,
         (forall j sj,
            s !! j = Some sj -> Z.of_nat j < i -> Z.to_nat (shell sj) <> p) ->
         xa !! p = x !! p).
  assert (HP : P (Z.max 0 ns) x').
  { refine (ofold_zrange P _ ns _ (Z.to_nat (ns - 0)) 0 x x' eq_refl _ H).
    - intros i xa xa' Hi (Hi0 & Hl & Hf) Hbody.
      obind_as Hbody si Hsi. apply aget_Done in Hsi as [_ Hsi].
      apply predict_shell_1_frame in Hbody as (_ & Hl' & Hf').
      unfold P. split; [lia|]. split; [congruence|].
      intros p Hp. rewrite Hf'.
      + apply Hf. intros j sj Hsj Hj. apply (Hp j sj Hsj). lia.
      + intros ->. apply (Hp (Z.to_nat i) si Hsi); [lia|reflexivity].
    - unfold P. split; [lia|]. split; reflexivity. }
  destruct HP as (_ & Hl & Hf). split; [exact Hl|].
  intros p Hp. apply Hf. intros j sj Hsj Hj. apply (Hp j sj Hsj). lia.
Qed.

(** X9: the predictor writes the positions of the shells of the first
    [ns] records of the table and no other position, at initialisation
    as on ordinary steps and whichever source the masses come from; the
    position array keeps its length. *)
Theorem predict_shells_moves_only_shells (x v : list rvec) (dt : real)
    (ns : Z) (s : list t_shell) (mass : option (list real))
    (mtop_m : list real) (bInit : bool) (x' : list rvec) :
  predict_shells x v dt ns s mass mtop_m bInit = Done x' ->
  length x' = length x
  /\ forall p,
       (forall j sj,
          s !! j = Some sj -> Z.of_nat j < ns -> Z.to_nat (shell sj) <> p) ->
       x' !! p = x !! p.
Proof. apply predict_shells_frame. Qed.

Lemma predict_shells_moves_only_shells_witness :
  length init_placed = length init_x
  /\ init_placed !! 0%nat = init_x !! 0%nat.
Proof.
  destruct (predict_shells_moves_only_shells init_x two_nuclei_v (1 # 2) 1
              [two_nuclei_shell] (Some two_nuclei_mass) [] true init_placed)
    as [H1 H2].
  - vm_compute. reflexivity.
  - split; [exact H1|]. apply H2.
    intros [|j] sj Hsj _; [|discriminate Hsj].
    injection Hsj as <-. discriminate.
Defined.

Lemma predict_shell_1_Fatal (v : list rvec) (dt_1 : real)
    (mass : option (list real)) (mtop_m : list real) (bInit : bool) (i : Z)
    (si : t_shell) (x : list rvec) (e : fatal_error) :
  predict_shell_1 v dt_1 mass mtop_m bInit i si x = Fatal e ->
  e = FatalShellNuclei i (nnucl si)
  /\ nnucl si <> 1 /\ nnucl si <> 2 /\ nnucl si <> 3.
Proof.
  unfold predict_shell_1, nucleus_mass. intros H.
  apply obind_Fatal in H as [H|(x0 & _ & H)].
  { exfalso. destruct bInit; [|discriminate H].
    exact (aset_not_Fatal _ _ _ _ H). }
  destruct (nnucl si) as [|[[|[]|]|[|[]|]|]|];
    try (injection H as <-; repeat split; lia);
    exfalso;
    match type of H with
    | ?m = Fatal _ =>
        assert (Hn : never_fatal m) by never_fatal_auto; exact (Hn _ H)
    end.
Qed.

Lemma predict_shells_Fatal (x v : list rvec) (dt : real)
    (ns : Z) (s : list t_shell) (mass : option (list real))
    (mtop_m : list real) (bInit : bool) (e : fatal_error) :
  predict_shells x v dt ns s mass mtop_m bInit = Fatal e ->
  exists i si,
    0 <= i < ns
    /\ s !! Z.to_nat i = Some si
    /\ e = FatalShellNuclei i (nnucl si)
    /\ nnucl si <> 1 /\ nnucl si <> 2 /\ nnucl si <> 3.
Proof.
  unfold predict_shells. intros H.
  apply ofold_Fatal in H as (i & xa & Hin & H).
  apply in_zrange in Hin.
  apply obind_Fatal in H as [H|(si & Hsi & H)].
  { exfalso. exact (aget_not_Fatal _ _ _ H). }
  apply aget_Done in Hsi as [_ Hsi].
  apply predict_shell_1_Fatal in H.
  exists i, si. split; [exact Hin|]. split; [exact Hsi|exact H].
Qed.

(** X10: the only fatal error of the predictor is the one for a record
    whose number of nuclei is not 1, 2 or 3, and it names that record:
    if [predict_shells] ends in [gmx_fatal], some record [i] below [ns]
    has [nnucl] outside 1..3 and the error is "Shell i has nnucl
    nuclei". *)
Theorem predict_shells_fatal_names_the_record (x v : list rvec) (dt : real)
    (ns : Z) (s : list t_shell) (mass : option (list real))
    (mtop_m : list real) (bInit : bool) (e : fatal_error) :
  predict_shells x v dt ns s mass mtop_m bInit = Fatal e ->
  exists i si,
    0 <= i < ns
    /\ s !! Z.to_nat i = Some si
    /\ e = FatalShellNuclei i (nnucl si)
    /\ nnucl si <> 1 /\ nnucl si <> 2 /\ nnucl si <> 3.
Proof. apply predict_shells_Fatal. Qed.

Lemma predict_shells_fatal_names_the_record_witness :
  exists i si,
    0 <= i < 1
    /\ [shell_init] !! Z.to_nat i = Some si
    /\ FatalShellNuclei 0 0 = FatalShellNuclei i (nnucl si).
Proof.
  destruct (predict_shells_fatal_names_the_record init_x two_nuclei_v (1 # 2)
              1 [shell_init] (Some two_nuclei_mass) [] false
              (FatalShellNuclei 0 0))
    as (i & si & H1 & H2 & H3 & _).
  - reflexivity.
  - exists i, si. split; [exact H1|]. split; [exact H2|exact H3].
Defined.

Lemma aget_ext {A : Type} (l l' : list A) (i : Z) :
  (0 <= i -> l' !! Z.to_nat i = l !! Z.to_nat i) -> aget l' i = aget l i.
Proof.
  intros H. unfold aget. destruct (Z.ltb_spec i 0); [reflexivity|].
  rewrite H by assumption. reflexivity.
Qed.

Lemma weighted_velocity_ext (x x' : list rvec) (mass : list real)
    (si : t_shell) (d : dim) :
  aget x' (nucl1 si) = aget x (nucl1 si) ->
  aget x' (nucl2 si) = aget x (nucl2 si) ->
  aget x' (nucl3 si) = aget x (nucl3 si) ->
  weighted_velocity x' mass si d = weighted_velocity x mass si d.
Proof.
  intros H1 H2 H3. unfold weighted_velocity. rewrite H1, H2, H3.
  reflexivity.
Qed.

(** One round at initialisation, for a record whose nuclei are other
    particles than its shell: the shell is put at the weighted average
    of the nuclei, times [dt_1], when their masses do not sum to zero. *)
Lemma predict_shell_1_init (v : list rvec) (dt_1 : real) (mass : list real)
    (i : Z) (si : t_shell) (x x' : list rvec) :
  predict_shell_1 v dt_1 (Some mass) [] true i si x = Done x' ->
  shell si <> nucl1 si -> shell si <> nucl2 si -> shell si <> nucl3 si ->
  exists xs',
    x' !! Z.to_nat (shell si) = Some xs'
    /\ (mass_sum_nonzero mass si = true ->
        forall d,
          exists w, weighted_velocity x mass si d = Done w
                    /\ (rcomp xs' d == w * dt_1)%Q).
Proof.
  unfold predict_shell_1, weighted_velocity, nucleus_mass, mass_sum_nonzero.
  intros H N1 N2 N3.
  obind_as H x0 Hx0. apply aset_Done in Hx0 as [Hsh ->].
  assert (Hget : forall n p, shell si <> n ->
            aget (<[Z.to_nat (shell si) := clear_rvec rvec_zero]> x) n = Done p ->
            aget x n = Done p).
  { intros n p Hn Hp. apply aget_Done in Hp as [Hn0 Hp].
    rewrite list_lookup_insert_ne in Hp by lia.
    apply aget_lookup; assumption. }
  assert (Hself : forall p,
            aget (<[Z.to_nat (shell si) := clear_rvec rvec_zero]> x) (shell si)
            = Done p -> p = rvec_zero).
  { intros p Hp. apply aget_Done in Hp as [_ Hp].
    rewrite list_lookup_insert_eq in Hp by lia. injection Hp as <-.
    reflexivity. }
  destruct (nnucl si) as [|[[|[]|]|[|[]|]|]|]; try discriminate.
  - (* three nuclei *)
    obind_as H m1 Hm1. obind_as H m2 Hm2. obind_as H m3 Hm3.
    obind_as H p1 Hp1. obind_as H p2 Hp2. obind_as H p3 Hp3.
    obind_as H xs Hxs. apply Hself in Hxs as ->.
    apply (Hget _ _ N1) in Hp1. apply (Hget _ _ N2) in Hp2.
    apply (Hget _ _ N3) in Hp3.
    eexists. split; [eapply aset_lookup_same; exact H|].
    rewrite Hm1, Hm2, Hm3. intros Hnz d.
    apply negb_true_iff, Qeq_bool_neq in Hnz.
    rewrite Hp1, Hp2, Hp3. cbn [obind].
    eexists. split; [reflexivity|].
    destruct d; cbn [rcomp rvec_of XX YY ZZ rvec_zero]; field; exact Hnz.
  - (* two nuclei *)
    obind_as H m1 Hm1. obind_as H m2 Hm2.
    obind_as H p1 Hp1. obind_as H p2 Hp2.
    obind_as H xs Hxs. apply Hself in Hxs as ->.
    apply (Hget _ _ N1) in Hp1. apply (Hget _ _ N2) in Hp2.
    eexists. split; [eapply aset_lookup_same; exact H|].
    rewrite Hm1, Hm2. intros Hnz d.
    apply negb_true_iff, Qeq_bool_neq in Hnz.
    rewrite Hp1, Hp2. cbn [obind].
    eexists. split; [reflexivity|].
    destruct d; cbn [rcomp rvec_of XX YY ZZ rvec_zero]; field; exact Hnz.
  - (* one nucleus *)
    obind_as H p1 Hp1. obind_as H xs Hxs. apply Hself in Hxs as ->.
    apply (Hget _ _ N1) in Hp1.
    eexists. split; [eapply aset_lookup_same; exact H|].
    intros _ d. rewrite Hp1. cbn [obind].
    eexists. split; [reflexivity|].
    destruct d; cbn [rcomp rvec_of XX YY ZZ rvec_zero]; ring.
Qed.

(** X11: at initialisation ([bInit] true) the predictor discards the
    position a shell had and puts the shell at the mass-weighted average
    of the positions of its one to three nuclei, for a table whose first
    [ns] records list every shell once and name no shell of the table as
    a nucleus, and for a shell whose nuclei have masses that do not sum
    to zero. *)
Theorem predict_shells_init_places_on_nuclei (x v : list rvec) (dt : real)
    (ns : Z) (s : list t_shell) (mass : list real) (x' : list rvec)
    (i : nat) (si : t_shell) :
  (forall j j' sj sj',
     s !! j = Some sj -> s !! j' = Some sj' ->
     Z.of_nat j < ns -> Z.of_nat j' < ns ->
     (shell sj = shell sj' -> j = j')
     /\ shell sj <> nucl1 sj' /\ shell sj <> nucl2 sj'
     /\ shell sj <> nucl3 sj') ->
  predict_shells x v dt ns s (Some mass) [] true = Done x' ->
  s !! i = Some si -> Z.of_nat i < ns ->
  mass_sum_nonzero mass si = true ->
  exists xs',
    x' !! Z.to_nat (shell si) = Some xs'
    /\ forall d,
         exists w, weighted_velocity x mass si d = Done w
                   /\ (rcomp xs' d == w)%Q.
Proof.
  intros Htable H Hsi Hi Hnz. unfold predict_shells in H.
  pose (P := fun (n : Z) (xa : list rvec) =>
    0 <= n
    /\ (forall j sj, s !! j = Some sj -> Z.of_nat j < n -> 0 <= shell sj)
    /\ (forall p,
          (forall j sj,
             s !! j = Some sj -> Z.of_nat j < n -> Z.to_nat (shell sj) <> p) ->
          xa !! p = x !! p)
    /\ forall j sj,
         s !! j = Some sj -> Z.of_nat j < n ->
         exists xs',
           xa !! Z.to_nat (shell sj) = Some xs'
           /\ (mass_sum_nonzero mass sj = true ->
               forall d,
                 exists w, weighted_velocity x mass sj d = Done w
                           /\ (rcomp xs' d == w)%Q)).
  assert (HP : P (Z.max 0 ns) x').
  { refine (ofold_zrange P _ ns _ (Z.to_nat (ns - 0)) 0 x x' eq_refl _ H).
    - intros n xa xa' Hn (Hn0 & Hpos & Hf & Hdone) Hbody.
      obind_as Hbody sn Hsn. apply aget_Done in Hsn as [_ Hsn].
      assert (Hnn : Z.of_nat (Z.to_nat n) < ns) by lia.
      pose proof (predict_shell_1_frame _ _ _ _ _ _ _ _ _ Hbody)
        as (Hshn & _ & Hf').
      destruct (Htable _ _ _ _ Hsn Hsn Hnn Hnn) as (_ & N1 & N2 & N3).
      apply predict_shell_1_init in Hbody as (xs' & Hxs' & Hw);
        [|assumption..].
      assert (Hnuc : forall m,
                (forall j sj,
                   s !! j = Some sj -> Z.of_nat j < n -> shell sj <> m) ->
                aget xa m = aget x m).
      { intros m Hm. apply aget_ext. intros Hm0. apply Hf.
        intros j sj Hsj Hj Heq. apply (Hm j sj Hsj Hj).
        pose proof (Hpos j sj Hsj Hj). lia. }
      assert (Hother : forall j sj,
                s !! j = Some sj -> Z.of_nat j < n ->
                Z.to_nat (shell sj) <> Z.to_nat (shell sn)).
      { intros j sj Hsj Hj Heq. pose proof (Hpos j sj Hsj Hj) as Hp.
        assert (Hlt : Z.of_nat j < ns) by lia.
        destruct (Htable _ _ _ _ Hsj Hsn Hlt Hnn) as (Hd & _).
        assert (j = Z.to_nat n) by (apply Hd; lia). lia. }
      unfold P. split; [lia|]. split; [|split].
      + intros j sj Hsj Hj. destruct (decide (j = Z.to_nat n)) as [->|Hne].
        * rewrite Hsn in Hsj. injection Hsj as <-. lia.
        * apply (Hpos j sj Hsj). lia.
      + intros p Hp. rewrite Hf'.
        * apply Hf. intros j sj Hsj Hj. apply (Hp j sj Hsj). lia.
        * intros ->. apply (Hp (Z.to_nat n) sn Hsn); [lia|reflexivity].
      + intros j sj Hsj Hj. destruct (decide (j = Z.to_nat n)) as [->|Hne].
        * rewrite Hsn in Hsj. injection Hsj as <-.
          exists xs'. split; [exact Hxs'|]. intros Hnzn d.
          destruct (Hw Hnzn d) as (w & Hwd & Heq). exists w. split.
          -- rewrite <- Hwd. symmetry. apply weighted_velocity_ext; apply Hnuc;
               intros j sj Hsj Hj'; assert (Hlt : Z.of_nat j < ns) by lia;
               destruct (Htable _ _ _ _ Hsj Hsn Hlt Hnn) as (_ & M1 & M2 & M3);
               assumption.
          -- rewrite Heq. cbn [predict_dt_1]. ring.
        * assert (Hj' : Z.of_nat j < n) by lia.
          destruct (Hdone j sj Hsj Hj') as (xs0 & Hxs0 & Hw0).
          exists xs0. split; [|exact Hw0].
          rewrite Hf'; [exact Hxs0|]. apply (Hother j sj Hsj Hj').
    - unfold P. split; [lia|]. split; [intros; lia|].
      split; [reflexivity|]. intros j sj _ Hj. lia. }
  destruct HP as (_ & _ & _ & Hdone).
  destruct (Hdone i si Hsi) as (xs' & Hxs' & Hw); [lia|].
  exists xs'. split; [exact Hxs'|exact (Hw Hnz)].
Qed.

Lemma predict_shells_init_places_on_nuclei_witness :
  exists xs',
    init_placed !! Z.to_nat (shell two_nuclei_shell) = Some xs'
    /\ forall d,
         exists w,
           weighted_velocity init_x two_nuclei_mass two_nuclei_shell d = Done w
           /\ (rcomp xs' d == w)%Q.
Proof.
  apply (predict_shells_init_places_on_nuclei init_x two_nuclei_v (1 # 2) 1
           [two_nuclei_shell] two_nuclei_mass init_placed 0%nat
           two_nuclei_shell).
  - intros [|j] [|j'] sj sj' Hsj Hsj' Hj Hj'; try discriminate.
    injection Hsj as <-. injection Hsj' as <-.
    split; [reflexivity|]. repeat split; discriminate.
  - vm_compute. reflexivity.
  - reflexivity.
  - lia.
  - reflexivity.
Defined.

(** ** Steepest descent on the shell positions *)

Lemma step_scale_multiple_value : (step_scale_multiple == 2)%Q.
Proof. reflexivity. Qed.

Lemma std_max_zero (a : real) : (0 <= std_max a 0)%Q.
Proof.
  unfold std_max. destruct (Qltb a 0) eqn:E; [apply Qle_refl|].
  apply Qltb_ge in E. exact E.
Qed.

Lemma std_min_bounds (a b : real) :
  (0 <= a -> 0 <= b -> 0 <= std_min a b /\ std_min a b <= a)%Q.
Proof.
  intros Ha Hb. unfold std_min. destruct (Qltb b a) eqn:E.
  - apply Qltb_lt in E. split; [exact Hb|apply Qlt_le_weak; exact E].
  - split; [exact Ha|apply Qle_refl].
Qed.

(** Whatever the differences [dx] and [df], the new step of a component
    lies between [step_scale_min] and [step_scale_max] times the old
    one. *)
Lemma adapt_step_bounds {hdr : Headers} (step_d dx df : real) :
  (0 <= step_d ->
   step_scale_min * step_d <= adapt_step step_d dx df
   /\ adapt_step step_d dx df <= step_scale_max * step_d)%Q.
Proof.
  intros Hs. unfold adapt_step.
  destruct (negb (Qeq_bool 0 df)); [|destruct (gmx_numzero dx)].
  - assert (Ht : (step_scale_multiple * step_d == 2 * step_d)%Q)
      by (rewrite step_scale_multiple_value; reflexivity).
    set (t := (step_scale_multiple * step_d)%Q) in *.
    assert (Hm : (0 <= t)%Q) by lra.
    destruct (std_min_bounds t (std_max (- dx / df) 0) Hm (std_max_zero _))
      as [H0 H1].
    set (m := std_min _ _) in *. unfold step_scale_min, step_scale_max,
      step_scale_increment. lra.
  - unfold step_scale_min, step_scale_max. lra.
  - unfold step_scale_min, step_scale_max. lra.
Qed.

Lemma shell_pos_sd_1_Done {hdr : Headers} (xcur f : list rvec) (count : Z)
    (si si' : t_shell) (x : rvec) :
  shell_pos_sd_1 xcur f count si = Done (si', x) ->
  exists xc fc,
    0 <= shell si
    /\ xcur !! Z.to_nat (shell si) = Some xc
    /\ f !! Z.to_nat (shell si) = Some fc
    /\ xold si' = xc /\ fold si' = fc
    /\ topology_fields si' = topology_fields si
    /\ x = do_1pos3 xc fc (step si')
    /\ step si'
       = (if count =? 1 then rvec_of (fun _ => k_1 si)
          else rvec_of (fun d =>
                 adapt_step (rcomp (step si) d)
                   (rcomp xc d - rcomp (xold si) d)%Q
                   (rcomp fc d - rcomp (fold si) d)%Q)).
Proof.
  unfold shell_pos_sd_1. intros H.
  obind_as H xc Hxc. obind_as H fc Hfc. injection H as <- <-.
  apply aget_Done in Hxc as [Hsh Hxc]. apply aget_Done in Hfc as [_ Hfc].
  exists xc, fc. cbn. repeat split; assumption.
Qed.

(** What a sweep over the first [ns] records leaves behind. *)
Lemma shell_pos_sd_sweep {hdr : Headers} (xcur xnew f : list rvec) (ns : Z)
    (s : list t_shell) (count : Z) (xnew' : list rvec) (s' : list t_shell) :
  shell_pos_sd xcur xnew f ns s count = Done (xnew', s') ->
  length s' = length s
  /\ length xnew' = length xnew
  /\ (forall j, ns <= Z.of_nat j -> s' !! j = s !! j)
  /\ (forall j sj,
        s !! j = Some sj -> Z.of_nat j < ns ->
        exists sj' x,
          shell_pos_sd_1 xcur f count sj = Done (sj', x)
          /\ s' !! j = Some sj'
          /\ ((forall j' sj'',
                 s !! j' = Some sj'' -> Z.of_nat j' < ns ->
                 shell sj'' = shell sj -> j' = j) ->
              xnew' !! Z.to_nat (shell sj) = Some x))
  /\ (forall p,
        (forall j sj,
           s !! j = Some sj -> Z.of_nat j < ns -> Z.to_nat (shell sj) <> p) ->
        xnew' !! p = xnew !! p).
Proof.
  unfold shell_pos_sd. intros H.
  pose (P := fun (i : Z) (st : list rvec * list t_shell) =>
    0 <= i
    /\ length (snd st) = length s
    /\ length (fst st) = length xnew
    /\ (forall j, i <= Z.of_nat j -> snd st !! j = s !! j)
    /\ (forall j sj,
          s !! j = Some sj -> Z.of_nat j < i ->
          exists sj' x,
            shell_pos_sd_1 xcur f count sj = Done (sj', x)
            /\ snd st !! j = Some sj'
            /\ ((forall j' sj'',
                   s !! j' = Some sj'' -> Z.of_nat j' < i ->
                   shell sj'' = shell sj -> j' = j) ->
                fst st !! Z.to_nat (shell sj) = Some x))
    /\ (forall p,
          (forall j sj,
             s !! j = Some sj -> Z.of_nat j < i -> Z.to_nat (shell sj) <> p) ->
          fst st !! p = xnew !! p)).
  assert (HP : P (Z.max 0 ns) (xnew', s')).
  { refine (ofold_zrange P _ ns _ (Z.to_nat (ns - 0)) 0 (xnew, s) (xnew', s')
              eq_refl _ H).
    - intros i [xn sa] [xn' sa'] Hi (Hi0 & Ha & Hb & Hc & Hd & He) Hbody.
      cbn [fst snd] in *.
      obind_as Hbody si Hsi. apply aget_Done in Hsi as [_ Hsi].
      obind_as Hbody [si' x] Hsd.
      obind_as Hbody sa1 Hsa. apply aset_Done in Hsa as [Hri ->].
      obind_as Hbody xn1 Hxn. apply aset_Done in Hxn as [Hrs ->].
      injection Hbody as <- <-.
      assert (Hsi0 : s !! Z.to_nat i = Some si).
      { rewrite <- Hc by lia. exact Hsi. }
      pose proof (shell_pos_sd_1_Done _ _ _ _ _ _ Hsd)
        as (xc & fc & Hsh & _).
      unfold P. cbn [fst snd]. rewrite !length_insert.
      split; [lia|]. split; [exact Ha|]. split; [exact Hb|]. split; [|split].
      + intros j Hj. rewrite list_lookup_insert_ne by lia. apply Hc. lia.
      + intros j sj Hsj Hj.
        destruct (decide (j = Z.to_nat i)) as [->|Hne].
        * rewrite Hsi0 in Hsj. injection Hsj as <-.
          exists si', x. split; [exact Hsd|].
          split; [apply list_lookup_insert_eq; lia|].
          intros _. apply list_lookup_insert_eq. lia.
        * destruct (Hd j sj Hsj) as (sj' & x0 & Hsd0 & Hsa0 & Hx0); [lia|].
          exists sj', x0. split; [exact Hsd0|].
          split; [rewrite list_lookup_insert_ne by auto; exact Hsa0|].
          intros Hdist.
          pose proof (shell_pos_sd_1_Done _ _ _ _ _ _ Hsd0)
            as (_ & _ & Hshj & _).
          rewrite list_lookup_insert_ne.
          -- apply Hx0. intros j' sj'' Hs' Hj' Heq.
             apply (Hdist j' sj'' Hs'); [lia|exact Heq].
          -- intros Heq. apply Hne. symmetry.
             apply (Hdist (Z.to_nat i) si Hsi0); lia.
      + intros p Hp. rewrite list_lookup_insert_ne.
        * apply He. intros j sj Hsj Hj. apply (Hp j sj Hsj). lia.
        * apply (Hp (Z.to_nat i) si Hsi0). lia.
    - unfold P. cbn [fst snd]. split; [lia|]. split; [reflexivity|].
      split; [reflexivity|]. split; [reflexivity|]. split; [|reflexivity].
      intros j sj _ Hj. lia. }
  destruct HP as (_ & Ha & Hb & Hc & Hd & He). cbn [fst snd] in *.
  split; [exact Ha|]. split; [exact Hb|]. split; [|split].
  - intros j Hj. apply Hc. lia.
  - intros j sj Hsj Hj. destruct (Hd j sj Hsj) as (sj' & x & H1 & H2 & H3);
      [lia|].
    exists sj', x. split; [exact H1|]. split; [exact H2|].
    intros Hdist. apply H3. intros j' sj'' Hs' Hj'. apply Hdist; [exact Hs'|lia].
  - intros p Hp. apply He. intros j sj Hsj Hj. apply (Hp j sj Hsj). lia.
Qed.

(** X12: on the first sweep of a step ([count = 1]) every record of the
    local table gets the step [k_1 = 1/k] in all three directions, keeps
    the position and the force it was moved from in [xold] and [fold],
    and, for a table that lists the shell once, the new position of the
    shell is [x + f * k_1] in every component. *)
Theorem shell_pos_sd_first_sweep {hdr : Headers} (xcur xnew f : list rvec)
    (ns : Z) (s : list t_shell) (xnew' : list rvec) (s' : list t_shell)
    (j : nat) (sj : t_shell) :
  shell_pos_sd xcur xnew f ns s 1 = Done (xnew', s') ->
  s !! j = Some sj -> Z.of_nat j < ns ->
  (forall j' sj',
     s !! j' = Some sj' -> Z.of_nat j' < ns -> shell sj' = shell sj -> j' = j) ->
  exists xc fc sj',
    xcur !! Z.to_nat (shell sj) = Some xc
    /\ f !! Z.to_nat (shell sj) = Some fc
    /\ s' !! j = Some sj'
    /\ step sj' = mk_rvec (k_1 sj) (k_1 sj) (k_1 sj)
    /\ xold sj' = xc /\ fold sj' = fc
    /\ xnew' !! Z.to_nat (shell sj)
       = Some (mk_rvec (XX xc + XX fc * k_1 sj) (YY xc + YY fc * k_1 sj)
                 (ZZ xc + ZZ fc * k_1 sj))%Q.
Proof.
  intros H Hsj Hj Hdist.
  destruct (shell_pos_sd_sweep _ _ _ _ _ _ _ _ H) as (_ & _ & _ & Hd & _).
  destruct (Hd j sj Hsj Hj) as (sj' & x & Hsd & Hs' & Hx).
  destruct (shell_pos_sd_1_Done _ _ _ _ _ _ Hsd)
    as (xc & fc & _ & Hxc & Hfc & Hxo & Hfo & _ & -> & Hstep).
  exists xc, fc, sj'. cbn [Z.eqb Pos.eqb] in Hstep.
  split; [exact Hxc|]. split; [exact Hfc|]. split; [exact Hs'|].
  split; [exact Hstep|]. split; [exact Hxo|]. split; [exact Hfo|].
  rewrite (Hx Hdist), Hstep. reflexivity.
Qed.

Lemma shell_pos_sd_first_sweep_witness :
  exists xc fc sj',
    sweep_x !! Z.to_nat (shell sweep_shell) = Some xc
    /\ sweep_f !! Z.to_nat (shell sweep_shell) = Some fc
    /\ snd (sweep_result 1 [sweep_shell]) !! 0%nat = Some sj'
    /\ step sj' = mk_rvec (k_1 sweep_shell) (k_1 sweep_shell) (k_1 sweep_shell)
    /\ xold sj' = xc /\ fold sj' = fc
    /\ fst (sweep_result 1 [sweep_shell]) !! Z.to_nat (shell sweep_shell)
       = Some (mk_rvec (XX xc + XX fc * k_1 sweep_shell)
                 (YY xc + YY fc * k_1 sweep_shell)
                 (ZZ xc + ZZ fc * k_1 sweep_shell))%Q.
Proof.
  apply (@shell_pos_sd_first_sweep example_headers sweep_x sweep_x sweep_f 1
           [sweep_shell] (fst (sweep_result 1 [sweep_shell]))
           (snd (sweep_result 1 [sweep_shell])) 0%nat sweep_shell).
  - vm_compute. reflexivity.
  - reflexivity.
  - lia.
  - intros [|j'] sj' Hs' _ _; [reflexivity|discriminate Hs'].
Defined.

(** X13: a sweep writes the new position of the shells of the first [ns]
    records and nothing else: the arrays keep their lengths, every other
    entry of [xnew] and every record from [ns] on is as before.  During
    minimisation only the shell positions are updated. *)
Theorem shell_pos_sd_moves_only_shells {hdr : Headers}
    (xcur xnew f : list rvec) (ns : Z) (s : list t_shell) (count : Z)
    (xnew' : list rvec) (s' : list t_shell) :
  shell_pos_sd xcur xnew f ns s count = Done (xnew', s') ->
  length xnew' = length xnew
  /\ length s' = length s
  /\ (forall p,
        (forall j sj,
           s !! j = Some sj -> Z.of_nat j < ns -> Z.to_nat (shell sj) <> p) ->
        xnew' !! p = xnew !! p)
  /\ (forall j, ns <= Z.of_nat j -> s' !! j = s !! j).
Proof.
  intros H.
  destruct (shell_pos_sd_sweep _ _ _ _ _ _ _ _ H) as (Ha & Hb & Hc & _ & He).
  split; [exact Hb|]. split; [exact Ha|]. split; [exact He|exact Hc].
Qed.

Lemma shell_pos_sd_moves_only_shells_witness :
  length (fst (sweep_result 1 [sweep_shell])) = length sweep_x
  /\ fst (sweep_result 1 [sweep_shell]) !! 0%nat = sweep_x !! 0%nat.
Proof.
  destruct (@shell_pos_sd_moves_only_shells example_headers sweep_x sweep_x
              sweep_f 1 [sweep_shell] 1 (fst (sweep_result 1 [sweep_shell]))
              (snd (sweep_result 1 [sweep_shell])))
    as (H1 & _ & H3 & _).
  - vm_compute. reflexivity.
  - split; [exact H1|]. apply H3.
    intros [|j] sj Hsj _; [|discriminate Hsj].
    injection Hsj as <-. discriminate.
Defined.

(** X14: on every later sweep ([count <> 1]) the step of each component
    of each of the first [ns] records changes by a factor between
    [step_scale_min = 0.8] and [step_scale_max = 1.2], whatever the
    changes of position and force were; a step that is not negative
    stays so. *)
Theorem shell_pos_sd_step_within_scales {hdr : Headers}
    (xcur xnew f : list rvec) (ns : Z) (s : list t_shell) (count : Z)
    (xnew' : list rvec) (s' : list t_shell) (j : nat) (sj : t_shell) :
  count <> 1 ->
  shell_pos_sd xcur xnew f ns s count = Done (xnew', s') ->
  s !! j = Some sj -> Z.of_nat j < ns ->
  exists sj',
    s' !! j = Some sj'
    /\ forall d,
         (0 <= rcomp (step sj) d ->
          (8 # 10) * rcomp (step sj) d <= rcomp (step sj') d
          /\ rcomp (step sj') d <= (12 # 10) * rcomp (step sj) d)%Q.
Proof.
  intros Hcount H Hsj Hj.
  destruct (shell_pos_sd_sweep _ _ _ _ _ _ _ _ H) as (_ & _ & _ & Hd & _).
  destruct (Hd j sj Hsj Hj) as (sj' & x & Hsd & Hs' & _).
  destruct (shell_pos_sd_1_Done _ _ _ _ _ _ Hsd)
    as (xc & fc & _ & _ & _ & _ & _ & _ & _ & Hstep).
  exists sj'. split; [exact Hs'|]. intros d Hpos.
  destruct (Z.eqb_spec count 1) as [E|_]; [contradiction|].
  rewrite Hstep.
  pose proof (adapt_step_bounds (rcomp (step sj) d)
                (rcomp xc d - rcomp (xold sj) d)
                (rcomp fc d - rcomp (fold sj) d) Hpos) as Hb.
  unfold step_scale_min, step_scale_max in Hb.
  destruct d; exact Hb.
Qed.

Lemma shell_pos_sd_step_within_scales_witness :
  exists sj',
    snd (sweep_result 2 (snd (sweep_result 1 [sweep_shell]))) !! 0%nat
    = Some sj'
    /\ forall d,
         (0 <= rcomp (mk_rvec (1 # 2) (1 # 2) (1 # 2)) d ->
          (8 # 10) * rcomp (mk_rvec (1 # 2) (1 # 2) (1 # 2)) d
          <= rcomp (step sj') d
          /\ rcomp (step sj') d
             <= (12 # 10) * rcomp (mk_rvec (1 # 2) (1 # 2) (1 # 2)) d)%Q.
Proof.
  destruct (@shell_pos_sd_step_within_scales example_headers sweep_x sweep_x
              sweep_f 1 (snd (sweep_result 1 [sweep_shell])) 2
              (fst (sweep_result 2 (snd (sweep_result 1 [sweep_shell]))))
              (snd (sweep_result 2 (snd (sweep_result 1 [sweep_shell]))))
              0%nat
              (set_xold_fold
                 (set_step sweep_shell (mk_rvec (1 # 2) (1 # 2) (1 # 2)))
                 (mk_rvec (1 # 10) 0 0) (mk_rvec 1 0 0)))
    as (sj' & H1 & H2).
  - lia.
  - vm_compute. reflexivity.
  - reflexivity.
  - lia.
  - exists sj'. split; [exact H1|exact H2].
Defined.

(** X15: [decrease_step_size] returns exactly when the table holds at
    least [nshell] records; it then multiplies the step of each of the
    first [nshell] records by 0.8 in every direction and leaves all
    other fields and all other records as they are. *)
Theorem decrease_step_size_scales_steps (n : Z) (s : list t_shell) :
  (n <= Z.of_nat (length s) -> exists s', decrease_step_size n s = Done s')
  /\ (forall s',
        decrease_step_size n s = Done s' ->
        n <= Z.of_nat (length s)
        /\ length s' = length s
        /\ forall j sj,
             s !! j = Some sj ->
             s' !! j
             = Some (if Z.of_nat j <? n
                     then set_step sj (svmul (8 # 10) (step sj))
                     else sj)).
Proof.
  pose (P := fun (i : Z) (sa : list t_shell) =>
    0 <= i <= Z.of_nat (length s)
    /\ length sa = length s
    /\ forall j sj,
         s !! j = Some sj ->
         sa !! j
         = Some (if Z.of_nat j <? i
                 then set_step sj (svmul (8 # 10) (step sj))
                 else sj)).
  assert (P0 : P 0 s).
  { unfold P. split; [lia|]. split; [reflexivity|]. intros j sj Hsj.
    destruct (Z.ltb_spec (Z.of_nat j) 0); [lia|exact Hsj]. }
  assert (Pfinal : forall s', P (Z.max 0 n) s' ->
            n <= Z.of_nat (length s)
            /\ length s' = length s
            /\ forall j sj,
                 s !! j = Some sj ->
                 s' !! j
                 = Some (if Z.of_nat j <? n
                         then set_step sj (svmul (8 # 10) (step sj))
                         else sj)).
  { intros s' (Hr & Hl & Hall). split; [lia|]. split; [exact Hl|].
    intros j sj Hsj. rewrite (Hall j sj Hsj).
    destruct (Z.ltb_spec (Z.of_nat j) (Z.max 0 n)),
      (Z.ltb_spec (Z.of_nat j) n); try reflexivity; lia. }
  assert (Pstep : forall i sa si,
            P i sa -> sa !! Z.to_nat i = Some si ->
            P (i + 1) (<[Z.to_nat i := set_step si (svmul (8 # 10) (step si))]> sa)).
  { intros i sa si (Hr & Hl & Hall) Hsi.
    assert (Hlt : (Z.to_nat i < length s)%nat).
    { rewrite <- Hl. eapply lookup_lt_Some. exact Hsi. }
    unfold P. rewrite length_insert. split; [lia|]. split; [exact Hl|].
    intros j sj Hsj. destruct (decide (j = Z.to_nat i)) as [->|Hne].
    - rewrite list_lookup_insert_eq by lia.
      rewrite (Hall _ _ Hsj) in Hsi.
      destruct (Z.ltb_spec (Z.of_nat (Z.to_nat i)) i); [lia|].
      injection Hsi as <-.
      destruct (Z.ltb_spec (Z.of_nat (Z.to_nat i)) (i + 1)); [reflexivity|lia].
    - rewrite list_lookup_insert_ne by auto. rewrite (Hall j sj Hsj).
      destruct (Z.ltb_spec (Z.of_nat j) i),
        (Z.ltb_spec (Z.of_nat j) (i + 1)); try reflexivity; lia. }
  unfold decrease_step_size. split.
  - intros Hn.
    destruct (ofold_zrange_total
                (fun i sa => P i sa /\ i <= Z.max 0 n)
                (fun s0 i =>
                   let* si := aget s0 i in
                   aset s0 i (set_step si (svmul (8 # 10) (step si))))
                n) with (n := Z.to_nat (n - 0)) (lo := 0) (s := s)
      as (s' & Hs' & _).
    + intros i sa Hi [HP Hmax].
      destruct HP as (Hr & Hl & Hall).
      destruct (lookup_lt_is_Some_2 sa (Z.to_nat i)) as [si Hsi]; [lia|].
      exists (<[Z.to_nat i := set_step si (svmul (8 # 10) (step si))]> sa).
      rewrite (aget_lookup _ _ _ (proj1 Hr) Hsi). cbn [obind].
      rewrite aset_in_range by lia. split; [reflexivity|].
      split; [|lia]. apply Pstep; [|exact Hsi]. repeat split; assumption || lia.
    + reflexivity.
    + split; [exact P0|lia].
    + exists s'. exact Hs'.
  - intros s' H. apply Pfinal.
    refine (ofold_zrange P _ n _ (Z.to_nat (n - 0)) 0 s s' eq_refl P0 H).
    intros i sa sa' Hi HP Hbody.
    obind_as Hbody si Hsi. apply aget_Done in Hsi as [_ Hsi].
    apply aset_Done in Hbody as [_ ->]. apply Pstep; assumption.
Qed.

Lemma decrease_step_size_scales_steps_witness :
  (exists s',
     decrease_step_size 1 (snd (sweep_result 1 [sweep_shell])) = Done s')
  /\ decrease_step_size 2 [sweep_shell] = Undefined.
Proof.
  split.
  - apply (proj1 (decrease_step_size_scales_steps 1
                    (snd (sweep_result 1 [sweep_shell])))).
    vm_compute. discriminate.
  - reflexivity.
Defined.

(** X16: [directional_sd] sets every position with index in
    [start .. homenr-1] to the old position plus [step] times the
    projected acceleration of that atom, and touches no other entry of
    the new positions. *)
Theorem directional_sd_moves_home_atoms (xold_ xnew acc_dir : list rvec)
    (start homenr : Z) (step_ : real) (xnew' : list rvec) :
  directional_sd xold_ xnew acc_dir start homenr step_ = Done xnew' ->
  length xnew' = length xnew
  /\ (forall j,
        start <= Z.of_nat j < homenr ->
        exists xo a,
          xold_ !! j = Some xo /\ acc_dir !! j = Some a
          /\ xnew' !! j
             = Some (mk_rvec (XX xo + XX a * step_) (YY xo + YY a * step_)
                       (ZZ xo + ZZ a * step_))%Q)
  /\ (forall j, ~ start <= Z.of_nat j < homenr -> xnew' !! j = xnew !! j).
Proof.
  intros H. unfold directional_sd in H.
  pose (P := fun (i : Z) (xn : list rvec) =>
    start <= i
    /\ length xn = length xnew
    /\ (forall j,
          start <= Z.of_nat j < i ->
          exists xo a,
            xold_ !! j = Some xo /\ acc_dir !! j = Some a
            /\ xn !! j = Some (do_1pos xo a step_))
    /\ (forall j, ~ start <= Z.of_nat j < i -> xn !! j = xnew !! j)).
  assert (HP : P (Z.max start homenr) xnew').
  { refine (ofold_zrange P _ homenr _ (Z.to_nat (homenr - start)) start xnew
              xnew' eq_refl _ H).
    - intros i xn xn' Hi (Hr & Hl & Hin & Hout) Hbody.
      obind_as Hbody xo Hxo. apply aget_Done in Hxo as [_ Hxo].
      obind_as Hbody a Ha. apply aget_Done in Ha as [_ Ha].
      apply aset_Done in Hbody as [Hri ->].
      unfold P. rewrite length_insert. split; [lia|]. split; [exact Hl|].
      split.
      + intros j Hj. destruct (decide (j = Z.to_nat i)) as [->|Hne].
        * exists xo, a. split; [exact Hxo|]. split; [exact Ha|].
          apply list_lookup_insert_eq. lia.
        * rewrite list_lookup_insert_ne by auto. apply Hin. lia.
      + intros j Hj. rewrite list_lookup_insert_ne by lia. apply Hout. lia.
    - unfold P. split; [lia|]. split; [reflexivity|].
      split; [intros j Hj; lia|reflexivity]. }
  destruct HP as (_ & Hl & Hin & Hout). split; [exact Hl|]. split.
  - intros j Hj. apply Hin. lia.
  - intros j Hj. apply Hout. lia.
Qed.

Lemma directional_sd_moves_home_atoms_witness :
  length directional_result = length sweep_x
  /\ directional_result !! 2%nat = sweep_x !! 2%nat.
Proof.
  destruct (directional_sd_moves_home_atoms sweep_x sweep_x sweep_f 0 2
              (1 # 2) directional_result) as (H1 & _ & H3).
  - vm_compute. reflexivity.
  - split; [exact H1|]. apply H3. cbn. lia.
Defined.

(** ** The RMS force on more than one rank *)

(** [(int)(n + 0.5)] gives back a shell count [n] that went through a
    [double]. *)
Lemma real_to_int_round (n : Z) :
  0 <= n -> real_to_int (inject_Z n + (1 # 2)) = n.
Proof.
  intros Hn. unfold real_to_int, inject_Z, Qplus. cbn [Qnum Qden].
  rewrite Z.quot_div_nonneg by lia.
  symmetry. apply (Z.div_unique _ _ _ 1); lia.
Qed.

(** X17: in a parallel run whose global sum leaves the buffer as it is
    (one rank contributing), [rms_force] returns what the serial code
    path returns: the shell count survives the round trip through the
    [double] buffer and the cast back with [(int)(buf[1] + 0.5)], and
    [sf_dir] and [Epot] come back unchanged. *)
Theorem rms_force_sum_over_one_rank {hdr : Headers} {col : Collaborators}
    (cr : t_commrec) (f : list rvec) (ns : Z) (s : list t_shell) (ndir : Z)
    (sf_dir Epot : real) :
  (forall buf, gmx_sumd buf = buf) ->
  0 <= ns ->
  rms_force cr f ns s ndir sf_dir Epot
  = rms_force (mk_commrec (cr_dd cr) false (cr_MASTER cr)) f ns s ndir sf_dir
      Epot.
Proof.
  intros Hsum Hns. unfold rms_force.
  match goal with
  | |- context [ofold ?b ?l ?s0] => destruct (ofold b l s0) as [buf0| |]
  end; cbn [obind]; try reflexivity.
  cbn [cr_PAR]. destruct (cr_PAR cr); [|reflexivity].
  rewrite Hsum. cbn [obind]. rewrite (real_to_int_round ns Hns). reflexivity.
Qed.

Lemma rms_force_sum_over_one_rank_witness :
  @rms_force example_headers (example_collab rvec_zero)
    (mk_commrec None true true) sweep_f 1 [sweep_shell] 0 0 0
  = @rms_force example_headers (example_collab rvec_zero)
      (mk_commrec None false true) sweep_f 1 [sweep_shell] 0 0 0.
Proof.
  apply (@rms_force_sum_over_one_rank example_headers
           (example_collab rvec_zero) (mk_commrec None true true)).
  - intros buf. reflexivity.
  - lia.
Defined.

(** ** The hard wall: when it acts, and how it can fail *)

Lemma ofold_inv_in {A S : Type} (P : S -> Prop) (body : S -> A -> outcome S)
    (xs : list A) :
  (forall s x s', In x xs -> P s -> body s x = Done s' -> P s') ->
  forall s s', P s -> ofold body xs s = Done s' -> P s'.
Proof.
  induction xs as [|x xs IH]; cbn [ofold]; intros Hbody s s' Hs H.
  - injection H as <-. exact Hs.
  - obind_as H s1 H1. apply (IH (fun s0 y s0' Hin => Hbody s0 y s0' (or_intror Hin))
                               s1 s'); [|exact H].
    apply (Hbody s x s1 (or_introl eq_refl) Hs H1).
Qed.

Lemma in_drude_bonds {hdr : Headers} (il : ftype_t -> t_ilist)
    (md : t_mdatoms) (ft : ftype_t) (j a1 a2 : Z) (p : Z * Z) :
  In ft flocal ->
  In j (stride_range (il_nr (il ft)) (1 + Z.of_nat (nratoms ft))) ->
  aget (il_iatoms (il ft)) (j + 1) = Done a1 ->
  aget (il_iatoms (il ft)) (j + 2) = Done a2 ->
  find_drude md a1 a2 = Done (Some p) ->
  In p (drude_bonds il md).
Proof.
  intros Hft Hj H1 H2 Hfind. unfold drude_bonds.
  apply in_flat_map. exists ft. split; [exact Hft|].
  apply in_flat_map. exists j. split; [exact Hj|].
  rewrite H1, H2, Hfind. left. reflexivity.
Qed.

(** One entry of a list: nothing happens unless the entry is a Drude
    bond that is longer than the wall. *)
Lemma hardwall_entry_within_wall {hdr : Headers} {col : Collaborators}
    (cr : t_commrec) (ir : t_inputrec) (md : t_mdatoms) (iatoms : list Z)
    (j : Z) (acc acc' : t_state * tensor) :
  (forall a1 a2 ia ib xa xb,
     aget iatoms (j + 1) = Done a1 -> aget iatoms (j + 2) = Done a2 ->
     find_drude md a1 a2 = Done (Some (ia, ib)) ->
     st_x (fst acc) !! Z.to_nat ia = Some xa ->
     st_x (fst acc) !! Z.to_nat ib = Some xb ->
     (norm2 (pbc_dx xb xa) <= ir_drude_r ir * ir_drude_r ir)%Q) ->
  hardwall_entry cr ir md iatoms j acc = Done acc' -> acc' = acc.
Proof.
  intros Hnear H. unfold hardwall_entry in H. destruct acc as [state vir].
  obind_as H a1 H1. obind_as H a2 H2. obind_as H found Hfind.
  destruct found as [[ia ib]|]; [|injection H as <-; reflexivity].
  obind_as H xa Hxa. obind_as H xb Hxb. obind_as H va Hva. obind_as H vb Hvb.
  apply aget_Done in Hxa as [_ Hxa]. apply aget_Done in Hxb as [_ Hxb].
  specialize (Hnear a1 a2 ia ib xa xb H1 H2 Hfind Hxa Hxb).
  apply Qltb_ge in Hnear. rewrite Hnear in H. injection H as <-. reflexivity.
Qed.

(** X18: when every atom-Drude bond of the two lists is at most
    [drude_r] long, [apply_drude_hardwall] changes neither a position
    nor a velocity nor the virial. *)
Theorem apply_drude_hardwall_within_wall {hdr : Headers} {col : Collaborators}
    (cr : t_commrec) (il : ftype_t -> t_ilist) (ir : t_inputrec)
    (md : t_mdatoms) (state : t_state) (force_vir : tensor)
    (res : t_state * tensor) :
  (forall ia ib xa xb,
     In (ia, ib) (drude_bonds il md) ->
     st_x state !! Z.to_nat ia = Some xa ->
     st_x state !! Z.to_nat ib = Some xb ->
     (norm2 (pbc_dx xb xa) <= ir_drude_r ir * ir_drude_r ir)%Q) ->
  apply_drude_hardwall cr il ir md state force_vir = Done res ->
  res = (state, force_vir).
Proof.
  intros Hnear H. unfold apply_drude_hardwall in H.
  refine (ofold_inv_in (fun acc => acc = (state, force_vir)) _ flocal _ _ _
            eq_refl H).
  intros acc ft acc' Hft -> Hlist.
  refine (ofold_inv_in (fun acc => acc = (state, force_vir)) _ _ _ _ _
            eq_refl Hlist).
  intros acc1 j acc1' Hj -> Hentry.
  apply hardwall_entry_within_wall in Hentry; [exact Hentry|].
  cbn [fst]. intros a1 a2 ia ib xa xb H1 H2 Hfind Hxa Hxb.
  apply (Hnear ia ib xa xb); [|exact Hxa|exact Hxb].
  eapply in_drude_bonds; eassumption.
Qed.

Lemma apply_drude_hardwall_within_wall_witness :
  @apply_drude_hardwall example_headers (example_collab rvec_zero)
    single_rank wall_il wall_ir wall_md near_state tensor_zero
  = Done (near_state, tensor_zero).
Proof.
  assert (H : forall res,
            @apply_drude_hardwall example_headers (example_collab rvec_zero)
              single_rank wall_il wall_ir wall_md near_state tensor_zero
            = Done res -> res = (near_state, tensor_zero)).
  { intros res. apply apply_drude_hardwall_within_wall.
    intros ia ib xa xb Hin Hxa Hxb.
    destruct Hin as [Hin|[]]. injection Hin as <- <-.
    injection Hxa as <-. injection Hxb as <-. vm_compute. discriminate. }
  destruct (@apply_drude_hardwall example_headers (example_collab rvec_zero)
              single_rank wall_il wall_ir wall_md near_state tensor_zero)
    as [res| |] eqn:E.
  - rewrite (H res eq_refl). reflexivity.
  - vm_compute in E. discriminate E.
  - vm_compute in E. discriminate E.
Defined.

Lemma hardwall_entry_Fatal {hdr : Headers} {col : Collaborators}
    (cr : t_commrec) (ir : t_inputrec) (md : t_mdatoms) (iatoms : list Z)
    (j : Z) (acc : t_state * tensor) (e : fatal_error) :
  hardwall_entry cr ir md iatoms j acc = Fatal e ->
  exists a1 a2 ia ib xa xb,
    aget iatoms (j + 1) = Done a1 /\ aget iatoms (j + 2) = Done a2
    /\ find_drude md a1 a2 = Done (Some (ia, ib))
    /\ st_x (fst acc) !! Z.to_nat ia = Some xa
    /\ st_x (fst acc) !! Z.to_nat ib = Some xb
    /\ (2 * ir_drude_r ir < real_sqrt (norm2 (pbc_dx xb xa)))%Q
    /\ e = FatalDrudeTooFar (atom_number cr ib) (atom_number cr ia).
Proof.
  intros H. unfold hardwall_entry in H. destruct acc as [state vir].
  apply obind_Fatal in H as [H|(a1 & H1 & H)];
    [exfalso; exact (aget_not_Fatal _ _ _ H)|].
  apply obind_Fatal in H as [H|(a2 & H2 & H)];
    [exfalso; exact (aget_not_Fatal _ _ _ H)|].
  apply obind_Fatal in H as [H|(found & Hfind & H)].
  { exfalso. unfold find_drude in H.
    assert (Hn : never_fatal
                   (let* p1 := aget (md_ptype md) a1 in
                    let* p2 := aget (md_ptype md) a2 in
                    if ptype_eqb p1 eptShell && ptype_eqb p2 eptAtom
                    then Done (Some (a2, a1))
                    else if ptype_eqb p1 eptAtom && ptype_eqb p2 eptShell
                         then Done (Some (a1, a2))
                         else Done None)) by never_fatal_auto.
    exact (Hn _ H). }
  destruct found as [[ia ib]|]; [|discriminate H].
  apply obind_Fatal in H as [H|(xa & Hxa & H)];
    [exfalso; exact (aget_not_Fatal _ _ _ H)|].
  apply obind_Fatal in H as [H|(xb & Hxb & H)];
    [exfalso; exact (aget_not_Fatal _ _ _ H)|].
  apply obind_Fatal in H as [H|(va & Hva & H)];
    [exfalso; exact (aget_not_Fatal _ _ _ H)|].
  apply obind_Fatal in H as [H|(vb & Hvb & H)];
    [exfalso; exact (aget_not_Fatal _ _ _ H)|].
  apply aget_Done in Hxa as [_ Hxa]. apply aget_Done in Hxb as [_ Hxb].
  destruct (Qltb (ir_drude_r ir * ir_drude_r ir) (norm2 (pbc_dx xb xa)));
    [|discriminate H].
  destruct (Qltb (2 * ir_drude_r ir) (real_sqrt (norm2 (pbc_dx xb xa))))
    eqn:Efar.
  - injection H as <-. apply Qltb_lt in Efar.
    exists a1, a2, ia, ib, xa, xb. repeat split; assumption.
  - exfalso.
    match type of H with
    | ?m = Fatal _ =>
        assert (Hn : never_fatal m) by never_fatal_auto; exact (Hn _ H)
    end.
Qed.

(** X19: the only way [apply_drude_hardwall] ends in [gmx_fatal] is the
    "Drude atom is too far from its heavy atom" error, and the two
    numbers in its message are those of the Drude and the heavy atom of
    an atom-Drude bond of the bond or polarization list, as messages
    number atoms: the local index plus one on a single node, [ddglatnr]
    of the local index with domain decomposition. *)
Theorem apply_drude_hardwall_fatal_is_too_far {hdr : Headers}
    {col : Collaborators} (cr : t_commrec) (il : ftype_t -> t_ilist)
    (ir : t_inputrec) (md : t_mdatoms) (state : t_state) (force_vir : tensor)
    (e : fatal_error) :
  apply_drude_hardwall cr il ir md state force_vir = Fatal e ->
  exists ia ib,
    e = FatalDrudeTooFar (atom_number cr ib) (atom_number cr ia)
    /\ In (ia, ib) (drude_bonds il md).
Proof.
  intros H. unfold apply_drude_hardwall in H.
  apply ofold_Fatal in H as (ft & acc & Hft & H).
  apply ofold_Fatal in H as (j & acc1 & Hj & H).
  apply hardwall_entry_Fatal in H
    as (a1 & a2 & ia & ib & xa & xb & H1 & H2 & Hfind & _ & _ & _ & ->).
  exists ia, ib. split; [reflexivity|].
  eapply in_drude_bonds; eassumption.
Qed.

Lemma apply_drude_hardwall_fatal_is_too_far_witness :
  exists ia ib,
    FatalDrudeTooFar 2 1
    = FatalDrudeTooFar (@atom_number (example_collab rvec_zero) single_rank ib)
        (@atom_number (example_collab rvec_zero) single_rank ia)
    /\ In (ia, ib) (@drude_bonds example_headers wall_il wall_md).
Proof.
  apply (@apply_drude_hardwall_fatal_is_too_far example_headers
           (example_collab rvec_zero) single_rank wall_il wall_ir wall_md
           far_state tensor_zero (FatalDrudeTooFar 2 1)).
  vm_compute. reflexivity.
Defined.

(** X20: the time [dt] that the correction of a bond at least as long
    as the wall uses, for the positions and for the virial, is never
    negative and never more than two time steps. *)
Theorem hardwall_correct_time_is_capped {hdr : Headers} (ir : t_inputrec)
    (ma mb : real) (xa xb va vb vecab0 : rvec) (rab : real) :
  (0 <= ir_delta_t ir)%Q -> (ir_drude_r ir <= rab)%Q ->
  (0 <= fix_dt (hardwall_correct ir ma mb xa xb va vb vecab0 rab)
   /\ fix_dt (hardwall_correct ir ma mb xa xb va vb vecab0 rab)
      <= 2 * ir_delta_t ir)%Q.
Proof.
  intros Hdt Hr. unfold hardwall_correct. cbv zeta. cbn [fix_dt].
  match goal with
  | |- context [if Qeq_bool ?a ?b then _ else _] => destruct (Qeq_bool a b)
  end; [lra|].
  match goal with
  | |- context [if Qltb ?a ?b then _ else _] =>
      destruct (Qltb a b) eqn:E; [lra|]
  end.
  apply Qltb_ge in E. split; [|exact E].
  unfold Qdiv. apply Qmult_le_0_compat; [lra|].
  apply Qinv_le_0_compat. apply Qabs_nonneg.
Qed.

Lemma hardwall_correct_time_is_capped_witness :
  (0 <= fix_dt (@hardwall_correct example_headers wall_ir 3 1 rvec_zero
                  (mk_rvec (3 # 10) 0 0) (mk_rvec 1 0 0) (mk_rvec 5 0 0)
                  (mk_rvec (3 # 10) 0 0) (3 # 10))
   /\ fix_dt (@hardwall_correct example_headers wall_ir 3 1 rvec_zero
                (mk_rvec (3 # 10) 0 0) (mk_rvec 1 0 0) (mk_rvec 5 0 0)
                (mk_rvec (3 # 10) 0 0) (3 # 10))
      <= 2 * ir_delta_t wall_ir)%Q.
Proof.
  apply (@hardwall_correct_time_is_capped example_headers wall_ir 3 1).
  - vm_compute. discriminate.
  - vm_compute. discriminate.
Defined.

(** ** The relaxation step: accounting, convergence flag, errors *)

Lemma store_shell_cells_fields (shfc : gmx_shellfc) (cells : list t_shell) :
  nflexcon (store_shell_cells shfc cells) = nflexcon shfc
  /\ nshell (store_shell_cells shfc cells) = nshell shfc
  /\ shfc_x (store_shell_cells shfc cells) = shfc_x shfc
  /\ shfc_f (store_shell_cells shfc cells) = shfc_f shfc
  /\ shell_cells (store_shell_cells shfc cells) = cells.
Proof.
  unfold store_shell_cells, shell_cells. destruct (shell_p shfc); cbn;
    repeat split.
Qed.

Lemma no_converge_round (evs : list event) (r : real) (msg : list event) :
  List.filter is_no_converge (evs ++ [EvDoForce; EvRmsForce r] ++ msg)
  = List.filter is_no_converge evs ++ List.filter is_no_converge msg.
Proof. rewrite !List.filter_app. reflexivity. Qed.

Section RelaxStep.
Context {hdr : Headers} {col : Collaborators}.
Variable cr : t_commrec.
Variable bVerbose : bool.
Variable mdstep : Z.
Variable inputrec : t_inputrec.
Variable md : t_mdatoms.
Variable graph : bool.
Variable vsite : bool.
Variable fc_stepsize : real.
Variable state_x : list rvec.

Let iteration :=
  relax_iteration cr bVerbose mdstep inputrec md graph vsite fc_stepsize
    state_x.
Let loop :=
  relax_loop cr bVerbose mdstep inputrec md graph vsite fc_stepsize state_x.

(** The invariant rule of the minimisation loop: a round is entered
    only while the step has not converged and the budget is not used
    up. *)
Lemma relax_loop_invariant (I : loop_state -> Prop) :
  (forall ls ls',
     I ls -> ls_bConverged ls = false -> ls_count ls < ir_niter inputrec ->
     iteration ls = Done ls' -> I ls') ->
  forall (fuel : nat) (ls ls' : loop_state),
    I ls -> loop fuel ls = Done ls' -> I ls'.
Proof.
  intros Hstep. induction fuel as [|fuel IH]; intros ls ls' Hinv H;
    unfold loop in H; cbn [relax_loop] in H;
    destruct (ls_bConverged ls) eqn:Hconv;
    destruct (Z.ltb_spec (ls_count ls) (ir_niter inputrec)) as [Hlt|Hge];
    cbn [negb andb] in H; try discriminate;
    try (injection H as <-; exact Hinv).
  obind_as H ls1 Hit. apply (IH ls1 ls'); [|exact H].
  apply (Hstep ls ls1); assumption.
Qed.

(** A round keeps the convergence flag in step with the accepted RMS
    force. *)
Lemma relax_iteration_flag (ls ls' : loop_state) :
  ls_bConverged ls = Qltb (sel (ls_Min ls) (ls_df ls)) (ir_em_tol inputrec) ->
  ls_bConverged ls = false ->
  iteration ls = Done ls' ->
  ls_bConverged ls'
  = Qltb (sel (ls_Min ls') (ls_df ls')) (ir_em_tol inputrec).
Proof.
  intros Hflag Hconv H. rewrite Hconv in Hflag. symmetry in Hflag.
  apply Qltb_ge in Hflag.
  apply (relax_iteration_spec cr bVerbose mdstep inputrec md graph vsite
           fc_stepsize state_x) in H as (_ & _ & r & _ & Hc & Hdf).
  rewrite Hc, Hdf.
  destruct (Qltb r (sel (ls_Min ls) (ls_df ls))) eqn:E; [reflexivity|].
  apply Qltb_ge in E.
  assert (Hr : Qltb r (ir_em_tol inputrec) = false) by (apply Qltb_ge; lra).
  rewrite Hr. symmetry. apply Qltb_ge. exact Hflag.
Qed.

(** A round writes no message about non-convergence. *)
Lemma relax_iteration_no_message (ls ls' : loop_state) :
  iteration ls = Done ls' ->
  List.filter is_no_converge (ls_events ls')
  = List.filter is_no_converge (ls_events ls).
Proof.
  intros H.
  apply (relax_iteration_spec cr bVerbose mdstep inputrec md graph vsite
           fc_stepsize state_x) in H as (_ & _ & r & Hev & _).
  rewrite Hev, no_converge_round.
  destruct (bVerbose && cr_MASTER cr); cbn; apply app_nil_r.
Qed.

(** A round without virtual sites of an engine without flexible
    constraints: the velocities stay, the table keeps its topology
    fields, and the positions of the buffer that is tried are those of
    a sweep of [shell_pos_sd] from the accepted buffer. *)
Lemma relax_iteration_noflex (ls ls' : loop_state) :
  vsite = false ->
  nflexcon (ls_shfc ls) = 0 ->
  iteration ls = Done ls' ->
  ls_v ls' = ls_v ls
  /\ map topology_fields (shell_cells (ls_shfc ls'))
     = map topology_fields (shell_cells (ls_shfc ls))
  /\ exists xtry cells,
       let pos := shfc_x (ls_shfc ls) in
       shell_pos_sd (sel (ls_Min ls) pos) (sel (Try (ls_Min ls)) pos)
         (sel (ls_Min ls) (shfc_f (ls_shfc ls))) (nshell (ls_shfc ls))
         (shell_cells (ls_shfc ls)) (ls_count ls) = Done (xtry, cells)
       /\ shfc_x (ls_shfc ls')
          = upd (Try (ls_Min ls)) pos
              (if graph then unshift_self xtry else xtry).
Proof.
  intros Hvs Hnf H. unfold iteration, relax_iteration in H.
  rewrite Hvs in H. cbv zeta in H. cbn [fst snd] in H.
  obind_as H [pos acc_dir] Hpos. rewrite Hnf in Hpos.
  cbn [Z.eqb negb] in Hpos. injection Hpos as <- <-.
  obind_as H [xtry cells] Hsd.
  pose proof (shell_pos_sd_topology _ _ _ _ _ _ _ _ Hsd) as Htop.
  destruct (store_shell_cells_fields (ls_shfc ls) cells)
    as (S1 & S2 & S3 & S4 & S5).
  destruct (do_force false _) as [ftry epot].
  obind_as H [sf_dir shfc1] Hdir. unfold directional_force in Hdir.
  cbn [set_buffers nflexcon] in Hdir. rewrite S1, Hnf in Hdir.
  cbn [Z.eqb negb] in Hdir. injection Hdir as <- <-.
  obind_as H [[dftry sf_dir1] epot1] Hrms. clear Hrms.
  cbn [set_buffers nflexcon] in H. rewrite S1, Hnf in H.
  cbn [Z.eqb negb] in H.
  destruct (Qltb _ _).
  - cbn [obind] in H. injection H as <-.
    cbn [ls_v ls_shfc set_buffers shfc_x shell_cells shell_p shell_gl].
    split; [reflexivity|]. split.
    + change (map topology_fields
                (shell_cells (store_shell_cells (ls_shfc ls) cells))
              = map topology_fields (shell_cells (ls_shfc ls))).
      rewrite S5. exact Htop.
    + exists xtry, cells. cbv zeta. split; [exact Hsd|].
      rewrite sel_upd_same. destruct graph, (ls_Min ls); reflexivity.
  - obind_as H cells' Hdec. injection H as <-.
    apply decrease_step_size_topology in Hdec.
    cbn [ls_v ls_shfc]. split; [reflexivity|].
    match type of Hdec with
    | map topology_fields cells'
      = map topology_fields (shell_cells ?sh) =>
        destruct (store_shell_cells_fields sh cells')
          as (_ & _ & T3 & _ & T5);
        change (shell_cells sh)
          with (shell_cells (store_shell_cells (ls_shfc ls) cells)) in Hdec
    end.
    rewrite S5 in Hdec. split.
    + rewrite T5. congruence.
    + exists xtry, cells. cbv zeta. split; [exact Hsd|].
      rewrite T3. cbn [set_buffers shfc_x].
      rewrite sel_upd_same. destruct graph, (ls_Min ls); reflexivity.
Qed.
End RelaxStep.



Lemma relax_prepare_velocities {hdr : Headers} {col : Collaborators}
    (cr : t_commrec) (bVerbose : bool) (mdstep : Z) (inputrec : t_inputrec)
    (bDoNS : bool) (state : t_state) (md : t_mdatoms) (graph : bool)
    (shfc : gmx_shellfc) (nat_ : Z) (x : list rvec) (ls0 : loop_state) :
  relax_prepare cr bVerbose mdstep inputrec bDoNS state md graph shfc
  = Done (nat_, x, ls0) ->
  ls_v ls0 = st_v state
  /\ (ir_drudemode inputrec = edrudeSCF \/ ir_eI_is_EM inputrec = true).
Proof.
  unfold relax_prepare. intros H.
  obind_as H [acc_dir x_old] Hflex. obind_as H x1 Hpred.
  destruct (do_force bDoNS _) as [f0 epot].
  destruct (ir_drudemode inputrec), (ir_eI_is_EM inputrec);
    try discriminate H;
    (obind_as H [sf shfc0] Hdir; obind_as H [[df sf'] ep] Hrms;
     obind_as H pos Hpos; injection H as _ _ <-; cbn [ls_v]; auto).
Qed.

Lemma relax_finish_state (fplog : bool) (cr : t_commrec) (mdstep : Z)
    (inputrec : t_inputrec) (nat_ : Z) (state : t_state) (f : list rvec)
    (ls : loop_state) (res : relax_result) :
  relax_finish fplog cr mdstep inputrec nat_ state f ls = Done res ->
  st_v (rr_state res) = ls_v ls
  /\ memcpy (st_x state) (sel (ls_Min ls) (shfc_x (ls_shfc ls))) nat_
     = Done (st_x (rr_state res)).
Proof.
  unfold relax_finish. intros H. obind_as H x Hx. obind_as H f' Hf.
  injection H as <-. cbn [rr_state st_v st_x]. split; [reflexivity|exact Hx].
Qed.

Lemma relax_prepare_Fatal {hdr : Headers} {col : Collaborators}
    (cr : t_commrec) (bVerbose : bool) (mdstep : Z) (inputrec : t_inputrec)
    (bDoNS : bool) (state : t_state) (md : t_mdatoms) (graph : bool)
    (shfc : gmx_shellfc) (e : fatal_error) :
  relax_prepare cr bVerbose mdstep inputrec bDoNS state md graph shfc
  = Fatal e ->
  (e = FatalUnknownDrudeMode
   /\ ir_drudemode inputrec <> edrudeSCF /\ ir_eI_is_EM inputrec = false)
  \/ (bPredict shfc = true
      /\ exists i si,
           0 <= i < nshell shfc
           /\ shell_cells shfc !! Z.to_nat i = Some si
           /\ e = FatalShellNuclei i (nnucl si)
           /\ nnucl si <> 1 /\ nnucl si <> 2 /\ nnucl si <> 3).
Proof.
  unfold relax_prepare. intros H. cbv zeta in H.
  apply obind_Fatal in H as [H|([acc_dir x_old] & _ & H)].
  { exfalso.
    match type of H with
    | ?m = Fatal _ =>
        assert (Hn : never_fatal m) by never_fatal_auto; exact (Hn _ H)
    end. }
  apply obind_Fatal in H as [H|(x1 & _ & H)].
  { right.
    match type of H with
    | (if ?b then _ else _) = _ => destruct b eqn:E; [|discriminate H]
    end.
    apply andb_prop in E as [E _]. split; [exact E|].
    apply predict_shells_Fatal in H. exact H. }
  destruct (do_force bDoNS _) as [f0 epot].
  destruct (ir_drudemode inputrec), (ir_eI_is_EM inputrec);
    try (injection H as <-; left; repeat split; discriminate);
    exfalso;
    match type of H with
    | ?m = Fatal _ =>
        assert (Hn : never_fatal m)
          by (never_fatal_with
                ltac:(first [ apply never_fatal_directional_force
                            | apply never_fatal_rms_force ]));
        exact (Hn _ H)
    end.
Qed.

(** X21: every step that returns has made [count] force evaluations and
    computed [count] RMS forces, where [count] is the final value of the
    loop counter; the run-wide counter of force evaluations grows by
    exactly [count]; [count] is at least 1 and exceeds the budget
    [niter] only when it is 1 (the first evaluation is made whatever the
    budget); and the loop has ended because the step converged or
    because [count] reached the budget.  The numbers of local shells
    and of flexible constraints are as before. *)
Theorem relax_force_evaluations_accounted {hdr : Headers}
    {col : Collaborators} (fplog : bool) (cr : t_commrec) (bVerbose : bool)
    (mdstep : Z) (inputrec : t_inputrec) (bDoNS : bool) (state : t_state)
    (f : list rvec) (md : t_mdatoms) (graph : bool) (shfc : gmx_shellfc)
    (fc_stepsize : real) (vsite : bool) (res : relax_result) :
  relax_shell_flexcon fplog cr bVerbose mdstep inputrec bDoNS state f md
    graph shfc fc_stepsize vsite = Done res ->
  1 <= rr_count res
  /\ (rr_count res = 1 \/ rr_count res <= ir_niter inputrec)
  /\ count_do_force (rr_events res) = rr_count res
  /\ Z.of_nat (length (rms_forces (rr_events res))) = rr_count res
  /\ numForceEvaluations (rr_shfc res)
     = numForceEvaluations shfc + rr_count res
  /\ (rr_bConverged res = true \/ ir_niter inputrec <= rr_count res)
  /\ nshell (rr_shfc res) = nshell shfc
  /\ nflexcon (rr_shfc res) = nflexcon shfc.
Proof.
  intros H. unfold relax_shell_flexcon in H.
  obind_as H [[nat_ x] ls0] Hprep. obind_as H ls Hloop.
  apply loop_inv_prepare in Hprep.
  destruct (loop_inv_relax_loop _ _ _ _ _ _ _ _ _ _ _ _ _ Hprep Hloop)
    as [(Hsc & Hc1 & Hc2 & Hdo & Hlen & _ & _ & _) Hexit].
  pose proof H as Hfin. unfold relax_finish in Hfin.
  obind_as Hfin x' Hx'. obind_as Hfin f' Hf'. injection Hfin as Hres.
  apply relax_finish_spec in H as (Rc & Rconv & _ & Rfe & _ & Rev).
  assert (Hrms : rms_forces (rr_events res) = rms_forces (ls_events ls)).
  { rewrite Rev, rms_forces_app.
    destruct (cr_MASTER cr && negb (ls_bConverged ls)), fplog;
      cbn; rewrite ?app_nil_r; reflexivity. }
  assert (Hdo' : count_do_force (rr_events res)
                 = count_do_force (ls_events ls)).
  { rewrite Rev, count_do_force_app.
    destruct (cr_MASTER cr && negb (ls_bConverged ls)), fplog;
      unfold count_do_force at 2;
      cbn [List.filter is_do_force length app Z.of_nat]; lia. }
  unfold shfc_scalars in Hsc. injection Hsc as Hns Hnf Hfe _.
  rewrite Hrms, Hdo', Rc, Rconv, Rfe, Hfe.
  repeat split; try assumption.
  - rewrite <- Hres. cbn [rr_shfc set_counters nshell]. exact Hns.
  - rewrite <- Hres. cbn [rr_shfc set_counters nflexcon]. exact Hnf.
Qed.

Lemma relax_force_evaluations_accounted_witness :
  1 <= rr_count (pair_result (mk_rvec 1 0 0))
  /\ count_do_force (rr_events (pair_result (mk_rvec 1 0 0)))
     = rr_count (pair_result (mk_rvec 1 0 0))
  /\ numForceEvaluations (rr_shfc (pair_result (mk_rvec 1 0 0)))
     = numForceEvaluations pair_shfc + rr_count (pair_result (mk_rvec 1 0 0)).
Proof.
  destruct (@relax_force_evaluations_accounted example_headers
              (example_collab (mk_rvec 1 0 0)) true single_rank true 1
              example_ir false pair_state [rvec_zero; rvec_zero] pair_md false
              pair_shfc 1 false (pair_result (mk_rvec 1 0 0)))
    as (H1 & _ & H3 & _ & H5 & _).
  - vm_compute. reflexivity.
  - split; [exact H1|]. split; [exact H3|exact H5].
Defined.

(** X22: when a step returns, its convergence flag says whether the RMS
    force of the accepted configuration, [df[Min]], is below the
    tolerance; the counter of converged steps grows by one exactly in
    that case; and the messages about non-convergence are written
    exactly when the master rank finds [df[Min]] not below the
    tolerance: one on stderr, before it one on the log file if there is
    one, both with the budget and with [df[Min]]. *)
Theorem relax_converged_flag_and_message {hdr : Headers}
    {col : Collaborators} (fplog : bool) (cr : t_commrec) (bVerbose : bool)
    (mdstep : Z) (inputrec : t_inputrec) (bDoNS : bool) (state : t_state)
    (f : list rvec) (md : t_mdatoms) (graph : bool) (shfc : gmx_shellfc)
    (fc_stepsize : real) (vsite : bool) (res : relax_result) :
  relax_shell_flexcon fplog cr bVerbose mdstep inputrec bDoNS state f md
    graph shfc fc_stepsize vsite = Done res ->
  rr_bConverged res = Qltb (rr_df_Min res) (ir_em_tol inputrec)
  /\ numConvergedIterations (rr_shfc res)
     = numConvergedIterations shfc + (if rr_bConverged res then 1 else 0)
  /\ List.filter is_no_converge (rr_events res)
     = (if cr_MASTER cr && negb (Qltb (rr_df_Min res) (ir_em_tol inputrec))
        then (if fplog
              then [EvNoConvergeLog mdstep (ir_niter inputrec) (rr_df_Min res)]
              else [])
             ++ [EvNoConvergeStderr mdstep (ir_niter inputrec)
                   (rr_df_Min res)]
        else []).
Proof.
  intros H. unfold relax_shell_flexcon in H.
  obind_as H [[nat_ x] ls0] Hprep. obind_as H ls Hloop.
  pose proof (loop_inv_prepare _ _ _ _ _ _ _ _ _ _ _ _ Hprep) as Hinv0.
  destruct (loop_inv_relax_loop _ _ _ _ _ _ _ _ _ _ _ _ _ Hinv0 Hloop)
    as [(Hsc & _) _].
  apply relax_prepare_spec in Hprep
    as (_ & HMin & Hconv0 & Hev0 & _).
  assert (Hinv : ls_bConverged ls
                 = Qltb (sel (ls_Min ls) (ls_df ls)) (ir_em_tol inputrec)
                 /\ List.filter is_no_converge (ls_events ls) = []).
  { refine (relax_loop_invariant cr bVerbose mdstep inputrec md graph vsite
              fc_stepsize x
              (fun l => ls_bConverged l
                        = Qltb (sel (ls_Min l) (ls_df l)) (ir_em_tol inputrec)
                        /\ List.filter is_no_converge (ls_events l) = [])
              _ _ ls0 ls _ Hloop).
    - intros l l' [Hflag Hmsg] Hc _ Hit. split.
      + eapply relax_iteration_flag; eassumption.
      + rewrite <- Hmsg. eapply relax_iteration_no_message. exact Hit.
    - rewrite HMin. split; [exact Hconv0|]. rewrite Hev0.
      destruct (bVerbose && cr_MASTER cr); reflexivity. }
  destruct Hinv as [Hflag Hmsg].
  apply relax_finish_spec in H as (_ & Rconv & Rdf & _ & Rci & Rev).
  unfold shfc_scalars in Hsc. injection Hsc as _ _ _ Hci.
  rewrite Rconv, Rdf, Rci, Hci, Rev, List.filter_app, Hmsg, <- Hflag.
  split; [reflexivity|]. split.
  - destruct (ls_bConverged ls); lia.
  - cbn [app].
    destruct (cr_MASTER cr && negb (ls_bConverged ls)), fplog; reflexivity.
Qed.

Lemma relax_converged_flag_and_message_witness :
  rr_bConverged (pair_result (mk_rvec 1 0 0))
  = Qltb (rr_df_Min (pair_result (mk_rvec 1 0 0))) (ir_em_tol example_ir)
  /\ List.filter is_no_converge (rr_events (pair_result (mk_rvec 1 0 0)))
     = [EvNoConvergeLog 1 (ir_niter example_ir)
          (rr_df_Min (pair_result (mk_rvec 1 0 0)));
        EvNoConvergeStderr 1 (ir_niter example_ir)
          (rr_df_Min (pair_result (mk_rvec 1 0 0)))].
Proof.
  destruct (@relax_converged_flag_and_message example_headers
              (example_collab (mk_rvec 1 0 0)) true single_rank true 1
              example_ir false pair_state [rvec_zero; rvec_zero] pair_md false
              pair_shfc 1 false (pair_result (mk_rvec 1 0 0)))
    as (H1 & _ & H3).
  - vm_compute. reflexivity.
  - split; [exact H1|]. rewrite H3. vm_compute. reflexivity.
Defined.

(** X23: a step can end in [gmx_fatal] in two ways only: with "Unknown
    Drude update type", when the Drude mode is not SCF and the
    integrator is not an energy minimiser, or, with prediction switched
    on, with the predictor's error for a record of the local table whose
    number of nuclei is not 1, 2 or 3. *)
Theorem relax_shell_flexcon_fatal_errors {hdr : Headers}
    {col : Collaborators} (fplog : bool) (cr : t_commrec) (bVerbose : bool)
    (mdstep : Z) (inputrec : t_inputrec) (bDoNS : bool) (state : t_state)
    (f : list rvec) (md : t_mdatoms) (graph : bool) (shfc : gmx_shellfc)
    (fc_stepsize : real) (vsite : bool) (e : fatal_error) :
  relax_shell_flexcon fplog cr bVerbose mdstep inputrec bDoNS state f md
    graph shfc fc_stepsize vsite = Fatal e ->
  (e = FatalUnknownDrudeMode
   /\ ir_drudemode inputrec <> edrudeSCF /\ ir_eI_is_EM inputrec = false)
  \/ (bPredict shfc = true
      /\ exists i si,
           0 <= i < nshell shfc
           /\ shell_cells shfc !! Z.to_nat i = Some si
           /\ e = FatalShellNuclei i (nnucl si)
           /\ nnucl si <> 1 /\ nnucl si <> 2 /\ nnucl si <> 3).
Proof.
  intros H. unfold relax_shell_flexcon in H.
  apply obind_Fatal in H as [H|([[nat_ x] ls0] & _ & H)].
  { apply relax_prepare_Fatal in H. exact H. }
  exfalso. apply obind_Fatal in H as [H|(ls & _ & H)].
  - exact (never_fatal_relax_loop _ _ _ _ _ _ _ _ _ _ _ _ H).
  - exact (never_fatal_relax_finish _ _ _ _ _ _ _ _ _ H).
Qed.

Lemma relax_shell_flexcon_fatal_errors_witness :
  (FatalUnknownDrudeMode = FatalUnknownDrudeMode
   /\ ir_drudemode wall_ir <> edrudeSCF /\ ir_eI_is_EM wall_ir = false)
  \/ (bPredict pair_shfc = true
      /\ exists i si,
           0 <= i < nshell pair_shfc
           /\ shell_cells pair_shfc !! Z.to_nat i = Some si
           /\ FatalUnknownDrudeMode = FatalShellNuclei i (nnucl si)
           /\ nnucl si <> 1 /\ nnucl si <> 2 /\ nnucl si <> 3).
Proof.
  apply (@relax_shell_flexcon_fatal_errors example_headers
           (example_collab rvec_zero) true single_rank true 1 wall_ir false
           pair_state [rvec_zero; rvec_zero] pair_md false pair_shfc 1 false
           FatalUnknownDrudeMode).
  vm_compute. reflexivity.
Defined.

(** X24: no step returns normally unless the Drude mode is SCF or the
    integrator is an energy minimiser: for every other setting the call
    does not get past the check that follows the first force
    evaluation. *)
Theorem relax_shell_flexcon_needs_scf_or_em {hdr : Headers}
    {col : Collaborators} (fplog : bool) (cr : t_commrec) (bVerbose : bool)
    (mdstep : Z) (inputrec : t_inputrec) (bDoNS : bool) (state : t_state)
    (f : list rvec) (md : t_mdatoms) (graph : bool) (shfc : gmx_shellfc)
    (fc_stepsize : real) (vsite : bool) (res : relax_result) :
  relax_shell_flexcon fplog cr bVerbose mdstep inputrec bDoNS state f md
    graph shfc fc_stepsize vsite = Done res ->
  ir_drudemode inputrec = edrudeSCF \/ ir_eI_is_EM inputrec = true.
Proof.
  intros H. unfold relax_shell_flexcon in H.
  obind_as H [[nat_ x] ls0] Hprep.
  apply relax_prepare_velocities in Hprep as [_ Hmode]. exact Hmode.
Qed.

Lemma relax_shell_flexcon_needs_scf_or_em_witness :
  ir_drudemode example_ir = edrudeSCF \/ ir_eI_is_EM example_ir = true.
Proof.
  apply (@relax_shell_flexcon_needs_scf_or_em example_headers
           (example_collab rvec_zero) true single_rank true 1 example_ir false
           pair_state [rvec_zero; rvec_zero] pair_md false pair_shfc 1 false
           (pair_result rvec_zero)).
  vm_compute. reflexivity.
Defined.

(** X25: a step without virtual sites of an engine without flexible
    constraints leaves every velocity as it was.  (With virtual sites
    the velocity array is handed to [construct_vsites] in every round of
    the loop, and with flexible constraints an accepted round corrects
    the velocities.) *)
Theorem relax_keeps_velocities_without_flexcon {hdr : Headers}
    {col : Collaborators} (fplog : bool) (cr : t_commrec) (bVerbose : bool)
    (mdstep : Z) (inputrec : t_inputrec) (bDoNS : bool) (state : t_state)
    (f : list rvec) (md : t_mdatoms) (graph : bool) (shfc : gmx_shellfc)
    (fc_stepsize : real) (res : relax_result) :
  nflexcon shfc = 0 ->
  relax_shell_flexcon fplog cr bVerbose mdstep inputrec bDoNS state f md
    graph shfc fc_stepsize false = Done res ->
  st_v (rr_state res) = st_v state.
Proof.
  intros Hnf H. unfold relax_shell_flexcon in H.
  obind_as H [[nat_ x] ls0] Hprep. obind_as H ls Hloop.
  pose proof (relax_prepare_spec _ _ _ _ _ _ _ _ _ _ _ _ Hprep)
    as (_ & _ & _ & _ & _ & _ & _ & Hnf0 & _).
  apply relax_prepare_velocities in Hprep as [Hv0 _].
  apply relax_finish_state in H as [Hv _]. rewrite Hv.
  refine (proj1 (relax_loop_invariant cr bVerbose mdstep inputrec md graph
                   false fc_stepsize x
                   (fun l => ls_v l = st_v state /\ nflexcon (ls_shfc l) = 0)
                   _ _ ls0 ls _ Hloop)).
  - intros l l' [Hvl Hnfl] _ _ Hit. split.
    + apply relax_iteration_noflex in Hit as [Hv' _];
        [|reflexivity|exact Hnfl].
      congruence.
    + apply relax_iteration_spec in Hit as (_ & Hsc & _).
      unfold shfc_scalars in Hsc. injection Hsc as _ Hn _ _. congruence.
  - split; [exact Hv0|]. congruence.
Qed.

Lemma relax_keeps_velocities_without_flexcon_witness :
  st_v (rr_state (pair_result (mk_rvec 1 0 0))) = st_v pair_state.
Proof.
  apply (@relax_keeps_velocities_without_flexcon example_headers
           (example_collab (mk_rvec 1 0 0)) true single_rank true 1
           example_ir false pair_state [rvec_zero; rvec_zero] pair_md false
           pair_shfc 1 (pair_result (mk_rvec 1 0 0))).
  - reflexivity.
  - vm_compute. reflexivity.
Defined.




(** ** Set-up and step together *)

(** X27: on a single node, an engine that [init_shell_flexcon] has set
    up for a topology with shells, after [make_local_shells], can fail
    in [relax_shell_flexcon] with a fatal error in one way only: the
    Drude mode is not SCF while the integrator is not an energy
    minimiser.  The predictor's error for a shell with a number of
    nuclei outside 1..3 cannot occur, since set-up has rejected such
    tables. *)
Theorem relax_after_setup_fails_only_on_mode {hdr : Headers}
    {col : Collaborators} (shfc0 : gmx_shellfc) (ir : t_inputrec)
    (env : environment) (mtop : gmx_mtop_t) (nflexcon_arg nstcalcenergy : Z)
    (n : nptype_t) (shfc1 shfc2 : gmx_shellfc) (fplog : bool)
    (cr : t_commrec) (bVerbose : bool) (mdstep : Z) (inputrec : t_inputrec)
    (bDoNS : bool) (state : t_state) (f : list rvec) (md : t_mdatoms)
    (graph : bool) (fc_stepsize : real) (vsite : bool) (e : fatal_error) :
  countPtypes mtop = Done n ->
  n eptShell <> 0 ->
  init_shell_flexcon shfc0 ir env mtop nflexcon_arg nstcalcenergy
  = Done shfc1 ->
  cr_dd cr = None ->
  make_local_shells cr md shfc1 = Done shfc2 ->
  relax_shell_flexcon fplog cr bVerbose mdstep inputrec bDoNS state f md
    graph shfc2 fc_stepsize vsite = Fatal e ->
  e = FatalUnknownDrudeMode
  /\ ir_drudemode inputrec <> edrudeSCF /\ ir_eI_is_EM inputrec = false.
Proof.
  intros Hn Hshell Hinit Hdd Hlocal H.
  destruct (init_shell_flexcon_shells _ _ _ _ _ _ _ _ Hn Hshell Hinit)
    as (shell_index & nshell1 & st & _ & _ & Hscan & Hfull & ->).
  pose proof (scan_topology_inv _ _ _ _ _ _ _ (scan_inv_init _) Hscan) as Hinv.
  assert (Hlen : sc_ns st = Z.of_nat (Z.to_nat nshell1)).
  { destruct Hinv as (Hl & _ & Hns).
    pose proof (n_bonded_bounds (sc_shell st)). lia. }
  pose proof (scan_inv_complete _ _ Hinv Hlen) as Hnn.
  unfold make_local_shells in Hlocal. rewrite Hdd in Hlocal.
  injection Hlocal as <-.
  apply obind_Fatal in H as [H|([[nat_ x] ls0] & _ & H)].
  - apply relax_prepare_Fatal in H
      as [Hmode|(_ & i & si & _ & Hsi & _ & N1 & N2 & N3)];
      [exact Hmode|].
    exfalso. unfold shell_cells in Hsi.
    cbn [set_local shell_p shell_gl finish_init] in Hsi.
    change (((fun s => set_k_1 s (1 / k s)%Q) <$> sc_shell st) !! Z.to_nat i
            = Some si) in Hsi.
    rewrite list_lookup_fmap in Hsi.
    destruct (sc_shell st !! Z.to_nat i) as [s0|] eqn:E; [|discriminate Hsi].
    injection Hsi as <-. cbn [nnucl set_k_1] in N1, N2, N3.
    pose proof (proj1 (Forall_lookup _ _) Hnn _ _ E) as Hs0.
    unfold nnucl_1_to_3 in Hs0. lia.
  - exfalso. apply obind_Fatal in H as [H|(ls & _ & H)].
    + exact (never_fatal_relax_loop _ _ _ _ _ _ _ _ _ _ _ _ H).
    + exact (never_fatal_relax_finish _ _ _ _ _ _ _ _ _ H).
Qed.

Lemma relax_after_setup_fails_only_on_mode_witness :
  FatalUnknownDrudeMode = FatalUnknownDrudeMode
  /\ ir_drudemode wall_ir <> edrudeSCF /\ ir_eI_is_EM wall_ir = false.
Proof.
  apply (@relax_after_setup_fails_only_on_mode example_headers
           (example_collab rvec_zero) shfc_zero example_ir example_env
           (example_mtop drude_pair 1) 0 1 pair_counts pair_init_shfc
           pair_shfc true single_rank true 1 wall_ir false pair_state
           [rvec_zero; rvec_zero] pair_md false 1 false
           FatalUnknownDrudeMode).
  - reflexivity.
  - vm_compute. discriminate.
  - vm_compute. reflexivity.
  - reflexivity.
  - vm_compute. reflexivity.
  - vm_compute. reflexivity.
Defined.

(** ** The debug dump *)

Lemma check_pbc_Done (x : list rvec) (shell : Z) (out : list dump_line) :
  check_pbc x shell = Done out -> 4 <= shell < Z.of_nat (length x).
Proof.
  unfold check_pbc. intros H. obind_as H xs Hxs. obind_as H xn Hxn.
  apply aget_Done in Hxs as [_ Hxs]. apply aget_Done in Hxn as [Hnow _].
  apply lookup_lt_Some in Hxs. lia.
Qed.

(** X28: the debug dump of the shells reads inside its arrays, and so
    returns, only if every shell of the first [ns] records has an atom
    number of at least 4 (and inside the position array): [check_pbc]
    compares the shell with the atom four places before it,
    [x[shell-4]], whatever the shell is.  The force lines it writes are
    those of the shells whose squared force exceeds the squared
    tolerance. *)
Theorem dump_shells_reads_four_atoms_back {hdr : Headers} (x f : list rvec)
    (ftol : real) (ns : Z) (s : list t_shell) (out : list dump_line) :
  dump_shells x f ftol ns s = Done out ->
  (forall j sj,
     s !! j = Some sj -> Z.of_nat j < ns ->
     4 <= shell sj < Z.of_nat (length x))
  /\ forall sh fs r,
       In (DumpForce sh fs r) out ->
       f !! Z.to_nat sh = Some fs /\ (ftol * ftol < iprod fs fs)%Q.
Proof.
  unfold dump_shells. intros H.
  pose (P := fun (i : Z) (o : list dump_line) =>
    0 <= i
    /\ (forall j sj,
          s !! j = Some sj -> Z.of_nat j < i ->
          4 <= shell sj < Z.of_nat (length x))
    /\ forall sh fs r,
         In (DumpForce sh fs r) o ->
         f !! Z.to_nat sh = Some fs /\ (ftol * ftol < iprod fs fs)%Q).
  assert (HP : P (Z.max 0 ns) out).
  { refine (ofold_zrange P _ ns _ (Z.to_nat (ns - 0)) 0 [] out eq_refl _ H).
    - intros i o o' Hi (Hi0 & Hsh & Hlines) Hbody. cbv zeta in Hbody.
      obind_as Hbody si Hsi. apply aget_Done in Hsi as [_ Hsi].
      obind_as Hbody fs Hfs. apply aget_Done in Hfs as [_ Hfs].
      obind_as Hbody pbc Hpbc. injection Hbody as <-.
      pose proof (check_pbc_Done _ _ _ Hpbc) as Hfour.
      unfold P. split; [lia|]. split.
      + intros j sj Hsj Hj. destruct (decide (j = Z.to_nat i)) as [->|Hne].
        * rewrite Hsi in Hsj. injection Hsj as <-. exact Hfour.
        * apply (Hsh j sj Hsj). lia.
      + intros sh fs' r Hin. apply in_app_or in Hin as [Hin|Hin];
          [apply (Hlines _ _ _ Hin)|].
        apply in_app_or in Hin as [Hin|Hin].
        * destruct (Qltb (ftol * ftol) (iprod fs fs)) eqn:E;
            [|destruct Hin].
          destruct Hin as [Hin|[]]. injection Hin as <- <- _.
          split; [exact Hfs|]. apply Qltb_lt. exact E.
        * exfalso. unfold check_pbc in Hpbc.
          obind_as Hpbc xs Hxs. obind_as Hpbc xn Hxn.
          destruct (existsb _ _).
          -- obind_as Hpbc rows Hrows. injection Hpbc as <-.
             destruct Hin as [Hin|[]]. discriminate Hin.
          -- injection Hpbc as <-. destruct Hin.
    - unfold P. split; [lia|]. split; [intros j sj _ Hj; lia|].
      intros sh fs r []. }
  destruct HP as (_ & Hsh & Hlines). split; [|exact Hlines].
  intros j sj Hsj Hj. apply (Hsh j sj Hsj). lia.
Qed.

Lemma dump_shells_reads_four_atoms_back_witness :
  (forall j sj,
     [set_shell sweep_shell 5] !! j = Some sj -> Z.of_nat j < 1 ->
     4 <= shell sj < Z.of_nat (length dump_x))
  /\ @dump_shells example_headers sweep_x sweep_f (1 # 2) 1 [sweep_shell]
     = Undefined.
Proof.
  split.
  - refine (proj1 (@dump_shells_reads_four_atoms_back example_headers dump_x
                     dump_x (1 # 2) 1 [set_shell sweep_shell 5] dump_out _)).
    vm_compute. reflexivity.
  - vm_compute. reflexivity.
Defined.
